(** * Resume parser: a shallow embedding of [src/parser.py] and its properties

    The development follows the layout of [ResumeParser]:
    - [Chars]: Python [str] values as sequences of code points, with the
      character tables the parser relies on ([str.lower], [str.title],
      [str.strip], [str.split], the classes [\w], [\s], [\d]);
    - [Re]: the fragment of Python's [re] used by the parser (a backtracking
      matcher, [re.search], [re.finditer], [re.split]);
    - [Parser]: one definition per method of [ResumeParser];
    - the theorems.

    The character tables ([\w], [\d], [\s], the case mappings, matching under
    [re.IGNORECASE]) are the Unicode tables of the interpreter. *)

From Stdlib Require Import String Ascii NArith ZArith Lia.
From stdpp Require Import base option list sorting gmap.

Local Open Scope nat_scope.

(** ** Python strings *)

Module Chars.

(** A Python [str] is a sequence of code points. *)
Abbreviation text := (list N).

(** ASCII literals of the source, as code points. *)
Definition cps (s : string) : text :=
  List.map N_of_ascii (list_ascii_of_string s).

Definition in_range (lo hi c : N) : bool := ((lo <=? c) && (c <=? hi))%N.

(** The ASCII ranges [[A-Z]], [[a-z]], [[A-Za-z]] and [[0-9]], as the e-mail
    pattern writes them. *)
Definition is_upper (c : N) : bool := in_range 65 90 c.
Definition is_lower (c : N) : bool := in_range 97 122 c.
Definition is_alpha (c : N) : bool := is_upper c || is_lower c.
Definition is_ascii_digit (c : N) : bool := in_range 48 57 c.

(** *** The character tables of the interpreter

    The tables below are those of CPython 3.11 (Unicode 14.0.0), as
    [re] and [str] consult them. *)

(** Membership in a table of ranges, sorted in ascending order. *)
Fixpoint in_ranges (ranges : list (N * N)) (c : N) : bool :=
  match ranges with
  | [] => false
  | (lo, hi) :: ranges' =>
      if (c <? lo)%N then false else (c <=? hi)%N || in_ranges ranges' c
  end.

(** The code points of [\w]: those of [str.isalnum], and the underscore. *)
Definition word_ranges : list (N * N) :=
  [
   (48,57); (65,90); (95,95); (97,122); (170,170); (178,179); (181,181);
   (185,186); (188,190); (192,214); (216,246); (248,705); (710,721);
   (736,740); (748,748); (750,750); (880,884); (886,887); (890,893);
   (895,895); (902,902); (904,906); (908,908); (910,929); (931,1013);
   (1015,1153); (1162,1327); (1329,1366); (1369,1369); (1376,1416);
   (1488,1514); (1519,1522); (1568,1610); (1632,1641); (1646,1647);
   (1649,1747); (1749,1749); (1765,1766); (1774,1788); (1791,1791);
   (1808,1808); (1810,1839); (1869,1957); (1969,1969); (1984,2026);
   (2036,2037); (2042,2042); (2048,2069); (2074,2074); (2084,2084);
   (2088,2088); (2112,2136); (2144,2154); (2160,2183); (2185,2190);
   (2208,2249); (2308,2361); (2365,2365); (2384,2384); (2392,2401);
   (2406,2415); (2417,2432); (2437,2444); (2447,2448); (2451,2472);
   (2474,2480); (2482,2482); (2486,2489); (2493,2493); (2510,2510);
   (2524,2525); (2527,2529); (2534,2545); (2548,2553); (2556,2556);
   (2565,2570); (2575,2576); (2579,2600); (2602,2608); (2610,2611);
   (2613,2614); (2616,2617); (2649,2652); (2654,2654); (2662,2671);
   (2674,2676); (2693,2701); (2703,2705); (2707,2728); (2730,2736);
   (2738,2739); (2741,2745); (2749,2749); (2768,2768); (2784,2785);
   (2790,2799); (2809,2809); (2821,2828); (2831,2832); (2835,2856);
   (2858,2864); (2866,2867); (2869,2873); (2877,2877); (2908,2909);
   (2911,2913); (2918,2927); (2929,2935); (2947,2947); (2949,2954);
   (2958,2960); (2962,2965); (2969,2970); (2972,2972); (2974,2975);
   (2979,2980); (2984,2986); (2990,3001); (3024,3024); (3046,3058);
   (3077,3084); (3086,3088); (3090,3112); (3114,3129); (3133,3133);
   (3160,3162); (3165,3165); (3168,3169); (3174,3183); (3192,3198);
   (3200,3200); (3205,3212); (3214,3216); (3218,3240); (3242,3251);
   (3253,3257); (3261,3261); (3293,3294); (3296,3297); (3302,3311);
   (3313,3314); (3332,3340); (3342,3344); (3346,3386); (3389,3389);
   (3406,3406); (3412,3414); (3416,3425); (3430,3448); (3450,3455);
   (3461,3478); (3482,3505); (3507,3515); (3517,3517); (3520,3526);
   (3558,3567); (3585,3632); (3634,3635); (3648,3654); (3664,3673);
   (3713,3714); (3716,3716); (3718,3722); (3724,3747); (3749,3749);
   (3751,3760); (3762,3763); (3773,3773); (3776,3780); (3782,3782);
   (3792,3801); (3804,3807); (3840,3840); (3872,3891); (3904,3911);
   (3913,3948); (3976,3980); (4096,4138); (4159,4169); (4176,4181);
   (4186,4189); (4193,4193); (4197,4198); (4206,4208); (4213,4225);
   (4238,4238); (4240,4249); (4256,4293); (4295,4295); (4301,4301);
   (4304,4346); (4348,4680); (4682,4685); (4688,4694); (4696,4696);
   (4698,4701); (4704,4744); (4746,4749); (4752,4784); (4786,4789);
   (4792,4798); (4800,4800); (4802,4805); (4808,4822); (4824,4880);
   (4882,4885); (4888,4954); (4969,4988); (4992,5007); (5024,5109);
   (5112,5117); (5121,5740); (5743,5759); (5761,5786); (5792,5866);
   (5870,5880); (5888,5905); (5919,5937); (5952,5969); (5984,5996);
   (5998,6000); (6016,6067); (6103,6103); (6108,6108); (6112,6121);
   (6128,6137); (6160,6169); (6176,6264); (6272,6276); (6279,6312);
   (6314,6314); (6320,6389); (6400,6430); (6470,6509); (6512,6516);
   (6528,6571); (6576,6601); (6608,6618); (6656,6678); (6688,6740);
   (6784,6793); (6800,6809); (6823,6823); (6917,6963); (6981,6988);
   (6992,7001); (7043,7072); (7086,7141); (7168,7203); (7232,7241);
   (7245,7293); (7296,7304); (7312,7354); (7357,7359); (7401,7404);
   (7406,7411); (7413,7414); (7418,7418); (7424,7615); (7680,7957);
   (7960,7965); (7968,8005); (8008,8013); (8016,8023); (8025,8025);
   (8027,8027); (8029,8029); (8031,8061); (8064,8116); (8118,8124);
   (8126,8126); (8130,8132); (8134,8140); (8144,8147); (8150,8155);
   (8160,8172); (8178,8180); (8182,8188); (8304,8305); (8308,8313);
   (8319,8329); (8336,8348); (8450,8450); (8455,8455); (8458,8467);
   (8469,8469); (8473,8477); (8484,8484); (8486,8486); (8488,8488);
   (8490,8493); (8495,8505); (8508,8511); (8517,8521); (8526,8526);
   (8528,8585); (9312,9371); (9450,9471); (10102,10131); (11264,11492);
   (11499,11502); (11506,11507); (11517,11517); (11520,11557); (11559,11559);
   (11565,11565); (11568,11623); (11631,11631); (11648,11670); (11680,11686);
   (11688,11694); (11696,11702); (11704,11710); (11712,11718); (11720,11726);
   (11728,11734); (11736,11742); (11823,11823); (12293,12295); (12321,12329);
   (12337,12341); (12344,12348); (12353,12438); (12445,12447); (12449,12538);
   (12540,12543); (12549,12591); (12593,12686); (12690,12693); (12704,12735);
   (12784,12799); (12832,12841); (12872,12879); (12881,12895); (12928,12937);
   (12977,12991); (13312,19903); (19968,42124); (42192,42237); (42240,42508);
   (42512,42539); (42560,42606); (42623,42653); (42656,42735); (42775,42783);
   (42786,42888); (42891,42954); (42960,42961); (42963,42963); (42965,42969);
   (42994,43009); (43011,43013); (43015,43018); (43020,43042); (43056,43061);
   (43072,43123); (43138,43187); (43216,43225); (43250,43255); (43259,43259);
   (43261,43262); (43264,43301); (43312,43334); (43360,43388); (43396,43442);
   (43471,43481); (43488,43492); (43494,43518); (43520,43560); (43584,43586);
   (43588,43595); (43600,43609); (43616,43638); (43642,43642); (43646,43695);
   (43697,43697); (43701,43702); (43705,43709); (43712,43712); (43714,43714);
   (43739,43741); (43744,43754); (43762,43764); (43777,43782); (43785,43790);
   (43793,43798); (43808,43814); (43816,43822); (43824,43866); (43868,43881);
   (43888,44002); (44016,44025); (44032,55203); (55216,55238); (55243,55291);
   (63744,64109); (64112,64217); (64256,64262); (64275,64279); (64285,64285);
   (64287,64296); (64298,64310); (64312,64316); (64318,64318); (64320,64321);
   (64323,64324); (64326,64433); (64467,64829); (64848,64911); (64914,64967);
   (65008,65019); (65136,65140); (65142,65276); (65296,65305); (65313,65338);
   (65345,65370); (65382,65470); (65474,65479); (65482,65487); (65490,65495);
   (65498,65500); (65536,65547); (65549,65574); (65576,65594); (65596,65597);
   (65599,65613); (65616,65629); (65664,65786); (65799,65843); (65856,65912);
   (65930,65931); (66176,66204); (66208,66256); (66273,66299); (66304,66339);
   (66349,66378); (66384,66421); (66432,66461); (66464,66499); (66504,66511);
   (66513,66517); (66560,66717); (66720,66729); (66736,66771); (66776,66811);
   (66816,66855); (66864,66915); (66928,66938); (66940,66954); (66956,66962);
   (66964,66965); (66967,66977); (66979,66993); (66995,67001); (67003,67004);
   (67072,67382); (67392,67413); (67424,67431); (67456,67461); (67463,67504);
   (67506,67514); (67584,67589); (67592,67592); (67594,67637); (67639,67640);
   (67644,67644); (67647,67669); (67672,67702); (67705,67742); (67751,67759);
   (67808,67826); (67828,67829); (67835,67867); (67872,67897); (67968,68023);
   (68028,68047); (68050,68096); (68112,68115); (68117,68119); (68121,68149);
   (68160,68168); (68192,68222); (68224,68255); (68288,68295); (68297,68324);
   (68331,68335); (68352,68405); (68416,68437); (68440,68466); (68472,68497);
   (68521,68527); (68608,68680); (68736,68786); (68800,68850); (68858,68899);
   (68912,68921); (69216,69246); (69248,69289); (69296,69297); (69376,69415);
   (69424,69445); (69457,69460); (69488,69505); (69552,69579); (69600,69622);
   (69635,69687); (69714,69743); (69745,69746); (69749,69749); (69763,69807);
   (69840,69864); (69872,69881); (69891,69926); (69942,69951); (69956,69956);
   (69959,69959); (69968,70002); (70006,70006); (70019,70066); (70081,70084);
   (70096,70106); (70108,70108); (70113,70132); (70144,70161); (70163,70187);
   (70272,70278); (70280,70280); (70282,70285); (70287,70301); (70303,70312);
   (70320,70366); (70384,70393); (70405,70412); (70415,70416); (70419,70440);
   (70442,70448); (70450,70451); (70453,70457); (70461,70461); (70480,70480);
   (70493,70497); (70656,70708); (70727,70730); (70736,70745); (70751,70753);
   (70784,70831); (70852,70853); (70855,70855); (70864,70873); (71040,71086);
   (71128,71131); (71168,71215); (71236,71236); (71248,71257); (71296,71338);
   (71352,71352); (71360,71369); (71424,71450); (71472,71483); (71488,71494);
   (71680,71723); (71840,71922); (71935,71942); (71945,71945); (71948,71955);
   (71957,71958); (71960,71983); (71999,71999); (72001,72001); (72016,72025);
   (72096,72103); (72106,72144); (72161,72161); (72163,72163); (72192,72192);
   (72203,72242); (72250,72250); (72272,72272); (72284,72329); (72349,72349);
   (72368,72440); (72704,72712); (72714,72750); (72768,72768); (72784,72812);
   (72818,72847); (72960,72966); (72968,72969); (72971,73008); (73030,73030);
   (73040,73049); (73056,73061); (73063,73064); (73066,73097); (73112,73112);
   (73120,73129); (73440,73458); (73648,73648); (73664,73684); (73728,74649);
   (74752,74862); (74880,75075); (77712,77808); (77824,78894); (82944,83526);
   (92160,92728); (92736,92766); (92768,92777); (92784,92862); (92864,92873);
   (92880,92909); (92928,92975); (92992,92995); (93008,93017); (93019,93025);
   (93027,93047); (93053,93071); (93760,93846); (93952,94026); (94032,94032);
   (94099,94111); (94176,94177); (94179,94179); (94208,100343);
   (100352,101589); (101632,101640); (110576,110579); (110581,110587);
   (110589,110590); (110592,110882); (110928,110930); (110948,110951);
   (110960,111355); (113664,113770); (113776,113788); (113792,113800);
   (113808,113817); (119520,119539); (119648,119672); (119808,119892);
   (119894,119964); (119966,119967); (119970,119970); (119973,119974);
   (119977,119980); (119982,119993); (119995,119995); (119997,120003);
   (120005,120069); (120071,120074); (120077,120084); (120086,120092);
   (120094,120121); (120123,120126); (120128,120132); (120134,120134);
   (120138,120144); (120146,120485); (120488,120512); (120514,120538);
   (120540,120570); (120572,120596); (120598,120628); (120630,120654);
   (120656,120686); (120688,120712); (120714,120744); (120746,120770);
   (120772,120779); (120782,120831); (122624,122654); (123136,123180);
   (123191,123197); (123200,123209); (123214,123214); (123536,123565);
   (123584,123627); (123632,123641); (124896,124902); (124904,124907);
   (124909,124910); (124912,124926); (124928,125124); (125127,125135);
   (125184,125251); (125259,125259); (125264,125273); (126065,126123);
   (126125,126127); (126129,126132); (126209,126253); (126255,126269);
   (126464,126467); (126469,126495); (126497,126498); (126500,126500);
   (126503,126503); (126505,126514); (126516,126519); (126521,126521);
   (126523,126523); (126530,126530); (126535,126535); (126537,126537);
   (126539,126539); (126541,126543); (126545,126546); (126548,126548);
   (126551,126551); (126553,126553); (126555,126555); (126557,126557);
   (126559,126559); (126561,126562); (126564,126564); (126567,126570);
   (126572,126578); (126580,126583); (126585,126588); (126590,126590);
   (126592,126601); (126603,126619); (126625,126627); (126629,126633);
   (126635,126651); (127232,127244); (130032,130041); (131072,173791);
   (173824,177976); (177984,178205); (178208,183969); (183984,191456);
   (194560,195101); (196608,201546)
  ]%N.

(** The code points of [\d]: those of [str.isdecimal]. *)
Definition digit_ranges : list (N * N) :=
  [
   (48,57); (1632,1641); (1776,1785); (1984,1993); (2406,2415); (2534,2543);
   (2662,2671); (2790,2799); (2918,2927); (3046,3055); (3174,3183);
   (3302,3311); (3430,3439); (3558,3567); (3664,3673); (3792,3801);
   (3872,3881); (4160,4169); (4240,4249); (6112,6121); (6160,6169);
   (6470,6479); (6608,6617); (6784,6793); (6800,6809); (6992,7001);
   (7088,7097); (7232,7241); (7248,7257); (42528,42537); (43216,43225);
   (43264,43273); (43472,43481); (43504,43513); (43600,43609); (44016,44025);
   (65296,65305); (66720,66729); (68912,68921); (69734,69743); (69872,69881);
   (69942,69951); (70096,70105); (70384,70393); (70736,70745); (70864,70873);
   (71248,71257); (71360,71369); (71472,71481); (71904,71913); (72016,72025);
   (72784,72793); (73040,73049); (73120,73129); (92768,92777); (92864,92873);
   (93008,93017); (120782,120831); (123200,123209); (123632,123641);
   (125264,125273); (130032,130041)
  ]%N.

(** The cased code points (upper case, lower case or title case). *)
Definition cased_ranges : list (N * N) :=
  [
   (65,90); (97,122); (170,170); (181,181); (186,186); (192,214); (216,246);
   (248,442); (444,447); (452,659); (661,696); (704,705); (736,740);
   (837,837); (880,883); (886,887); (890,893); (895,895); (902,902);
   (904,906); (908,908); (910,929); (931,1013); (1015,1153); (1162,1327);
   (1329,1366); (1376,1416); (4256,4293); (4295,4295); (4301,4301);
   (4304,4346); (4349,4351); (5024,5109); (5112,5117); (7296,7304);
   (7312,7354); (7357,7359); (7424,7615); (7680,7957); (7960,7965);
   (7968,8005); (8008,8013); (8016,8023); (8025,8025); (8027,8027);
   (8029,8029); (8031,8061); (8064,8116); (8118,8124); (8126,8126);
   (8130,8132); (8134,8140); (8144,8147); (8150,8155); (8160,8172);
   (8178,8180); (8182,8188); (8305,8305); (8319,8319); (8336,8348);
   (8450,8450); (8455,8455); (8458,8467); (8469,8469); (8473,8477);
   (8484,8484); (8486,8486); (8488,8488); (8490,8493); (8495,8500);
   (8505,8505); (8508,8511); (8517,8521); (8526,8526); (8544,8575);
   (8579,8580); (9398,9449); (11264,11492); (11499,11502); (11506,11507);
   (11520,11557); (11559,11559); (11565,11565); (42560,42605); (42624,42653);
   (42786,42887); (42891,42894); (42896,42954); (42960,42961); (42963,42963);
   (42965,42969); (42997,42998); (43000,43002); (43824,43866); (43868,43880);
   (43888,43967); (64256,64262); (64275,64279); (65313,65338); (65345,65370);
   (66560,66639); (66736,66771); (66776,66811); (66928,66938); (66940,66954);
   (66956,66962); (66964,66965); (66967,66977); (66979,66993); (66995,67001);
   (67003,67004); (67456,67456); (67459,67461); (67463,67504); (67506,67514);
   (68736,68786); (68800,68850); (71840,71903); (93760,93823);
   (119808,119892); (119894,119964); (119966,119967); (119970,119970);
   (119973,119974); (119977,119980); (119982,119993); (119995,119995);
   (119997,120003); (120005,120069); (120071,120074); (120077,120084);
   (120086,120092); (120094,120121); (120123,120126); (120128,120132);
   (120134,120134); (120138,120144); (120146,120485); (120488,120512);
   (120514,120538); (120540,120570); (120572,120596); (120598,120628);
   (120630,120654); (120656,120686); (120688,120712); (120714,120744);
   (120746,120770); (120772,120779); (122624,122633); (122635,122654);
   (125184,125251); (127280,127305); (127312,127337); (127344,127369)
  ]%N.

(** The case-ignorable code points, which the rule of the final sigma
    skips. *)
Definition case_ignorable_ranges : list (N * N) :=
  [
   (39,39); (46,46); (58,58); (94,94); (96,96); (168,168); (173,173);
   (175,175); (180,180); (183,184); (688,879); (884,885); (890,890);
   (900,901); (903,903); (1155,1161); (1369,1369); (1375,1375); (1425,1469);
   (1471,1471); (1473,1474); (1476,1477); (1479,1479); (1524,1524);
   (1536,1541); (1552,1562); (1564,1564); (1600,1600); (1611,1631);
   (1648,1648); (1750,1757); (1759,1768); (1770,1773); (1807,1807);
   (1809,1809); (1840,1866); (1958,1968); (2027,2037); (2042,2042);
   (2045,2045); (2070,2093); (2137,2139); (2184,2184); (2192,2193);
   (2200,2207); (2249,2306); (2362,2362); (2364,2364); (2369,2376);
   (2381,2381); (2385,2391); (2402,2403); (2417,2417); (2433,2433);
   (2492,2492); (2497,2500); (2509,2509); (2530,2531); (2558,2558);
   (2561,2562); (2620,2620); (2625,2626); (2631,2632); (2635,2637);
   (2641,2641); (2672,2673); (2677,2677); (2689,2690); (2748,2748);
   (2753,2757); (2759,2760); (2765,2765); (2786,2787); (2810,2815);
   (2817,2817); (2876,2876); (2879,2879); (2881,2884); (2893,2893);
   (2901,2902); (2914,2915); (2946,2946); (3008,3008); (3021,3021);
   (3072,3072); (3076,3076); (3132,3132); (3134,3136); (3142,3144);
   (3146,3149); (3157,3158); (3170,3171); (3201,3201); (3260,3260);
   (3263,3263); (3270,3270); (3276,3277); (3298,3299); (3328,3329);
   (3387,3388); (3393,3396); (3405,3405); (3426,3427); (3457,3457);
   (3530,3530); (3538,3540); (3542,3542); (3633,3633); (3636,3642);
   (3654,3662); (3761,3761); (3764,3772); (3782,3782); (3784,3789);
   (3864,3865); (3893,3893); (3895,3895); (3897,3897); (3953,3966);
   (3968,3972); (3974,3975); (3981,3991); (3993,4028); (4038,4038);
   (4141,4144); (4146,4151); (4153,4154); (4157,4158); (4184,4185);
   (4190,4192); (4209,4212); (4226,4226); (4229,4230); (4237,4237);
   (4253,4253); (4348,4348); (4957,4959); (5906,5908); (5938,5939);
   (5970,5971); (6002,6003); (6068,6069); (6071,6077); (6086,6086);
   (6089,6099); (6103,6103); (6109,6109); (6155,6159); (6211,6211);
   (6277,6278); (6313,6313); (6432,6434); (6439,6440); (6450,6450);
   (6457,6459); (6679,6680); (6683,6683); (6742,6742); (6744,6750);
   (6752,6752); (6754,6754); (6757,6764); (6771,6780); (6783,6783);
   (6823,6823); (6832,6862); (6912,6915); (6964,6964); (6966,6970);
   (6972,6972); (6978,6978); (7019,7027); (7040,7041); (7074,7077);
   (7080,7081); (7083,7085); (7142,7142); (7144,7145); (7149,7149);
   (7151,7153); (7212,7219); (7222,7223); (7288,7293); (7376,7378);
   (7380,7392); (7394,7400); (7405,7405); (7412,7412); (7416,7417);
   (7468,7530); (7544,7544); (7579,7679); (8125,8125); (8127,8129);
   (8141,8143); (8157,8159); (8173,8175); (8189,8190); (8203,8207);
   (8216,8217); (8228,8228); (8231,8231); (8234,8238); (8288,8292);
   (8294,8303); (8305,8305); (8319,8319); (8336,8348); (8400,8432);
   (11388,11389); (11503,11505); (11631,11631); (11647,11647); (11744,11775);
   (11823,11823); (12293,12293); (12330,12333); (12337,12341); (12347,12347);
   (12441,12446); (12540,12542); (40981,40981); (42232,42237); (42508,42508);
   (42607,42610); (42612,42621); (42623,42623); (42652,42655); (42736,42737);
   (42752,42785); (42864,42864); (42888,42890); (42994,42996); (43000,43001);
   (43010,43010); (43014,43014); (43019,43019); (43045,43046); (43052,43052);
   (43204,43205); (43232,43249); (43263,43263); (43302,43309); (43335,43345);
   (43392,43394); (43443,43443); (43446,43449); (43452,43453); (43471,43471);
   (43493,43494); (43561,43566); (43569,43570); (43573,43574); (43587,43587);
   (43596,43596); (43632,43632); (43644,43644); (43696,43696); (43698,43700);
   (43703,43704); (43710,43711); (43713,43713); (43741,43741); (43756,43757);
   (43763,43764); (43766,43766); (43867,43871); (43881,43883); (44005,44005);
   (44008,44008); (44013,44013); (64286,64286); (64434,64450); (65024,65039);
   (65043,65043); (65056,65071); (65106,65106); (65109,65109); (65279,65279);
   (65287,65287); (65294,65294); (65306,65306); (65342,65342); (65344,65344);
   (65392,65392); (65438,65439); (65507,65507); (65529,65531); (66045,66045);
   (66272,66272); (66422,66426); (67456,67461); (67463,67504); (67506,67514);
   (68097,68099); (68101,68102); (68108,68111); (68152,68154); (68159,68159);
   (68325,68326); (68900,68903); (69291,69292); (69446,69456); (69506,69509);
   (69633,69633); (69688,69702); (69744,69744); (69747,69748); (69759,69761);
   (69811,69814); (69817,69818); (69821,69821); (69826,69826); (69837,69837);
   (69888,69890); (69927,69931); (69933,69940); (70003,70003); (70016,70017);
   (70070,70078); (70089,70092); (70095,70095); (70191,70193); (70196,70196);
   (70198,70199); (70206,70206); (70367,70367); (70371,70378); (70400,70401);
   (70459,70460); (70464,70464); (70502,70508); (70512,70516); (70712,70719);
   (70722,70724); (70726,70726); (70750,70750); (70835,70840); (70842,70842);
   (70847,70848); (70850,70851); (71090,71093); (71100,71101); (71103,71104);
   (71132,71133); (71219,71226); (71229,71229); (71231,71232); (71339,71339);
   (71341,71341); (71344,71349); (71351,71351); (71453,71455); (71458,71461);
   (71463,71467); (71727,71735); (71737,71738); (71995,71996); (71998,71998);
   (72003,72003); (72148,72151); (72154,72155); (72160,72160); (72193,72202);
   (72243,72248); (72251,72254); (72263,72263); (72273,72278); (72281,72283);
   (72330,72342); (72344,72345); (72752,72758); (72760,72765); (72767,72767);
   (72850,72871); (72874,72880); (72882,72883); (72885,72886); (73009,73014);
   (73018,73018); (73020,73021); (73023,73029); (73031,73031); (73104,73105);
   (73109,73109); (73111,73111); (73459,73460); (78896,78904); (92912,92916);
   (92976,92982); (92992,92995); (94031,94031); (94095,94111); (94176,94177);
   (94179,94180); (110576,110579); (110581,110587); (110589,110590);
   (113821,113822); (113824,113827); (118528,118573); (118576,118598);
   (119143,119145); (119155,119170); (119173,119179); (119210,119213);
   (119362,119364); (121344,121398); (121403,121452); (121461,121461);
   (121476,121476); (121499,121503); (121505,121519); (122880,122886);
   (122888,122904); (122907,122913); (122915,122916); (122918,122922);
   (123184,123197); (123566,123566); (123628,123631); (125136,125142);
   (125252,125259); (127995,127999); (917505,917505); (917536,917631);
   (917760,917999)
  ]%N.

(** The lower-case mapping of single code points: [(lo, hi, target)] sends
    [lo + k] to [target + k] for [lo + k <= hi]. *)
Definition lower_runs : list (N * N * N) :=
  [
   (65,90,97); (192,214,224); (216,222,248); (256,256,257); (258,258,259);
   (260,260,261); (262,262,263); (264,264,265); (266,266,267); (268,268,269);
   (270,270,271); (272,272,273); (274,274,275); (276,276,277); (278,278,279);
   (280,280,281); (282,282,283); (284,284,285); (286,286,287); (288,288,289);
   (290,290,291); (292,292,293); (294,294,295); (296,296,297); (298,298,299);
   (300,300,301); (302,302,303); (306,306,307); (308,308,309); (310,310,311);
   (313,313,314); (315,315,316); (317,317,318); (319,319,320); (321,321,322);
   (323,323,324); (325,325,326); (327,327,328); (330,330,331); (332,332,333);
   (334,334,335); (336,336,337); (338,338,339); (340,340,341); (342,342,343);
   (344,344,345); (346,346,347); (348,348,349); (350,350,351); (352,352,353);
   (354,354,355); (356,356,357); (358,358,359); (360,360,361); (362,362,363);
   (364,364,365); (366,366,367); (368,368,369); (370,370,371); (372,372,373);
   (374,374,375); (376,376,255); (377,377,378); (379,379,380); (381,381,382);
   (385,385,595); (386,386,387); (388,388,389); (390,390,596); (391,391,392);
   (393,394,598); (395,395,396); (398,398,477); (399,399,601); (400,400,603);
   (401,401,402); (403,403,608); (404,404,611); (406,406,617); (407,407,616);
   (408,408,409); (412,412,623); (413,413,626); (415,415,629); (416,416,417);
   (418,418,419); (420,420,421); (422,422,640); (423,423,424); (425,425,643);
   (428,428,429); (430,430,648); (431,431,432); (433,434,650); (435,435,436);
   (437,437,438); (439,439,658); (440,440,441); (444,444,445); (452,452,454);
   (453,453,454); (455,455,457); (456,456,457); (458,458,460); (459,459,460);
   (461,461,462); (463,463,464); (465,465,466); (467,467,468); (469,469,470);
   (471,471,472); (473,473,474); (475,475,476); (478,478,479); (480,480,481);
   (482,482,483); (484,484,485); (486,486,487); (488,488,489); (490,490,491);
   (492,492,493); (494,494,495); (497,497,499); (498,498,499); (500,500,501);
   (502,502,405); (503,503,447); (504,504,505); (506,506,507); (508,508,509);
   (510,510,511); (512,512,513); (514,514,515); (516,516,517); (518,518,519);
   (520,520,521); (522,522,523); (524,524,525); (526,526,527); (528,528,529);
   (530,530,531); (532,532,533); (534,534,535); (536,536,537); (538,538,539);
   (540,540,541); (542,542,543); (544,544,414); (546,546,547); (548,548,549);
   (550,550,551); (552,552,553); (554,554,555); (556,556,557); (558,558,559);
   (560,560,561); (562,562,563); (570,570,11365); (571,571,572);
   (573,573,410); (574,574,11366); (577,577,578); (579,579,384);
   (580,580,649); (581,581,652); (582,582,583); (584,584,585); (586,586,587);
   (588,588,589); (590,590,591); (880,880,881); (882,882,883); (886,886,887);
   (895,895,1011); (902,902,940); (904,906,941); (908,908,972); (910,911,973);
   (913,929,945); (931,939,963); (975,975,983); (984,984,985); (986,986,987);
   (988,988,989); (990,990,991); (992,992,993); (994,994,995); (996,996,997);
   (998,998,999); (1000,1000,1001); (1002,1002,1003); (1004,1004,1005);
   (1006,1006,1007); (1012,1012,952); (1015,1015,1016); (1017,1017,1010);
   (1018,1018,1019); (1021,1023,891); (1024,1039,1104); (1040,1071,1072);
   (1120,1120,1121); (1122,1122,1123); (1124,1124,1125); (1126,1126,1127);
   (1128,1128,1129); (1130,1130,1131); (1132,1132,1133); (1134,1134,1135);
   (1136,1136,1137); (1138,1138,1139); (1140,1140,1141); (1142,1142,1143);
   (1144,1144,1145); (1146,1146,1147); (1148,1148,1149); (1150,1150,1151);
   (1152,1152,1153); (1162,1162,1163); (1164,1164,1165); (1166,1166,1167);
   (1168,1168,1169); (1170,1170,1171); (1172,1172,1173); (1174,1174,1175);
   (1176,1176,1177); (1178,1178,1179); (1180,1180,1181); (1182,1182,1183);
   (1184,1184,1185); (1186,1186,1187); (1188,1188,1189); (1190,1190,1191);
   (1192,1192,1193); (1194,1194,1195); (1196,1196,1197); (1198,1198,1199);
   (1200,1200,1201); (1202,1202,1203); (1204,1204,1205); (1206,1206,1207);
   (1208,1208,1209); (1210,1210,1211); (1212,1212,1213); (1214,1214,1215);
   (1216,1216,1231); (1217,1217,1218); (1219,1219,1220); (1221,1221,1222);
   (1223,1223,1224); (1225,1225,1226); (1227,1227,1228); (1229,1229,1230);
   (1232,1232,1233); (1234,1234,1235); (1236,1236,1237); (1238,1238,1239);
   (1240,1240,1241); (1242,1242,1243); (1244,1244,1245); (1246,1246,1247);
   (1248,1248,1249); (1250,1250,1251); (1252,1252,1253); (1254,1254,1255);
   (1256,1256,1257); (1258,1258,1259); (1260,1260,1261); (1262,1262,1263);
   (1264,1264,1265); (1266,1266,1267); (1268,1268,1269); (1270,1270,1271);
   (1272,1272,1273); (1274,1274,1275); (1276,1276,1277); (1278,1278,1279);
   (1280,1280,1281); (1282,1282,1283); (1284,1284,1285); (1286,1286,1287);
   (1288,1288,1289); (1290,1290,1291); (1292,1292,1293); (1294,1294,1295);
   (1296,1296,1297); (1298,1298,1299); (1300,1300,1301); (1302,1302,1303);
   (1304,1304,1305); (1306,1306,1307); (1308,1308,1309); (1310,1310,1311);
   (1312,1312,1313); (1314,1314,1315); (1316,1316,1317); (1318,1318,1319);
   (1320,1320,1321); (1322,1322,1323); (1324,1324,1325); (1326,1326,1327);
   (1329,1366,1377); (4256,4293,11520); (4295,4295,11559); (4301,4301,11565);
   (5024,5103,43888); (5104,5109,5112); (7312,7354,4304); (7357,7359,4349);
   (7680,7680,7681); (7682,7682,7683); (7684,7684,7685); (7686,7686,7687);
   (7688,7688,7689); (7690,7690,7691); (7692,7692,7693); (7694,7694,7695);
   (7696,7696,7697); (7698,7698,7699); (7700,7700,7701); (7702,7702,7703);
   (7704,7704,7705); (7706,7706,7707); (7708,7708,7709); (7710,7710,7711);
   (7712,7712,7713); (7714,7714,7715); (7716,7716,7717); (7718,7718,7719);
   (7720,7720,7721); (7722,7722,7723); (7724,7724,7725); (7726,7726,7727);
   (7728,7728,7729); (7730,7730,7731); (7732,7732,7733); (7734,7734,7735);
   (7736,7736,7737); (7738,7738,7739); (7740,7740,7741); (7742,7742,7743);
   (7744,7744,7745); (7746,7746,7747); (7748,7748,7749); (7750,7750,7751);
   (7752,7752,7753); (7754,7754,7755); (7756,7756,7757); (7758,7758,7759);
   (7760,7760,7761); (7762,7762,7763); (7764,7764,7765); (7766,7766,7767);
   (7768,7768,7769); (7770,7770,7771); (7772,7772,7773); (7774,7774,7775);
   (7776,7776,7777); (7778,7778,7779); (7780,7780,7781); (7782,7782,7783);
   (7784,7784,7785); (7786,7786,7787); (7788,7788,7789); (7790,7790,7791);
   (7792,7792,7793); (7794,7794,7795); (7796,7796,7797); (7798,7798,7799);
   (7800,7800,7801); (7802,7802,7803); (7804,7804,7805); (7806,7806,7807);
   (7808,7808,7809); (7810,7810,7811); (7812,7812,7813); (7814,7814,7815);
   (7816,7816,7817); (7818,7818,7819); (7820,7820,7821); (7822,7822,7823);
   (7824,7824,7825); (7826,7826,7827); (7828,7828,7829); (7838,7838,223);
   (7840,7840,7841); (7842,7842,7843); (7844,7844,7845); (7846,7846,7847);
   (7848,7848,7849); (7850,7850,7851); (7852,7852,7853); (7854,7854,7855);
   (7856,7856,7857); (7858,7858,7859); (7860,7860,7861); (7862,7862,7863);
   (7864,7864,7865); (7866,7866,7867); (7868,7868,7869); (7870,7870,7871);
   (7872,7872,7873); (7874,7874,7875); (7876,7876,7877); (7878,7878,7879);
   (7880,7880,7881); (7882,7882,7883); (7884,7884,7885); (7886,7886,7887);
   (7888,7888,7889); (7890,7890,7891); (7892,7892,7893); (7894,7894,7895);
   (7896,7896,7897); (7898,7898,7899); (7900,7900,7901); (7902,7902,7903);
   (7904,7904,7905); (7906,7906,7907); (7908,7908,7909); (7910,7910,7911);
   (7912,7912,7913); (7914,7914,7915); (7916,7916,7917); (7918,7918,7919);
   (7920,7920,7921); (7922,7922,7923); (7924,7924,7925); (7926,7926,7927);
   (7928,7928,7929); (7930,7930,7931); (7932,7932,7933); (7934,7934,7935);
   (7944,7951,7936); (7960,7965,7952); (7976,7983,7968); (7992,7999,7984);
   (8008,8013,8000); (8025,8025,8017); (8027,8027,8019); (8029,8029,8021);
   (8031,8031,8023); (8040,8047,8032); (8072,8079,8064); (8088,8095,8080);
   (8104,8111,8096); (8120,8121,8112); (8122,8123,8048); (8124,8124,8115);
   (8136,8139,8050); (8140,8140,8131); (8152,8153,8144); (8154,8155,8054);
   (8168,8169,8160); (8170,8171,8058); (8172,8172,8165); (8184,8185,8056);
   (8186,8187,8060); (8188,8188,8179); (8486,8486,969); (8490,8490,107);
   (8491,8491,229); (8498,8498,8526); (8544,8559,8560); (8579,8579,8580);
   (9398,9423,9424); (11264,11311,11312); (11360,11360,11361);
   (11362,11362,619); (11363,11363,7549); (11364,11364,637);
   (11367,11367,11368); (11369,11369,11370); (11371,11371,11372);
   (11373,11373,593); (11374,11374,625); (11375,11375,592); (11376,11376,594);
   (11378,11378,11379); (11381,11381,11382); (11390,11391,575);
   (11392,11392,11393); (11394,11394,11395); (11396,11396,11397);
   (11398,11398,11399); (11400,11400,11401); (11402,11402,11403);
   (11404,11404,11405); (11406,11406,11407); (11408,11408,11409);
   (11410,11410,11411); (11412,11412,11413); (11414,11414,11415);
   (11416,11416,11417); (11418,11418,11419); (11420,11420,11421);
   (11422,11422,11423); (11424,11424,11425); (11426,11426,11427);
   (11428,11428,11429); (11430,11430,11431); (11432,11432,11433);
   (11434,11434,11435); (11436,11436,11437); (11438,11438,11439);
   (11440,11440,11441); (11442,11442,11443); (11444,11444,11445);
   (11446,11446,11447); (11448,11448,11449); (11450,11450,11451);
   (11452,11452,11453); (11454,11454,11455); (11456,11456,11457);
   (11458,11458,11459); (11460,11460,11461); (11462,11462,11463);
   (11464,11464,11465); (11466,11466,11467); (11468,11468,11469);
   (11470,11470,11471); (11472,11472,11473); (11474,11474,11475);
   (11476,11476,11477); (11478,11478,11479); (11480,11480,11481);
   (11482,11482,11483); (11484,11484,11485); (11486,11486,11487);
   (11488,11488,11489); (11490,11490,11491); (11499,11499,11500);
   (11501,11501,11502); (11506,11506,11507); (42560,42560,42561);
   (42562,42562,42563); (42564,42564,42565); (42566,42566,42567);
   (42568,42568,42569); (42570,42570,42571); (42572,42572,42573);
   (42574,42574,42575); (42576,42576,42577); (42578,42578,42579);
   (42580,42580,42581); (42582,42582,42583); (42584,42584,42585);
   (42586,42586,42587); (42588,42588,42589); (42590,42590,42591);
   (42592,42592,42593); (42594,42594,42595); (42596,42596,42597);
   (42598,42598,42599); (42600,42600,42601); (42602,42602,42603);
   (42604,42604,42605); (42624,42624,42625); (42626,42626,42627);
   (42628,42628,42629); (42630,42630,42631); (42632,42632,42633);
   (42634,42634,42635); (42636,42636,42637); (42638,42638,42639);
   (42640,42640,42641); (42642,42642,42643); (42644,42644,42645);
   (42646,42646,42647); (42648,42648,42649); (42650,42650,42651);
   (42786,42786,42787); (42788,42788,42789); (42790,42790,42791);
   (42792,42792,42793); (42794,42794,42795); (42796,42796,42797);
   (42798,42798,42799); (42802,42802,42803); (42804,42804,42805);
   (42806,42806,42807); (42808,42808,42809); (42810,42810,42811);
   (42812,42812,42813); (42814,42814,42815); (42816,42816,42817);
   (42818,42818,42819); (42820,42820,42821); (42822,42822,42823);
   (42824,42824,42825); (42826,42826,42827); (42828,42828,42829);
   (42830,42830,42831); (42832,42832,42833); (42834,42834,42835);
   (42836,42836,42837); (42838,42838,42839); (42840,42840,42841);
   (42842,42842,42843); (42844,42844,42845); (42846,42846,42847);
   (42848,42848,42849); (42850,42850,42851); (42852,42852,42853);
   (42854,42854,42855); (42856,42856,42857); (42858,42858,42859);
   (42860,42860,42861); (42862,42862,42863); (42873,42873,42874);
   (42875,42875,42876); (42877,42877,7545); (42878,42878,42879);
   (42880,42880,42881); (42882,42882,42883); (42884,42884,42885);
   (42886,42886,42887); (42891,42891,42892); (42893,42893,613);
   (42896,42896,42897); (42898,42898,42899); (42902,42902,42903);
   (42904,42904,42905); (42906,42906,42907); (42908,42908,42909);
   (42910,42910,42911); (42912,42912,42913); (42914,42914,42915);
   (42916,42916,42917); (42918,42918,42919); (42920,42920,42921);
   (42922,42922,614); (42923,42923,604); (42924,42924,609); (42925,42925,620);
   (42926,42926,618); (42928,42928,670); (42929,42929,647); (42930,42930,669);
   (42931,42931,43859); (42932,42932,42933); (42934,42934,42935);
   (42936,42936,42937); (42938,42938,42939); (42940,42940,42941);
   (42942,42942,42943); (42944,42944,42945); (42946,42946,42947);
   (42948,42948,42900); (42949,42949,642); (42950,42950,7566);
   (42951,42951,42952); (42953,42953,42954); (42960,42960,42961);
   (42966,42966,42967); (42968,42968,42969); (42997,42997,42998);
   (65313,65338,65345); (66560,66599,66600); (66736,66771,66776);
   (66928,66938,66967); (66940,66954,66979); (66956,66962,66995);
   (66964,66965,67003); (68736,68786,68800); (71840,71871,71872);
   (93760,93791,93792); (125184,125217,125218)
  ]%N.

(** [\d] *)
Definition is_digit (c : N) : bool := in_ranges digit_ranges c.
(** [\w] *)
Definition is_word (c : N) : bool := in_ranges word_ranges c.

Definition is_cased (c : N) : bool := in_ranges cased_ranges c.
Definition is_case_ignorable (c : N) : bool := in_ranges case_ignorable_ranges c.

Arguments is_digit : simpl never.
Arguments is_word : simpl never.
Arguments is_cased : simpl never.
Arguments is_case_ignorable : simpl never.

(** [\s], and the characters removed by [str.strip()] and separating the
    tokens of [str.split()]: the code points for which [str.isspace] holds. *)
Definition is_space (c : N) : bool :=
  in_range 9 13 c || in_range 28 32 c || (c =? 133)%N || (c =? 160)%N
  || (c =? 5760)%N || in_range 8192 8202 c || (c =? 8232)%N || (c =? 8233)%N
  || (c =? 8239)%N || (c =? 8287)%N || (c =? 12288)%N.

(** The lower-case and upper-case forms of an ASCII character. *)
Definition lower_char (c : N) : N := if is_upper c then (c + 32)%N else c.
Definition upper_char (c : N) : N := if is_lower c then (c - 32)%N else c.

(** The lower-case form of a code point in [lower_runs]. *)
Fixpoint lower_lookup (runs : list (N * N * N)) (c : N) : N :=
  match runs with
  | [] => c
  | (lo, hi, target) :: runs' =>
      if (c <? lo)%N then c
      else if (c <=? hi)%N then (target + (c - lo))%N
      else lower_lookup runs' c
  end.

(** The full lower-case mapping of one code point; U+0130 alone maps to two
    code points. *)
Definition capital_i_dot : N := 304.
Definition lower_full (c : N) : text :=
  if (c =? capital_i_dot)%N then [105; 775]%N else [lower_lookup lower_runs c].

(** The capital sigma U+03A3 and its two lower-case forms. *)
Definition capital_sigma : N := 931.
Definition final_sigma : N := 962.
Definition small_sigma : N := 963.

Fixpoint skip_ignorable (t : text) : text :=
  match t with
  | c :: t' => if is_case_ignorable c then skip_ignorable t' else t
  | [] => []
  end.

(** A capital sigma is in final position when a cased character stands
    before it and none after it, case-ignorable characters skipped;
    [before] is the text before it, from right to left. *)
Definition in_final_position (before after : text) : bool :=
  match skip_ignorable before with
  | c :: _ => is_cased c
  | [] => false
  end &&
  match skip_ignorable after with
  | c :: _ => negb (is_cased c)
  | [] => true
  end.

Definition lower_at (before after : text) (c : N) : text :=
  if (c =? capital_sigma)%N
  then [if in_final_position before after then final_sigma else small_sigma]
  else lower_full c.

Fixpoint lower_from (before t : text) : text :=
  match t with
  | [] => []
  | c :: t' => lower_at before t' c ++ lower_from (c :: before) t'
  end.

(** [str.lower()] *)
Definition lower (t : text) : text := lower_from [] t.

(** [str.title()] on ASCII strings (the parser calls it on the keywords of
    its lexicon): a cased character is upper-cased when it follows an
    uncased one (or starts the string) and lower-cased otherwise. *)
Fixpoint title_from (prev_cased : bool) (t : text) : text :=
  match t with
  | [] => []
  | c :: t' =>
      if is_alpha c
      then (if prev_cased then lower_char c else upper_char c) :: title_from true t'
      else c :: title_from false t'
  end.

Definition title (t : text) : text := title_from false t.

(** [str.strip()] *)
Fixpoint lstrip (t : text) : text :=
  match t with
  | c :: t' => if is_space c then lstrip t' else t
  | [] => []
  end.

Definition rstrip (t : text) : text := rev (lstrip (rev t)).

Definition strip (t : text) : text := rstrip (lstrip t).

(** [len(text.split())]: the number of maximal runs of non-whitespace. *)
Fixpoint count_tokens (in_token : bool) (t : text) : nat :=
  match t with
  | [] => 0
  | c :: t' =>
      if is_space c then count_tokens false t'
      else (if in_token then 0 else 1) + count_tokens true t'
  end.

Definition word_count (t : text) : nat := count_tokens false t.

(** [prefix `isprefix` t] and the operator [needle in hay] on strings. *)
Fixpoint starts_with (p t : text) : bool :=
  match p, t with
  | [], _ => true
  | a :: p', b :: t' => (a =? b)%N && starts_with p' t'
  | _ :: _, [] => false
  end.

Fixpoint contains (needle hay : text) : bool :=
  starts_with needle hay ||
  match hay with
  | [] => false
  | _ :: hay' => contains needle hay'
  end.

(** [s.endswith(suffix)] *)
Definition endswith (s suffix : text) : bool :=
  starts_with (rev suffix) (rev s).

(** Python slicing [t[a:b]] (step 1): negative indices count from the end,
    and both bounds are clipped to the string. *)
Definition clip_index (len i : Z) : Z :=
  if (i <? 0)%Z then Z.max 0 (i + len) else Z.min i len.

Definition slice (t : text) (a b : Z) : text :=
  let len := Z.of_nat (length t) in
  let lo := clip_index len a in
  let hi := clip_index len b in
  take (Z.to_nat (hi - lo)) (drop (Z.to_nat lo) t).

(** Comparison of strings, code point by code point, as [sorted] uses it. *)
Fixpoint text_leb (a b : text) : bool :=
  match a, b with
  | [], _ => true
  | _ :: _, [] => false
  | x :: a', y :: b' => (x <? y)%N || ((x =? y)%N && text_leb a' b')
  end.

Definition text_le (a b : text) : Prop := text_leb a b = true.

End Chars.

Import Chars.

(** ** The fragment of [re] used by the parser *)

Module Re.

(** Patterns.  [Chr p] matches one character satisfying [p]; [Rep r lo hi g]
    is [r{lo,hi}] ([hi = None] for no upper bound), greedy when [g], lazy
    otherwise; [Group] is the capturing group 1 (no pattern of the source
    has more than one capturing group); [WordB] is [\b]. *)
Inductive regex :=
| Eps
| Chr (p : N → bool)
| Seq (r1 r2 : regex)
| Alt (r1 r2 : regex)
| Rep (r : regex) (lo : nat) (hi : option nat) (greedy : bool)
| Group (r : regex)
| WordB.

(** A matcher state: the current position and the span of group 1. *)
Definition mstate : Type := nat * option (nat * nat).

(** Repetition of [body], at most [budget] times.  The outcomes are listed
    in the order in which the backtracking matcher would try them. *)
Fixpoint rep (body : mstate → list mstate) (lo : nat) (greedy : bool)
    (budget : nat) (s : mstate) : list mstate :=
  match budget with
  | 0 => match lo with 0 => [s] | S _ => [] end
  | S b =>
      let more := body s ≫= rep body (pred lo) greedy b in
      match lo with
      | 0 => if greedy then more ++ [s] else s :: more
      | S _ => more
      end
  end.

Definition word_boundary (t : text) (i : nat) : bool :=
  let before := match i with 0 => false | S j => from_option is_word false (t !! j) end in
  let after := from_option is_word false (t !! i) in
  xorb before after.

(** [run t r s]: all the ways [r] matches [t] from state [s], in priority
    order (the head is the match the backtracking engine returns).  The
    unbounded repetitions of the source all repeat a character class, which
    consumes one character per iteration, so such a repetition iterates at
    most as many times as there are characters left. *)
Fixpoint run (t : text) (r : regex) (s : mstate) : list mstate :=
  match r with
  | Eps => [s]
  | Chr p =>
      match t !! s.1 with
      | Some c => if p c then [(S s.1, s.2)] else []
      | None => []
      end
  | Seq r1 r2 => run t r1 s ≫= run t r2
  | Alt r1 r2 => run t r1 s ++ run t r2 s
  | Rep r' lo hi greedy =>
      rep (run t r') lo greedy (from_option id (length t - s.1) hi) s
  | Group r' => (λ s', (s'.1, Some (s.1, s'.1))) <$> run t r' s
  | WordB => if word_boundary t s.1 then [s] else []
  end.

(** A match object: [start()], [end()] and the span of group 1. *)
Record rmatch := RMatch {
  m_start : nat;
  m_end : nat;
  m_cap : option (nat * nat)
}.

Definition span (t : text) (a b : nat) : text := take (b - a) (drop a t).

(** [m.group()] and [m.group(1)] ([None] when the group took no part). *)
Definition group0 (t : text) (m : rmatch) : text := span t (m_start m) (m_end m).
Definition group1 (t : text) (m : rmatch) : option text :=
  (λ c, span t c.1 c.2) <$> m_cap m.

(** The match starting exactly at [i], if any. *)
Definition match_at (t : text) (r : regex) (i : nat) : option rmatch :=
  (λ s, RMatch i s.1 s.2) <$> head (run t r (i, None)).

(** The candidate start positions of a scan: [0 .. len(t)]. *)
Definition starts (t : text) : list nat := seq 0 (S (length t)).

(** [re.search]: the match at the leftmost start position that has one. *)
Fixpoint search_in (t : text) (r : regex) (cands : list nat) : option rmatch :=
  match cands with
  | [] => None
  | i :: cands' =>
      match match_at t r i with
      | Some m => Some m
      | None => search_in t r cands'
      end
  end.

Definition search (r : regex) (t : text) : option rmatch :=
  search_in t r (starts t).

(** [re.finditer]: the scan resumes where the previous match ended (one
    character further after an empty match). *)
Fixpoint finditer_in (t : text) (r : regex) (cands : list nat) (next : nat)
    : list rmatch :=
  match cands with
  | [] => []
  | i :: cands' =>
      if i <? next then finditer_in t r cands' next
      else match match_at t r i with
           | Some m =>
               m :: finditer_in t r cands'
                      (if m_end m =? i then S i else m_end m)
           | None => finditer_in t r cands' next
           end
  end.

Definition finditer (r : regex) (t : text) : list rmatch :=
  finditer_in t r (starts t) 0.

(** [re.split] for a pattern without capturing groups: the pieces of [t]
    between consecutive matches. *)
Fixpoint split_at (t : text) (from : nat) (ms : list rmatch) : list text :=
  match ms with
  | [] => [drop from t]
  | m :: ms' => span t from (m_start m) :: split_at t (m_end m) ms'
  end.

Definition split (r : regex) (t : text) : list text :=
  split_at t 0 (finditer r t).

(** *** Pattern syntax *)

Definition chr (c : N) : regex := Chr (N.eqb c).
(** A literal ASCII character under [re.IGNORECASE] (the literals of the
    source's patterns are all ASCII): besides the two cases of a letter, 'i'
    matches U+0130 and U+0131, 'k' matches U+212A and 's' matches U+017F. *)
Definition ignorecase_extra (c : N) : list N :=
  if (c =? 105)%N then [304; 305]%N
  else if (c =? 107)%N then [8490]%N
  else if (c =? 115)%N then [383]%N
  else [].

Definition matches_ignorecase (c x : N) : bool :=
  (lower_char x =? lower_char c)%N || bool_decide (x ∈ ignorecase_extra (lower_char c)).

Definition chr_i (c : N) : regex := Chr (matches_ignorecase c).

Fixpoint seqs (rs : list regex) : regex :=
  match rs with
  | [] => Eps
  | [r] => r
  | r :: rs' => Seq r (seqs rs')
  end.

Fixpoint alts (rs : list regex) : regex :=
  match rs with
  | [] => Chr (λ _, false)
  | [r] => r
  | r :: rs' => Alt r (alts rs')
  end.

(** A literal string, case-sensitive ([lit]) or not ([lit_i]). *)
Definition lit (s : string) : regex := seqs (chr <$> cps s).
Definition lit_i (s : string) : regex := seqs (chr_i <$> cps s).

Definition opt (r : regex) : regex := Rep r 0 (Some 1) true.
Definition star (r : regex) : regex := Rep r 0 None true.
Definition plus (r : regex) : regex := Rep r 1 None true.
Definition plus_lazy (r : regex) : regex := Rep r 1 None false.
Definition times (n : nat) (r : regex) : regex := Rep r n (Some n) true.

Definition digit : regex := Chr is_digit.
Definition space : regex := Chr is_space.
Definition word : regex := Chr is_word.

End Re.

Import Re.

(** ** The parser *)

Module Parser.

(** *** Exceptions *)

(** An exception deriving from Python's [Exception], by class name. *)
Inductive exn := Exception (name : string).

(** The outcome of a computation that may raise. *)
Inductive io (A : Type) :=
| Ret (a : A)
| Raise (e : exn).
Arguments Ret {A} a.
Arguments Raise {A} e.

Definition bind {A B} (c : io A) (k : A → io B) : io B :=
  match c with
  | Ret a => k a
  | Raise e => Raise e
  end.

#[global] Instance io_ret : MRet io := @Ret.
#[global] Instance io_bind : MBind io := λ A B k c, bind c k.

(** [try: c  except Exception: handler] *)
Definition try_except {A} (c : io A) (handler : exn → A) : A :=
  match c with
  | Ret a => a
  | Raise e => handler e
  end.

(** *** Records returned by the parser *)

Record contact_info := ContactInfo {
  email : option text;
  phone : option text;
  linkedin : option text;
  github : option text
}.

Record education_entry := EducationEntry {
  degree : text;
  details : text
}.

Record experience_entry := ExperienceEntry {
  section_text : text;
  has_job_title : bool;
  company : option text
}.

Record parsed_resume := ParsedResume {
  raw_text : text;
  contact : contact_info;
  skills : list text;
  education : list education_entry;
  experience : list experience_entry;
  word_count : nat;
  parsed_successfully : bool
}.

(** An entity of [doc.ents]: [ent.text] and [ent.label_]. *)
Record entity := Entity {
  ent_text : text;
  ent_label : text
}.

(** *** Constants of the source *)

(** [self.skills_keywords]; a dict iterates in insertion order. *)
Definition skills_keywords : list (text * list text) :=
  [ (cps "programming", cps <$> ["python"; "java"; "javascript"; "c++"; "r"; "sql"; "c#"]%string);
    (cps "data", cps <$> ["pandas"; "numpy"; "tensorflow"; "pytorch"; "spark"; "hadoop"]%string);
    (cps "tools", cps <$> ["git"; "docker"; "kubernetes"; "jenkins"; "aws"; "azure"; "gcp"]%string);
    (cps "analytics", cps <$> ["tableau"; "power bi"; "excel"; "sas"; "stata"; "spss"]%string);
    (cps "databases", cps <$> ["mysql"; "postgresql"; "mongodb"; "redis"; "oracle"; "sqlite"]%string);
    (cps "methodologies", cps <$> ["agile"; "scrum"; "kanban"; "waterfall"; "devops"; "ci/cd"]%string) ].

Definition any_of (s : string) (c : N) : bool := bool_decide (c ∈ cps s).

(** [[A-Za-z0-9._%+-]], [[A-Za-z0-9.-]] and [[A-Z|a-z]] *)
Definition email_local (c : N) : bool :=
  is_alpha c || is_ascii_digit c || any_of "._%+-" c.
Definition email_domain (c : N) : bool :=
  is_alpha c || is_ascii_digit c || any_of ".-" c.
Definition email_tld (c : N) : bool := is_upper c || any_of "|" c || is_lower c.

(** [\b[A-Za-z0-9._%+-]+@[A-Za-z0-9.-]+\.[A-Z|a-z]{2,}\b] *)
Definition email_pattern : regex :=
  seqs [WordB; plus (Chr email_local); lit "@"; plus (Chr email_domain);
        lit "."; Rep (Chr email_tld) 2 None true; WordB].

(** [[-.\s]] *)
Definition phone_sep : regex := Chr (λ c, any_of "-." c || is_space c).

(** [\+?\d{1,3}[-.\s]?\(?\d{3}\)?[-.\s]?\d{3}[-.\s]?\d{4}],
    [\(\d{3}\)\s*\d{3}[-.\s]?\d{4}] and [\d{3}[-.\s]?\d{3}[-.\s]?\d{4}] *)
Definition phone_patterns : list regex :=
  [ seqs [opt (lit "+"); Rep digit 1 (Some 3) true; opt phone_sep;
          opt (lit "("); times 3 digit; opt (lit ")"); opt phone_sep;
          times 3 digit; opt phone_sep; times 4 digit];
    seqs [lit "("; times 3 digit; lit ")"; star space;
          times 3 digit; opt phone_sep; times 4 digit];
    seqs [times 3 digit; opt phone_sep; times 3 digit; opt phone_sep;
          times 4 digit] ].

(** [[\w-]] *)
Definition handle_char (c : N) : bool := is_word c || any_of "-" c.

(** [linkedin\.com/in/[\w-]+] and [github\.com/[\w-]+], with [re.IGNORECASE] *)
Definition linkedin_pattern : regex :=
  seqs [lit_i "linkedin.com/in/"; plus (Chr handle_char)].
Definition github_pattern : regex :=
  seqs [lit_i "github.com/"; plus (Chr handle_char)].

(** [[\w\s]] *)
Definition word_or_space (c : N) : bool := is_word c || is_space c.

(** [(?:of\s+)?] *)
Definition opt_of : regex := opt (seqs [lit_i "of"; plus space]).

(** [(Bachelor|Master|PhD|B\.S\.|M\.S\.|Ph\.D\.|BS|MS)\s+(?:of\s+)?(?:Science|Arts|Engineering|Computer Science|Business|in\s+[\w\s]+)]
    and [(Associate|Diploma)\s+(?:of\s+)?[\w\s]+], with [re.IGNORECASE] *)
Definition degree_patterns : list regex :=
  [ seqs [Group (alts (lit_i <$> ["Bachelor"; "Master"; "PhD"; "B.S."; "M.S.";
                                   "Ph.D."; "BS"; "MS"]%string));
          plus space; opt_of;
          alts ((lit_i <$> ["Science"; "Arts"; "Engineering"; "Computer Science";
                            "Business"]%string)
                ++ [seqs [lit_i "in"; plus space; plus (Chr word_or_space)]])];
    seqs [Group (alts (lit_i <$> ["Associate"; "Diploma"]%string));
          plus space; opt_of; plus (Chr word_or_space)] ].

(** [(Engineer|Analyst|Developer|Manager|Director|Specialist|Consultant|Coordinator)]
    and [(Senior|Junior|Lead|Principal|Staff|Chief)\s+\w+], with [re.IGNORECASE] *)
Definition job_title_patterns : list regex :=
  [ Group (alts (lit_i <$> ["Engineer"; "Analyst"; "Developer"; "Manager";
                            "Director"; "Specialist"; "Consultant";
                            "Coordinator"]%string));
    seqs [Group (alts (lit_i <$> ["Senior"; "Junior"; "Lead"; "Principal";
                                  "Staff"; "Chief"]%string));
          plus space; plus word] ].

(** [[\w\s&,.]] *)
Definition company_char (c : N) : bool := is_word c || is_space c || any_of "&,." c.

(** The bullet of [(?:\||•|\n|20\d{2})] is U+2022. *)
Definition bullet : N := 8226.
Definition newline : N := 10.

Definition company_end : regex :=
  alts [lit "|"; chr bullet; chr newline; seqs [lit "20"; times 2 digit]].

(** [at\s+([\w\s&,.]+?)(?:\||•|\n|20\d{2})], with [re.IGNORECASE] *)
Definition company_pattern : regex :=
  seqs [lit_i "at"; plus space; Group (plus_lazy (Chr company_char)); company_end].

(** [\n\s*\n] *)
Definition section_break : regex := seqs [chr newline; star space; chr newline].

(** [sorted(...)] on strings.  The list it receives here has no duplicates,
    so the sorted list is the same for every correct sorting algorithm. *)
#[global] Instance text_le_dec : RelDecision text_le := λ a b, decide (text_leb a b = true).

Definition sorted (l : list text) : list text := merge_sort text_le l.

Section Methods.

(** The entity recogniser loaded in [__init__]: [self.nlp(text).ents]. *)
Variable nlp : text → list entity.

(** The order in which the interpreter iterates over a [set] of strings, as
    [list(skills)] does: some arrangement of the elements, which depends on
    the string hashes and differs between processes. *)
Variable set_order : gset text → list text.

(** The file system.  [pdf_pages path] is [open(path, 'rb')] followed by
    [PyPDF2.PdfReader(file).pages]: it raises, or gives the pages in order,
    each with the outcome of its [extract_text()]. [read_text path] is
    [open(path, 'r', encoding='utf-8')] followed by [f.read()]. *)
Variable pdf_pages : text → io (list (io text)).
Variable read_text : text → io text.

(** The loop [for page in pdf_reader.pages: text += page.extract_text()]. *)
Fixpoint concat_pages (pages : list (io text)) (acc : text) : io text :=
  match pages with
  | [] => Ret acc
  | page :: pages' => s ← page; concat_pages pages' (acc ++ s)
  end.

(** The [try] block, and [except Exception] returning the empty string. *)
Definition extract_text_from_pdf (pdf_path : text) : text :=
  try_except (pages ← pdf_pages pdf_path; concat_pages pages [])
             (λ e, []).

(** The loop over [phone_patterns], left at the first pattern that matches. *)
Fixpoint first_search (patterns : list regex) (t : text) : option rmatch :=
  match patterns with
  | [] => None
  | pattern :: patterns' =>
      match search pattern t with
      | Some phone_match => Some phone_match
      | None => first_search patterns' t
      end
  end.

Definition extract_contact_info (t : text) : contact_info :=
  {| email := group0 t <$> search email_pattern t;
     phone := group0 t <$> first_search phone_patterns t;
     linkedin := group0 t <$> search linkedin_pattern t;
     github := group0 t <$> search github_pattern t |}.

(** [skills.add(x)] *)
Definition add (x : text) (s : gset text) : gset text := s ∪ {[x]}.

(** The loops over [self.skills_keywords.items()] and the keywords. *)
Definition keyword_pass (text_lower : text) (skills : gset text) : gset text :=
  foldl (λ skills '(category, keywords),
           foldl (λ skills keyword,
                    if contains keyword text_lower
                    then add (title keyword) skills else skills)
                 skills keywords)
        skills skills_keywords.

Definition skill_labels : list text := [cps "ORG"; cps "PRODUCT"].

(** The loop over [doc.ents]. *)
Definition entity_pass (ents : list entity) (skills : gset text) : gset text :=
  foldl (λ skills ent,
           if bool_decide (ent_label ent ∈ skill_labels) then
             let potential_skill := strip (ent_text ent) in
             if (2 <? length potential_skill) && (length potential_skill <? 30)
             then add potential_skill skills else skills
           else skills)
        skills ents.

Definition extract_skills (t : text) : list text :=
  let text_lower := lower t in
  let skills := keyword_pass text_lower ∅ in
  let skills := entity_pass (nlp t) skills in
  sorted (set_order skills).

Definition _extract_education_context (t : text) (start end_ : Z) : text :=
  let context_start := Z.max 0 (start - 200) in
  let context_end := Z.min (Z.of_nat (length t)) (end_ + 200) in
  let context := slice t context_start context_end in
  strip context.

Definition education_of (t : text) (m : rmatch) : education_entry :=
  {| degree := group0 t m;
     details := _extract_education_context t (Z.of_nat (m_start m))
                                            (Z.of_nat (m_end m)) |}.

Definition extract_education (t : text) : list education_entry :=
  pattern ← degree_patterns;
  education_of t <$> finditer pattern t.

(** The inner loop of [extract_experience] over [job_title_patterns]: the
    entries appended for one section ([break] after the first);
    [take 200 section] is [section[:200]]. *)
Fixpoint section_entries (patterns : list regex) (section : text)
    : list experience_entry :=
  match patterns with
  | [] => []
  | pattern :: patterns' =>
      match search pattern section with
      | Some _ =>
          let company_match := search company_pattern section in
          [ {| section_text := take 200 section;
               has_job_title := true;
               company := company_match ≫= group1 section |} ]
      | None => section_entries patterns' section
      end
  end.

(** [take 5 experience] is [experience[:5]]. *)
Definition extract_experience (t : text) : list experience_entry :=
  let sections := split section_break t in
  let experience := section ← sections; section_entries job_title_patterns section in
  take 5 experience.

(** The dictionary built by [parse] from the extracted text. *)
Definition parsed_data (t : text) : parsed_resume :=
  {| raw_text := t;
     contact := extract_contact_info t;
     skills := extract_skills t;
     education := extract_education t;
     experience := extract_experience t;
     word_count := Chars.word_count t;
     parsed_successfully := true |}.

Definition parse (file_path : text) : io parsed_resume :=
  t ← (if endswith file_path (cps ".pdf")
       then Ret (extract_text_from_pdf file_path)
       else read_text file_path);
  Ret (parsed_data t).

End Methods.

End Parser.

Import Parser.

(** * Vocabulary of the statements *)

(** ** Skills *)

(** [x] is the title-cased form of a lexicon keyword found in [text_lower]. *)
Definition keyword_hit (text_lower x : text) : Prop :=
  ∃ category keywords keyword,
    (category, keywords) ∈ skills_keywords ∧ keyword ∈ keywords ∧
    contains keyword text_lower = true ∧ x = title keyword.

(** The Kelvin sign U+212A, the dotless i U+0131 and the long s U+017F. *)
Definition kelvin_sign : N := 8490.
Definition dotless_i : N := 305.
Definition long_s : N := 383.

(** [x] stands for the character [k] of a keyword: [k] itself, its capital,
    or the Kelvin sign for 'k'. *)
Definition case_variant (x k : N) : Prop :=
  x = k ∨ x = upper_char k ∨ (x = kelvin_sign ∧ k = N_of_ascii "k").

(** [u] spells [keyword] in some mix of cases, character by character.  The
    dotted capital I (U+0130), whose lower-case form is 'i' and a combining
    dot, can stand for a final 'i'. *)
Definition spells (u keyword : text) : Prop :=
  Forall2 case_variant u keyword ∨
  ∃ u' keyword', u = u' ++ [capital_i_dot] ∧ keyword = keyword' ++ [N_of_ascii "i"] ∧
                 Forall2 case_variant u' keyword'.

(** [x] is the title-cased form of a lexicon keyword of which a spelling
    occurs in [t]. *)
Definition keyword_found (t x : text) : Prop :=
  ∃ category keywords keyword u pre post,
    (category, keywords) ∈ skills_keywords ∧ keyword ∈ keywords ∧
    t = pre ++ u ++ post ∧ spells u keyword ∧ x = title keyword.

(** The names under which the keywords of the lexicon are reported, in the
    order of the lexicon. *)
Definition skill_names : list text :=
  cps <$> ["Python"; "Java"; "Javascript"; "C++"; "R"; "Sql"; "C#"; "Pandas";
           "Numpy"; "Tensorflow"; "Pytorch"; "Spark"; "Hadoop"; "Git"; "Docker";
           "Kubernetes"; "Jenkins"; "Aws"; "Azure"; "Gcp"; "Tableau"; "Power Bi";
           "Excel"; "Sas"; "Stata"; "Spss"; "Mysql"; "Postgresql"; "Mongodb";
           "Redis"; "Oracle"; "Sqlite"; "Agile"; "Scrum"; "Kanban"; "Waterfall";
           "Devops"; "Ci/Cd"]%string.

(** A text of ASCII characters other than capitals, as the keywords are. *)
Definition plain (k : text) : Prop :=
  Forall (λ a, (a < 128)%N ∧ is_upper a = false) k.

(** [x] is a recognised organisation or product of acceptable length. *)
Definition entity_hit (ents : list entity) (x : text) : Prop :=
  ∃ ent, ent ∈ ents ∧ ent_label ent ∈ skill_labels ∧
         x = strip (ent_text ent) ∧ 2 < length x < 30.

(** The number of entries of [l] equal to [x]. *)
Definition occurrences (x : text) (l : list text) : nat :=
  length (filter (λ y, y = x) l).

(** ** Text acquisition *)

(** A failure of the PDF branch: opening or reading the document raises, or
    the text extraction of one of its pages does. *)
Definition pdf_failure (pdf_pages : text → io (list (io text))) (pdf_path : text)
    : Prop :=
  (∃ e, pdf_pages pdf_path = Raise e) ∨
  (∃ pages e, pdf_pages pdf_path = Ret pages ∧ Raise e ∈ pages).

(** A file system where no PDF can be opened and no text file read. *)
Definition no_pdf : text → io (list (io text)) := λ _, Raise (Exception "PdfReadError").

Definition no_file : text → io text := λ _, Raise (Exception "FileNotFoundError").

(** A recogniser that finds no entity. *)
Definition no_entities : text → list entity := λ _, [].

(** ** Matching *)

(** A matcher only moves forward, and stays inside the text. *)
Definition advances (t : text) (body : mstate → list mstate) : Prop :=
  ∀ s s', s' ∈ body s → s.1 ≤ s'.1 ∧ (s.1 ≤ length t → s'.1 ≤ length t).

(** Two consecutive matches of a scan: the second starts after the start of
    the first and not before its end. *)
Definition follows (x y : rmatch) : Prop :=
  m_start x < m_start y ∧ m_end x ≤ m_start y.

(** The characters of [t] at the positions [a .. b-1] all satisfy [p]. *)
Definition all_in (t : text) (p : N → bool) (a b : nat) : Prop :=
  ∀ k, a ≤ k < b → ∃ c, t !! k = Some c ∧ p c = true.

(** The character of [t] at position [k] satisfies [p]. *)
Definition char_at (t : text) (p : N → bool) (k : nat) : Prop :=
  ∃ c, t !! k = Some c ∧ p c = true.

(** ** Experience *)

(** The pieces of a split, put back around the separators. *)
Fixpoint weave (pieces separators : list text) : text :=
  match pieces, separators with
  | piece :: pieces', sep :: separators' => piece ++ sep ++ weave pieces' separators'
  | piece :: _, [] => piece
  | [], _ => []
  end.

(** A section qualifies when one of the job title patterns matches in it. *)
Definition qualifies (section : text) : bool :=
  existsb (λ pattern, bool_decide (is_Some (search pattern section)))
          job_title_patterns.

(** The entry of a qualifying section. *)
Definition experience_of (section : text) : experience_entry :=
  {| section_text := take 200 section;
     has_job_title := true;
     company := search company_pattern section ≫= group1 section |}.

(** What ends a company name at position [k]: a bar, a bullet, a line break,
    or "20" and two digits. *)
Definition company_terminator (t : text) (k : nat) : Prop :=
  t !! k = Some (N_of_ascii "|") ∨ t !! k = Some bullet ∨ t !! k = Some newline ∨
  (t !! k = Some (N_of_ascii "2") ∧ t !! (k + 1) = Some (N_of_ascii "0") ∧
   char_at t is_digit (k + 2) ∧ char_at t is_digit (k + 3)).

(** An occurrence of the company pattern: the letters "at" in either case
    at position [i], whitespace up to [j], then characters of a company name
    up to [k], where a terminator stands. *)
Definition company_occurrence (t : text) (i j k : nat) : Prop :=
  char_at t (λ c, (lower_char c =? N_of_ascii "a")%N) i ∧
  char_at t (λ c, (lower_char c =? N_of_ascii "t")%N) (i + 1) ∧
  i + 2 < j ∧ all_in t is_space (i + 2) j ∧
  j < k ∧ all_in t company_char j k ∧
  company_terminator t k.

(** The pattern the specification describes: the word "at", whitespace, a
    phrase that starts with a capital letter, and a terminator. *)
Definition capitalized_company_pattern : regex :=
  seqs [WordB; lit_i "at"; plus space;
        Group (Seq (Chr is_upper) (Rep (Chr company_char) 0 None false));
        company_end].

(** A section whose only "at" is followed by a phrase in lower case, and a
    section whose only "at" is the end of another word. *)
Definition lower_case_company : text := cps "Lead engineer at acme corp | 2019".
Definition at_inside_word : text := cps "Lead of format Acme|".

(** ** Education *)

(** The matches behind the entries of [extract_education], in the order in
    which the loops meet them, each with the index of its pattern. *)
Fixpoint tagged_matches (i : nat) (patterns : list regex) (t : text)
    : list (nat * rmatch) :=
  match patterns with
  | [] => []
  | pattern :: patterns' =>
      (pair i <$> finditer pattern t) ++ tagged_matches (S i) patterns' t
  end.

Definition education_matches (t : text) : list (nat * rmatch) :=
  tagged_matches 0 degree_patterns t.

(** The order the specification describes: by the position of the match,
    then by the index of the pattern. *)
Definition position_then_pattern (x y : nat * rmatch) : Prop :=
  m_start x.2 < m_start y.2 ∨ (m_start x.2 = m_start y.2 ∧ x.1 ≤ y.1).

(** The order of the nested loops: by the index of the pattern, then by the
    position of the match. *)
Definition pattern_then_position (x y : nat * rmatch) : Prop :=
  x.1 < y.1 ∨ (x.1 = y.1 ∧ m_start x.2 < m_start y.2).

(** The text on which the order of the entries is not the order of the
    matches in the text. *)
Definition diploma_then_ms : text := cps "Diploma in Art, MS in Math".

(** ** Languages of patterns *)

(** The words of [L] repeated [n] times. *)
Fixpoint rep_lang (L : text → Prop) (n : nat) (w : text) : Prop :=
  match n with
  | 0 => w = []
  | S n' => ∃ a b, w = a ++ b ∧ L a ∧ rep_lang L n' b
  end.

(** The language of a pattern: the strings it can match, whatever stands
    around them ([\b] and the group take no character). *)
Fixpoint lang (r : regex) (w : text) : Prop :=
  match r with
  | Eps => w = []
  | Chr p => ∃ c, w = [c] ∧ p c = true
  | Seq r1 r2 => ∃ a b, w = a ++ b ∧ lang r1 a ∧ lang r2 b
  | Alt r1 r2 => lang r1 w ∨ lang r2 w
  | Rep r' lo hi _ =>
      ∃ n, lo ≤ n ∧ (∀ h, hi = Some h → n ≤ h) ∧ rep_lang (lang r') n w
  | Group r' => lang r' w
  | WordB => w = []
  end.

(** [body] only produces strings of [L]. *)
Definition sound (t : text) (L : text → Prop) (body : mstate → list mstate) : Prop :=
  ∀ s s', s' ∈ body s → s.1 ≤ length t → L (span t s.1 s'.1).

(** The number of characters of [w] that satisfy [q]. *)
Fixpoint count (q : N → bool) (w : text) : nat :=
  match w with
  | [] => 0
  | c :: w' => (if q c then 1 else 0) + count q w'
  end.

(** [at_least q r n]: every string matched by [r] has at least [n]
    characters that satisfy [q]. *)
Inductive at_least (q : N → bool) : regex → nat → Prop :=
| at_least_chr p : (∀ c, p c = true → q c = true) → at_least q (Chr p) 1
| at_least_seq r1 r2 n1 n2 :
    at_least q r1 n1 → at_least q r2 n2 → at_least q (Seq r1 r2) (n1 + n2)
| at_least_alt r1 r2 n1 n2 :
    at_least q r1 n1 → at_least q r2 n2 → at_least q (Alt r1 r2) (min n1 n2)
| at_least_rep r lo hi greedy n :
    at_least q r n → at_least q (Rep r lo hi greedy) (lo * n)
| at_least_group r n : at_least q r n → at_least q (Group r) n
| at_least_zero r : at_least q r 0.

(** [within q r]: every character matched by [r] satisfies [q]. *)
Inductive within (q : N → bool) : regex → Prop :=
| within_eps : within q Eps
| within_chr p : (∀ c, p c = true → q c = true) → within q (Chr p)
| within_seq r1 r2 : within q r1 → within q r2 → within q (Seq r1 r2)
| within_alt r1 r2 : within q r1 → within q r2 → within q (Alt r1 r2)
| within_rep r lo hi greedy : within q r → within q (Rep r lo hi greedy)
| within_group r : within q r → within q (Group r)
| within_wordb : within q WordB.

(** No match of [r] starts at the positions [a .. b-1] of [t]. *)
Definition quiet (t : text) (r : regex) (a b : nat) : Prop :=
  ∀ k, a ≤ k < b → match_at t r k = None.

(** A section break at position [i]: a line break, whitespace up to [j],
    and a second line break. *)
Definition break_at (t : text) (i j : nat) : Prop :=
  t !! i = Some newline ∧ i < j ∧ all_in t is_space (S i) j ∧ t !! j = Some newline.

(** ** Shapes of the extracted fields *)

(** [v] occurs in [t]. *)
Definition occurs_in (v t : text) : Prop := ∃ pre post, t = pre ++ v ++ post.

(** The characters a telephone number can be made of. *)
Definition phone_char (c : N) : bool := is_digit c || any_of "+()-." c || is_space c.

(** [x] is the letter [c] of a pattern (in lower case) as [re.IGNORECASE]
    accepts it: [c] itself, its capital, or one of the characters whose case
    folding is [c]. *)
Definition letter_variant (c x : N) : Prop :=
  x = c ∨ x = upper_char c ∨
  (c = N_of_ascii "i" ∧ (x = capital_i_dot ∨ x = dotless_i)) ∨
  (c = N_of_ascii "k" ∧ x = kelvin_sign) ∨
  (c = N_of_ascii "s" ∧ x = long_s).

(** The words a degree text can begin with, in lower case. *)
Definition degree_words : list text :=
  cps <$> ["bachelor"; "master"; "phd"; "b.s."; "m.s."; "ph.d."; "bs"; "ms";
           "associate"; "diploma"]%string.

(** A text made of whitespace only (the empty text is one). *)
Definition blank (t : text) : Prop := Forall (λ c, is_space c = true) t.

(** The characters other than whitespace: every pattern and keyword of the
    parser needs one at least. *)
Definition is_mark (c : N) : bool := negb (is_space c).

(** The code points of whitespace. *)
Definition whitespace : list N :=
  [9; 10; 11; 12; 13; 28; 29; 30; 31; 32; 133; 160; 5760; 8192; 8193; 8194;
   8195; 8196; 8197; 8198; 8199; 8200; 8201; 8202; 8232; 8233; 8239; 8287;
   12288]%N.

(** A recogniser that finds one organisation, and a file system whose only
    PDF has two pages. *)
Definition one_entity : text → list entity :=
  λ _, [Entity (cps " Tech Corp ") (cps "ORG")].
Definition two_pages : text → io (list (io text)) :=
  λ _, Ret [Ret (cps "Senior Engineer"); Ret (cps " at Tech Corp|")].

(** * Properties *)

(** ** Strings *)

Section text_order.

Lemma text_leb_refl (a : text) : text_leb a a = true.
Proof.
  induction a as [|x a IH]; simpl; [done| ].
  rewrite N.eqb_refl, IH. by rewrite orb_true_r.
Qed.

Lemma text_leb_total (a b : text) : text_leb a b = true ∨ text_leb b a = true.
Proof.
  revert b. induction a as [|x a IH]; intros [|y b]; simpl; auto.
  destruct (N.compare_spec x y) as [->|Hlt|Hgt].
  - rewrite N.eqb_refl, N.ltb_irrefl. simpl. apply IH.
  - left. apply N.ltb_lt in Hlt. by rewrite Hlt.
  - right. apply N.ltb_lt in Hgt. by rewrite Hgt.
Qed.

Lemma text_leb_trans (a b c : text) :
  text_leb a b = true → text_leb b c = true → text_leb a c = true.
Proof.
  revert b c. induction a as [|x a IH]; intros [|y b] [|z c]; simpl; try done.
  rewrite !orb_true_iff, !andb_true_iff, !N.ltb_lt, !N.eqb_eq.
  intros [Hxy|[-> Hab]] [Hyz|[-> Hbc]]; try (left; lia).
  right. split; [done| ]. by eapply IH.
Qed.

Lemma text_leb_antisym (a b : text) :
  text_leb a b = true → text_leb b a = true → a = b.
Proof.
  revert b. induction a as [|x a IH]; intros [|y b]; simpl; try done.
  rewrite !orb_true_iff, !andb_true_iff, !N.ltb_lt, !N.eqb_eq.
  intros [Hxy|[-> Hab]] [Hyx|[Heq Hba]]; try lia.
  f_equal. by apply IH.
Qed.

#[global] Instance text_le_total : Total text_le.
Proof. intros a b. apply text_leb_total. Qed.

#[global] Instance text_le_trans : Transitive text_le.
Proof. intros a b c. apply text_leb_trans. Qed.

#[global] Instance text_le_antisym : AntiSymm (=) text_le.
Proof. intros a b. apply text_leb_antisym. Qed.

(** [sorted] gives the one ascending arrangement of its argument. *)
Lemma sorted_Sorted (l : list text) : Sorted text_le (sorted l).
Proof. apply Sorted_merge_sort, _. Qed.

Lemma sorted_Permutation (l : list text) : sorted l ≡ₚ l.
Proof. apply merge_sort_Permutation. Qed.

Lemma elem_of_sorted (l : list text) (x : text) : x ∈ sorted l ↔ x ∈ l.
Proof. by rewrite sorted_Permutation. Qed.

Lemma sorted_order_irrelevant (l k : list text) : l ≡ₚ k → sorted l = sorted k.
Proof.
  intros Hlk. apply (Sorted_unique text_le); try apply sorted_Sorted.
  by rewrite !sorted_Permutation.
Qed.

(** Any ascending arrangement of [l] is [sorted l]: the result of [sorted]
    does not depend on the sorting algorithm. *)
Lemma sorted_unique (l l' : list text) :
  Sorted text_le l' → l' ≡ₚ l → l' = sorted l.
Proof.
  intros Hsorted Hperm. apply (Sorted_unique text_le); [done|apply sorted_Sorted| ].
  by rewrite sorted_Permutation.
Qed.

End text_order.

(** ** Substrings *)

Section substrings.

Lemma starts_with_spec (p t : text) :
  starts_with p t = true ↔ ∃ rest, t = p ++ rest.
Proof.
  revert t. induction p as [|a p IH]; intros t; simpl.
  - split; [by exists t|done].
  - destruct t as [|b t].
    + split; [done| ]. by intros [rest ?].
    + rewrite andb_true_iff, N.eqb_eq, IH. split.
      * intros [-> [rest ->]]. by exists rest.
      * intros [rest [= -> ->]]. split; [done| ]. by exists rest.
Qed.

Lemma contains_spec (needle hay : text) :
  contains needle hay = true ↔ ∃ pre post, hay = pre ++ needle ++ post.
Proof.
  induction hay as [|c hay IH].
  - simpl. rewrite orb_false_r, starts_with_spec. split.
    + intros [rest ->]. by exists [], rest.
    + intros [pre [post Heq]]. symmetry in Heq.
      apply app_eq_nil in Heq as [-> Heq]. exists post. by simpl in *.
  - cbn [contains]. rewrite orb_true_iff, starts_with_spec, IH. split.
    + intros [[rest ->]|[pre [post ->]]].
      * by exists [], rest.
      * by exists (c :: pre), post.
    + intros [[|c' pre] [post Heq]]; simpl in Heq.
      * left. by exists post.
      * right. injection Heq as -> ->. by exists pre, post.
Qed.

End substrings.

(** ** Lower-casing *)

Section lower_facts.

(** A property checked on every code point below [n]. *)
Lemma N_below (P : N → bool) (n : nat) :
  forallb P (N.of_nat <$> seq 0 n) = true → ∀ c, (c < N.of_nat n)%N → P c = true.
Proof.
  intros Hall c Hc. rewrite forallb_forall in Hall. apply Hall.
  apply list_elem_of_In, list_elem_of_fmap. exists (N.to_nat c). split; [lia| ].
  apply elem_of_seq. lia.
Qed.

Lemma lower_lookup_cases (runs : list (N * N * N)) (c : N) :
  lower_lookup runs c = c ∨
  ∃ lo hi target, (lo, hi, target) ∈ runs ∧ (lo ≤ c ≤ hi)%N ∧
                  lower_lookup runs c = (target + (c - lo))%N.
Proof.
  induction runs as [|[[lo hi] target] runs IH]; simpl; [by left| ].
  destruct (N.ltb_spec c lo); [by left| ].
  destruct (N.leb_spec c hi).
  - right. exists lo, hi, target. split; [left| ]. split; [lia|done].
  - destruct IH as [?|(lo' & hi' & tg' & ? & ? & ?)]; [by left| ].
    right. exists lo', hi', tg'. split; [by right|done].
Qed.

(** The only code points with an ASCII lower-case form are the ASCII ones
    and the Kelvin sign. *)
Lemma lower_lookup_ascii (c a : N) :
  (a < 128)%N → lower_lookup lower_runs c = a →
  (c < 128)%N ∨ (c = kelvin_sign ∧ a = N_of_ascii "k").
Proof.
  intros Ha Heq.
  destruct (lower_lookup_cases lower_runs c) as [Hc|(lo & hi & tg & Hin & Hr & Hc)].
  { left. congruence. }
  assert (forallb (λ '(lo, hi, tg),
            (128 <=? tg) || (hi <? 128) || ((lo =? 8490) && (hi =? 8490) && (tg =? 107)))%N
            lower_runs = true) as Hall by (vm_compute; reflexivity).
  rewrite forallb_forall in Hall. apply list_elem_of_In, Hall in Hin.
  rewrite !orb_true_iff, !andb_true_iff, N.leb_le, N.ltb_lt, !N.eqb_eq in Hin.
  destruct Hin as [[?|?]|[[-> ->] ->]]; [lia|left; lia| ].
  right. unfold kelvin_sign. split; [lia| ]. rewrite <- Heq, Hc.
  replace c with 8490%N by lia. reflexivity.
Qed.

Lemma lower_lookup_below (c : N) :
  (c < 128)%N → lower_lookup lower_runs c = lower_char c.
Proof.
  intros Hc. apply N.eqb_eq.
  apply (N_below (λ c, lower_lookup lower_runs c =? lower_char c)%N 128);
    [vm_compute; reflexivity|exact Hc].
Qed.

Lemma lower_char_variant (c a : N) :
  is_upper a = false → lower_char c = a ↔ c = a ∨ c = upper_char a.
Proof.
  unfold lower_char, upper_char, is_upper, is_lower, in_range.
  destruct (N.leb_spec 65 a), (N.leb_spec a 90), (N.leb_spec 65 c), (N.leb_spec c 90),
    (N.leb_spec 97 a), (N.leb_spec a 122); cbn [andb]; intros ?; try done; lia.
Qed.

Lemma upper_char_le (a : N) : (upper_char a ≤ a)%N.
Proof. unfold upper_char. destruct (is_lower a); lia. Qed.

(** The code points whose lower-case form is a given ASCII character other
    than a capital. *)
Lemma lower_lookup_plain (c a : N) :
  (a < 128)%N → is_upper a = false →
  lower_lookup lower_runs c = a ↔ case_variant c a.
Proof.
  intros Ha Hup. unfold case_variant. split.
  - intros Heq. destruct (lower_lookup_ascii c a Ha Heq) as [Hc|[-> ->]]; [|auto].
    rewrite lower_lookup_below in Heq by done.
    apply lower_char_variant in Heq; [tauto|done].
  - intros [Hc|[Hc|[-> ->]]]; [| |vm_compute; reflexivity];
      (rewrite lower_lookup_below; [apply lower_char_variant; by auto| ]).
    + by subst.
    + pose proof (upper_char_le a). subst. lia.
Qed.

Lemma case_variant_below (x a : N) :
  (a < 128)%N → case_variant x a → (x < 128)%N ∨ x = kelvin_sign.
Proof.
  intros Ha [->|[->|[-> _]]]; [by left| |by right].
  left. pose proof (upper_char_le a). lia.
Qed.

Lemma lower_at_cases (before after : text) (c : N) :
  (c = capital_sigma ∧
   (lower_at before after c = [final_sigma] ∨ lower_at before after c = [small_sigma])) ∨
  (c = capital_i_dot ∧ lower_at before after c = [105; 775]%N) ∨
  (c ≠ capital_sigma ∧ c ≠ capital_i_dot ∧
   lower_at before after c = [lower_lookup lower_runs c]).
Proof.
  unfold lower_at, lower_full.
  destruct (N.eqb_spec c capital_sigma) as [->|Hs].
  - left. split; [done| ]. destruct (in_final_position before after); auto.
  - right. destruct (N.eqb_spec c capital_i_dot) as [->|Hi]; [by left|by right].
Qed.

Lemma spells_nil (k : text) : spells [] k ↔ k = [].
Proof.
  split.
  - intros [?%Forall2_nil_inv_l|(u & k' & Hu & _)]; [done| ].
    by destruct u.
  - intros ->. left. constructor.
Qed.

Lemma spells_cons (x a : N) (u k : text) :
  spells (x :: u) (a :: k)
  ↔ (case_variant x a ∧ spells u k) ∨
    (x = capital_i_dot ∧ a = N_of_ascii "i" ∧ u = [] ∧ k = []).
Proof.
  split.
  - intros [[? ?]%Forall2_cons|(u' & k' & Hu & Hk & Hall)].
    { left. split; [done|by left]. }
    destruct Hall as [|y b u' k' Hy Hall].
    + right. simpl in *. by injection Hu as -> ->; injection Hk as -> ->.
    + left. simpl in *. injection Hu as -> ->; injection Hk as -> ->.
      split; [done| ]. right. by exists u', k'.
  - intros [[Hx [Hall|(u' & k' & -> & -> & Hall)]]|(-> & -> & -> & ->)].
    + left. by constructor.
    + right. exists (x :: u'), (a :: k'). repeat split; by try constructor.
    + right. exists [], []. repeat split; constructor.
Qed.

Lemma spells_prefix_cons (c a : N) (t k : text) :
  (∃ u post, c :: t = u ++ post ∧ spells u (a :: k))
  ↔ (case_variant c a ∧ ∃ u post, t = u ++ post ∧ spells u k) ∨
    (c = capital_i_dot ∧ a = N_of_ascii "i" ∧ k = []).
Proof.
  split.
  - intros ([|x u] & post & Heq & Hsp); [by apply spells_nil in Hsp| ].
    simpl in Heq. injection Heq as <- ->.
    apply spells_cons in Hsp as [[? ?]|(-> & -> & -> & ->)]; [|by right].
    left. split; [done| ]. by exists u, post.
  - intros [[Hc (u & post & -> & Hsp)]|(-> & -> & ->)].
    + exists (c :: u), post. split; [done| ]. apply spells_cons. by left.
    + exists [capital_i_dot], t. split; [done| ]. apply spells_cons. by right.
Qed.

(** A keyword in lower-case ASCII begins the lower-cased text exactly when
    one of its spellings begins the text. *)
Lemma starts_with_lower_from (k : text) :
  plain k → ∀ before t,
  starts_with k (lower_from before t) = true ↔ ∃ u post, t = u ++ post ∧ spells u k.
Proof.
  induction 1 as [|a k [Ha Hup] Hk IH]; intros before t.
  { split; [|done]. intros _. exists [], t. split; [done| ]. by apply spells_nil. }
  destruct t as [|c t].
  { split; [done| ]. intros (u & post & Heq & Hsp). symmetry in Heq.
    apply app_eq_nil in Heq as [-> _]. by apply spells_nil in Hsp. }
  rewrite spells_prefix_cons. cbn [lower_from].
  assert (¬ case_variant capital_sigma a) as Hsigma.
  { intros [?|?]%(case_variant_below _ _ Ha); unfold capital_sigma, kelvin_sign in *; lia. }
  assert (¬ case_variant capital_i_dot a) as Hidot.
  { intros [?|?]%(case_variant_below _ _ Ha); unfold capital_i_dot, kelvin_sign in *; lia. }
  destruct (lower_at_cases before t c) as [(-> & [-> | ->])|[(-> & ->)|(Hns & Hni & ->)]];
    cbn [app starts_with].
  - destruct (N.eqb_spec a final_sigma) as [->|_]; [unfold final_sigma in Ha; lia| ].
    cbn [andb]. split; [done| ]. intros [[? _]|(? & _)]; done.
  - destruct (N.eqb_spec a small_sigma) as [->|_]; [unfold small_sigma in Ha; lia| ].
    cbn [andb]. split; [done| ]. intros [[? _]|(? & _)]; done.
  - rewrite andb_true_iff, N.eqb_eq. split.
    + intros [-> Hrest]. right. split; [done| ]. split; [done| ].
      destruct Hk as [|b k [Hb _] _]; [done| ]. cbn [starts_with] in Hrest.
      apply andb_true_iff in Hrest as [->%N.eqb_eq _]. lia.
    + intros [[? _]|(_ & -> & ->)]; done.
  - rewrite andb_true_iff, N.eqb_eq, IH. split.
    + intros [Heq ?]. left. split; [|done]. by apply lower_lookup_plain.
    + intros [[Hc ?]|(? & _)]; [|done]. split; [|done].
      symmetry. by apply lower_lookup_plain.
Qed.

Lemma contains_nil (hay : text) : contains [] hay = true.
Proof. by destruct hay. Qed.

(** The test [keyword in text.lower()], for a keyword in lower-case ASCII:
    one of the spellings of the keyword occurs in the text. *)
Lemma contains_lower_from (k : text) :
  plain k → ∀ before t,
  contains k (lower_from before t) = true
  ↔ ∃ pre u post, t = pre ++ u ++ post ∧ spells u k.
Proof.
  intros Hk before t. revert before. induction t as [|c t IH]; intros before.
  - change (lower_from before []) with (@nil N). cbn [contains].
    rewrite orb_false_r.
    change (@nil N) with (lower_from before []) at 1.
    rewrite (starts_with_lower_from k Hk). split.
    + intros (u & post & ? & ?). by exists [], u, post.
    + intros (pre & u & post & Heq & ?). symmetry in Heq.
      apply app_eq_nil in Heq as [-> Heq]. by exists u, post.
  - transitivity (starts_with k (lower_from before (c :: t)) = true ∨
                  contains k (lower_from (c :: before) t) = true).
    + cbn [lower_from].
      destruct (lower_at_cases before t c) as [(_ & [-> | ->])|[(_ & ->)|(_ & _ & ->)]];
        cbn [app contains]; rewrite ?orb_true_iff; try tauto.
      split; [|tauto]. intros [?|[Hmid|?]]; [tauto| |tauto]. right.
      destruct Hk as [|b k [Hb _] _]; [apply contains_nil| ].
      cbn [starts_with] in Hmid. apply andb_true_iff in Hmid as [->%N.eqb_eq _]. lia.
    + rewrite (starts_with_lower_from k Hk), IH. split.
      * intros [(u & post & ? & ?)|(pre & u & post & -> & ?)].
        -- by exists [], u, post.
        -- by exists (c :: pre), u, post.
      * intros ([|x pre] & u & post & Heq & ?).
        -- left. by exists u, post.
        -- right. simpl in Heq. injection Heq as <- ->. by exists pre, u, post.
Qed.

Lemma contains_lower (k t : text) :
  plain k →
  contains k (lower t) = true ↔ ∃ pre u post, t = pre ++ u ++ post ∧ spells u k.
Proof. intros Hk. by apply contains_lower_from. Qed.

Lemma lexicon_plain (category : text) (keywords : list text) (keyword : text) :
  (category, keywords) ∈ skills_keywords → keyword ∈ keywords → plain keyword.
Proof.
  intros Hc Hk.
  assert (forallb (forallb (λ a, (a <? 128)%N && negb (is_upper a)))
                  (skills_keywords ≫= snd) = true) as Hall by (vm_compute; reflexivity).
  rewrite forallb_forall in Hall.
  assert (keyword ∈ skills_keywords ≫= snd) as Hin.
  { apply list_elem_of_bind. by exists (category, keywords). }
  apply list_elem_of_In, Hall in Hin. rewrite forallb_forall in Hin.
  apply Forall_forall. intros a Ha%list_elem_of_In%Hin.
  apply andb_true_iff in Ha as [?%N.ltb_lt ?%negb_true_iff]. done.
Qed.

End lower_facts.


(** ** Skills *)

Section skills.

Variable nlp : text → list entity.
Variable set_order : gset text → list text.
(** [list(skills)] lists every element of the set once, in some order. *)
Hypothesis set_order_perm : ∀ s, set_order s ≡ₚ elements s.

Lemma elem_of_add (x y : text) (s : gset text) : x ∈ add y s ↔ x ∈ s ∨ x = y.
Proof. unfold add. set_solver. Qed.

Lemma elem_of_keywords_fold (tl : text) (keywords : list text) (s : gset text)
    (x : text) :
  x ∈ foldl (λ skills keyword,
               if contains keyword tl then add (title keyword) skills else skills)
            s keywords
  ↔ x ∈ s ∨ ∃ keyword, keyword ∈ keywords ∧ contains keyword tl = true ∧ x = title keyword.
Proof.
  revert s. induction keywords as [|k keywords IH]; intros s; simpl.
  - split; [auto| ]. intros [?|(? & []%elem_of_nil & _)]. done.
  - rewrite IH. destruct (contains k tl) eqn:Hk.
    + rewrite elem_of_add. split.
      * intros [[?| ->]|(k' & ? & ? & ->)]; [by left| | ].
        -- right. exists k. split; [left|done].
        -- right. exists k'. split; [by right|done].
      * intros [?|(k' & [->|?]%elem_of_cons & ? & ->)]; [by left;left|by left;right| ].
        right. by exists k'.
    + split.
      * intros [?|(k' & ? & ? & ->)]; [by left| ]. right. exists k'. split; [by right|done].
      * intros [?|(k' & [->|?]%elem_of_cons & ? & ->)]; [by left|congruence| ].
        right. by exists k'.
Qed.

Lemma elem_of_keyword_fold_lexicon (tl : text) (lexicon : list (text * list text))
    (s : gset text) (x : text) :
  x ∈ foldl (λ skills '(category, keywords),
               foldl (λ skills keyword,
                        if contains keyword tl
                        then add (title keyword) skills else skills)
                     skills keywords)
            s lexicon
  ↔ x ∈ s ∨ ∃ (category : text) keywords keyword,
              (category, keywords) ∈ lexicon ∧ keyword ∈ keywords ∧
              contains keyword tl = true ∧ x = title keyword.
Proof.
  revert s. induction lexicon as [|[c kws] lexicon IH]; intros s; simpl.
  - split; [auto| ]. intros [?|(? & ? & ? & []%elem_of_nil & _)]. done.
  - rewrite IH, elem_of_keywords_fold. split.
    + intros [[?|(k & ? & ? & ->)]|(c' & kws' & k & ? & ? & ? & ->)].
      * by left.
      * right. exists c, kws, k. split; [left|done].
      * right. exists c', kws', k. split; [by right|done].
    + intros [?|(c' & kws' & k & [[= -> ->]|?]%elem_of_cons & ? & ? & ->)].
      * by left; left.
      * left; right. by exists k.
      * right. by exists c', kws', k.
Qed.

Lemma elem_of_keyword_pass (tl : text) (s : gset text) (x : text) :
  x ∈ keyword_pass tl s ↔ x ∈ s ∨ keyword_hit tl x.
Proof. apply elem_of_keyword_fold_lexicon. Qed.

Lemma elem_of_entity_pass (ents : list entity) (s : gset text) (x : text) :
  x ∈ entity_pass ents s ↔ x ∈ s ∨ entity_hit ents x.
Proof.
  unfold entity_pass, entity_hit. revert s.
  induction ents as [|ent ents IH]; intros s; simpl.
  - split; [auto| ]. intros [?|(? & []%elem_of_nil & _)]. done.
  - rewrite IH. clear IH. split.
    + intros [Hx|(e & ? & ?)]; [|right; exists e; split; [by right|done]].
      case_bool_decide as Hl; [|by left].
      destruct (_ && _) eqn:Hlen; [|by left].
      apply elem_of_add in Hx as [?| ->]; [by left| ]. right. exists ent.
      apply andb_true_iff in Hlen as [?%Nat.ltb_lt ?%Nat.ltb_lt].
      split; [left|done].
    + intros [?|(e & [->|?]%elem_of_cons & Hl & -> & Hlen)].
      * left. case_bool_decide; [|done]. destruct (_ && _); [|done].
        apply elem_of_add. by left.
      * left. rewrite bool_decide_eq_true_2 by done.
        destruct Hlen as [?%Nat.ltb_lt ?%Nat.ltb_lt].
        rewrite andb_true_intro by done. apply elem_of_add. by right.
      * right. by exists e.
Qed.

Lemma elem_of_extract_skills (t x : text) :
  x ∈ extract_skills nlp set_order t
  ↔ keyword_hit (lower t) x ∨ entity_hit (nlp t) x.
Proof.
  unfold extract_skills. cbv zeta.
  rewrite elem_of_sorted, set_order_perm, elem_of_elements.
  rewrite elem_of_entity_pass, elem_of_keyword_pass.
  pose proof (not_elem_of_empty (C:=gset text) x). tauto.
Qed.

Lemma NoDup_extract_skills (t : text) : NoDup (extract_skills nlp set_order t).
Proof.
  unfold extract_skills. cbv zeta.
  rewrite sorted_Permutation, set_order_perm. apply NoDup_elements.
Qed.

Lemma occurrences_NoDup (x : text) (l : list text) :
  NoDup l → x ∈ l → occurrences x l = 1.
Proof.
  unfold occurrences. induction 1 as [|y l Hy Hl IH]; [by intros ?%elem_of_nil| ].
  intros Hx. rewrite filter_cons. destruct (decide (y = x)) as [->|Hne].
  - simpl. f_equal. destruct (filter _ l) as [|z k] eqn:Hf; [done| ].
    assert (z ∈ z :: k) as Hz by left.
    rewrite <- Hf in Hz. by apply list_elem_of_filter in Hz as [-> ?].
  - apply IH. apply elem_of_cons in Hx as [->|?]; done.
Qed.

Lemma aws_in_lexicon :
  (cps "tools", cps <$> ["git"; "docker"; "kubernetes"; "jenkins"; "aws"; "azure"; "gcp"]%string)
    ∈ skills_keywords ∧
  cps "aws" ∈ cps <$> ["git"; "docker"; "kubernetes"; "jenkins"; "aws"; "azure"; "gcp"]%string.
Proof. split; [unfold skills_keywords| ]; set_solver. Qed.

Lemma r_in_lexicon :
  (cps "programming", cps <$> ["python"; "java"; "javascript"; "c++"; "r"; "sql"; "c#"]%string)
    ∈ skills_keywords ∧
  cps "r" ∈ cps <$> ["python"; "java"; "javascript"; "c++"; "r"; "sql"; "c#"]%string.
Proof. split; [unfold skills_keywords| ]; set_solver. Qed.

(** The lexicon test does not see the case of the text: a keyword is found
    in the lower-cased text exactly when one of its spellings occurs in the
    text. *)
Lemma keyword_found_hit (t x : text) : keyword_found t x ↔ keyword_hit (lower t) x.
Proof.
  unfold keyword_found, keyword_hit. split.
  - intros (category & keywords & keyword & u & pre & post & Hc & Hk & Ht & Hu & ->).
    exists category, keywords, keyword. repeat split; try done.
    apply contains_lower; [by eapply lexicon_plain| ]. by exists pre, u, post.
  - intros (category & keywords & keyword & Hc & Hk & Hin & ->).
    apply contains_lower in Hin as (pre & u & post & ? & ?); [|by eapply lexicon_plain].
    by exists category, keywords, keyword, u, pre, post.
Qed.

Lemma spelling_found (t category : text) (keywords : list text)
    (keyword u pre post : text) :
  (category, keywords) ∈ skills_keywords → keyword ∈ keywords →
  t = pre ++ u ++ post → Forall2 case_variant u keyword →
  title keyword ∈ extract_skills nlp set_order t.
Proof.
  intros Hc Hk Ht Hu. apply elem_of_extract_skills. left. apply keyword_found_hit.
  exists category, keywords, keyword, u, pre, post. repeat split; try done. by left.
Qed.

(** C1. The skills extractor matches the lexicon keywords without regard to
    the case of the text: a keyword is a hit exactly when one of its
    spellings (each character as in the lexicon or as a capital) occurs in
    the text, which is when the keyword occurs in the lower-cased text.  Each
    hit is added in title-cased form ("Power Bi", "Ci/Cd", "C++", ...); the
    result has no duplicates, is in ascending order of the strings, and its
    entries are exactly the keyword hits and the accepted entities.  A text
    containing "aws" or "AWS" (and so a text containing both) gets exactly
    one entry "Aws". *)
Theorem extract_skills_case_insensitive_sorted_unique (t : text) :
  let result := extract_skills nlp set_order t in
  Sorted text_le result ∧ NoDup result ∧
  (∀ x, x ∈ result ↔ keyword_found t x ∨ entity_hit (nlp t) x) ∧
  (∀ x, keyword_found t x ↔
        ∃ category keywords keyword pre post,
          (category, keywords) ∈ skills_keywords ∧ keyword ∈ keywords ∧
          lower t = pre ++ keyword ++ post ∧ x = title keyword) ∧
  title <$> (skills_keywords ≫= snd) = skill_names ∧
  ((∃ pre post, t = pre ++ cps "aws" ++ post) ∨
   (∃ pre post, t = pre ++ cps "AWS" ++ post) →
   occurrences (cps "Aws") result = 1).
Proof.
  cbv zeta. split; [apply sorted_Sorted| ].
  split; [apply NoDup_extract_skills| ].
  split; [intros x; rewrite keyword_found_hit; apply elem_of_extract_skills| ].
  split.
  { intros x. rewrite keyword_found_hit. unfold keyword_hit. split.
    - intros (category & keywords & keyword & ? & ? & (pre & post & ?)%contains_spec & ?).
      by exists category, keywords, keyword, pre, post.
    - intros (category & keywords & keyword & pre & post & ? & ? & Hl & ?).
      exists category, keywords, keyword. repeat split; try done.
      apply contains_spec. by exists pre, post. }
  split; [vm_compute; reflexivity| ].
  intros Ht. apply occurrences_NoDup; [apply NoDup_extract_skills| ].
  destruct aws_in_lexicon as [Hc Hk].
  change (cps "Aws") with (title (cps "aws")).
  destruct Ht as [(pre & post & Ht)|(pre & post & Ht)];
    eapply spelling_found; try done.
  - repeat constructor.
  - repeat (constructor; [right; left; reflexivity| ]). constructor.
Qed.

(** C10. The lexicon test is bare substring containment in the lower-cased
    text and the lexicon holds the one-letter keyword 'r': a text with an
    'r' or an 'R' anywhere, also inside an unrelated word, gets the entry
    "R". *)
Theorem extract_skills_R_from_any_r (t : text) :
  N_of_ascii "r" ∈ t ∨ N_of_ascii "R" ∈ t →
  cps "R" ∈ extract_skills nlp set_order t.
Proof.
  intros Hr. destruct r_in_lexicon as [Hc Hk].
  change (cps "R") with (title (cps "r")).
  assert (∃ c, c ∈ t ∧ case_variant c (N_of_ascii "r")) as (c & Hin & Hc').
  { destruct Hr as [?|?]; eexists; (split; [eassumption| ]);
      [left|right; left]; reflexivity. }
  apply list_elem_of_split in Hin as (pre & post & ->).
  eapply (spelling_found _ _ _ _ [c] pre post); try done.
  constructor; [exact Hc'|constructor].
Qed.

End skills.

(** An instance of C1: "Cloud: AWS" with a recogniser that finds nothing. *)
Lemma extract_skills_aws_witness :
  (∀ s : gset text, elements s ≡ₚ elements s) ∧
  ((∃ pre post, cps "Cloud: AWS" = pre ++ cps "aws" ++ post) ∨
   (∃ pre post, cps "Cloud: AWS" = pre ++ cps "AWS" ++ post)) ∧
  occurrences (cps "Aws") (extract_skills (λ _, []) elements (cps "Cloud: AWS")) = 1.
Proof.
  assert (∃ pre post, cps "Cloud: AWS" = pre ++ cps "AWS" ++ post) as Haws
    by (exists (cps "Cloud: "), []; reflexivity).
  split; [done| ]. split; [by right| ].
  apply (extract_skills_case_insensitive_sorted_unique
           (λ _, []) elements (λ _, reflexivity _) (cps "Cloud: AWS")).
  by right.
Defined.

(** An instance of C10: the 'r' of "Harvard". *)
Lemma extract_skills_R_witness :
  (∀ s : gset text, elements s ≡ₚ elements s) ∧
  (N_of_ascii "r" ∈ cps "Harvard" ∨ N_of_ascii "R" ∈ cps "Harvard") ∧
  cps "R" ∈ extract_skills (λ _, []) elements (cps "Harvard").
Proof.
  assert (N_of_ascii "r" ∈ cps "Harvard") as Hr
    by (apply list_elem_of_In; vm_compute; tauto).
  split; [done| ]. split; [by left| ].
  apply (extract_skills_R_from_any_r (λ _, []) elements (λ _, reflexivity _)).
  by left.
Defined.

(** ** Text acquisition and the orchestrator *)

Section orchestrator.

Variable nlp : text → list entity.
Variable set_order : gset text → list text.
Variable pdf_pages : text → io (list (io text)).
Variable read_text : text → io text.

Lemma concat_pages_raise (pages : list (io text)) (acc : text) (e : exn) :
  Raise e ∈ pages → ∃ e', concat_pages pages acc = Raise e'.
Proof.
  revert acc. induction pages as [|page pages IH]; intros acc Hin.
  - by apply elem_of_nil in Hin.
  - destruct page as [s|e0]; [|by exists e0].
    apply elem_of_cons in Hin as [?|Hin]; [done| ]. apply (IH _ Hin).
Qed.

Lemma concat_pages_ret (pages : list text) (acc : text) :
  concat_pages (Ret <$> pages) acc = Ret (acc ++ concat pages).
Proof.
  revert acc. induction pages as [|s pages IH]; intros acc; simpl.
  - by rewrite app_nil_r.
  - change (concat_pages (Ret <$> pages) (acc ++ s) = Ret (acc ++ s ++ concat pages)).
    by rewrite IH, app_assoc.
Qed.

Lemma extract_text_from_pdf_failure (pdf_path : text) :
  pdf_failure pdf_pages pdf_path → extract_text_from_pdf pdf_pages pdf_path = [].
Proof.
  unfold extract_text_from_pdf.
  intros [[e ->]|(pages & e & -> & Hin)]; [done| ].
  destruct (concat_pages_raise pages [] e Hin) as [e' He'].
  change (try_except (concat_pages pages []) (λ _, []) = []). by rewrite He'.
Qed.

(** Without a failure the pages are concatenated in order, no separator. *)
Lemma extract_text_from_pdf_pages (pdf_path : text) (pages : list text) :
  pdf_pages pdf_path = Ret (Ret <$> pages) →
  extract_text_from_pdf pdf_pages pdf_path = concat pages.
Proof.
  unfold extract_text_from_pdf. intros ->.
  change (try_except (concat_pages (Ret <$> pages) []) (λ _, []) = concat pages).
  by rewrite concat_pages_ret.
Qed.

Lemma parse_pdf (file_path : text) :
  endswith file_path (cps ".pdf") = true →
  parse nlp set_order pdf_pages read_text file_path
  = Ret (parsed_data nlp set_order (extract_text_from_pdf pdf_pages file_path)).
Proof. unfold parse. by intros ->. Qed.

Lemma parse_other (file_path : text) :
  endswith file_path (cps ".pdf") = false →
  parse nlp set_order pdf_pages read_text file_path
  = (t ← read_text file_path; Ret (parsed_data nlp set_order t)).
Proof. unfold parse. by intros ->. Qed.

(** C7. A failure while opening, reading or decoding a PDF document is
    caught in the text extractor, which then returns the empty string, and
    the orchestrator still returns a record; a failure while reading a
    document that is not a PDF is not caught and reaches the caller of the
    orchestrator. *)
Theorem pdf_failure_caught_other_failure_propagates (file_path : text) :
  (pdf_failure pdf_pages file_path →
     extract_text_from_pdf pdf_pages file_path = [] ∧
     (endswith file_path (cps ".pdf") = true →
      parse nlp set_order pdf_pages read_text file_path
      = Ret (parsed_data nlp set_order []))) ∧
  (∀ e, endswith file_path (cps ".pdf") = false →
        read_text file_path = Raise e →
        parse nlp set_order pdf_pages read_text file_path = Raise e).
Proof.
  split.
  - intros Hfail%extract_text_from_pdf_failure. split; [done| ].
    intros Hpdf. by rewrite parse_pdf, Hfail.
  - intros e Htxt Hread. by rewrite parse_other, Hread.
Qed.

Lemma parse_raise_inv (file_path : text) (e : exn) :
  parse nlp set_order pdf_pages read_text file_path = Raise e →
  endswith file_path (cps ".pdf") = false ∧ read_text file_path = Raise e.
Proof.
  destruct (endswith file_path (cps ".pdf")) eqn:Hpdf.
  - by rewrite parse_pdf.
  - rewrite parse_other by done. destruct (read_text file_path); [done| ].
    by intros [= ->].
Qed.

(** C8. When [parse] returns, the record's success flag is true, whatever
    was extracted; [parse] raises only when reading a non-PDF document
    raises, so an extractor finding nothing is never a failure; for the empty
    text the record has no contact field, no education, no experience and no
    word, and its flag is true all the same. *)
Theorem parse_flag_always_true (file_path : text) :
  (∀ r, parse nlp set_order pdf_pages read_text file_path = Ret r →
        parsed_successfully r = true) ∧
  (∀ e, parse nlp set_order pdf_pages read_text file_path = Raise e →
        endswith file_path (cps ".pdf") = false ∧ read_text file_path = Raise e) ∧
  (∀ t, parsed_successfully (parsed_data nlp set_order t) = true) ∧
  (let r := parsed_data nlp set_order [] in
   contact r = ContactInfo None None None None ∧ education r = [] ∧
   experience r = [] ∧ word_count r = 0 ∧ parsed_successfully r = true).
Proof.
  split; [|split; [apply parse_raise_inv|split; [done|by repeat split]]].
  intros r. destruct (endswith file_path (cps ".pdf")) eqn:Hpdf.
  - rewrite parse_pdf by done. by intros [= <-].
  - rewrite parse_other by done. destruct (read_text file_path); [|done].
    by intros [= <-].
Qed.

End orchestrator.

(** The sorted skills do not depend on the iteration order of the set. *)
Lemma extract_skills_order_irrelevant (nlp : text → list entity)
    (order1 order2 : gset text → list text) (t : text) :
  (∀ s, order1 s ≡ₚ elements s) → (∀ s, order2 s ≡ₚ elements s) →
  extract_skills nlp order1 t = extract_skills nlp order2 t.
Proof.
  intros H1 H2. unfold extract_skills. cbv zeta.
  apply sorted_order_irrelevant. by rewrite H1, H2.
Qed.

(** C9. Two runs of [parse] on the same document with the same recogniser
    return the same record (or raise the same exception), also when the two
    processes iterate over sets in different orders and name the document
    differently. *)
Theorem parse_deterministic (nlp : text → list entity)
    (order1 order2 : gset text → list text)
    (pdf_pages1 pdf_pages2 : text → io (list (io text)))
    (read_text1 read_text2 : text → io text) (path1 path2 : text) :
  (∀ s, order1 s ≡ₚ elements s) → (∀ s, order2 s ≡ₚ elements s) →
  endswith path1 (cps ".pdf") = endswith path2 (cps ".pdf") →
  pdf_pages1 path1 = pdf_pages2 path2 →
  read_text1 path1 = read_text2 path2 →
  parse nlp order1 pdf_pages1 read_text1 path1
  = parse nlp order2 pdf_pages2 read_text2 path2.
Proof.
  intros H1 H2 Hext Hpdf Hread.
  assert (∀ t, parsed_data nlp order1 t = parsed_data nlp order2 t) as Hdata.
  { intros t. unfold parsed_data. f_equal. by apply extract_skills_order_irrelevant. }
  unfold parse, extract_text_from_pdf. rewrite <- Hext, Hpdf, Hread.
  destruct (endswith path1 (cps ".pdf")).
  - simpl. by rewrite Hdata.
  - destruct (read_text2 path2); simpl; [by rewrite Hdata|done].
Qed.

(** ** The matcher *)

Section matcher.

Variable t : text.

Lemma rep_advances body lo greedy budget :
  advances t body → advances t (rep body lo greedy budget).
Proof.
  intros Hb. revert lo. induction budget as [|b IH]; intros lo s s'; simpl.
  - destruct lo; [intros ->%list_elem_of_singleton; lia|by intros ?%elem_of_nil].
  - assert (∀ lo', s' ∈ body s ≫= rep body lo' greedy b →
                   s.1 ≤ s'.1 ∧ (s.1 ≤ length t → s'.1 ≤ length t)) as Hmore.
    { intros lo' (s1 & Hs' & Hs1)%list_elem_of_bind.
      apply Hb in Hs1. apply IH in Hs'. lia. }
    destruct lo as [|lo]; [|apply Hmore].
    destruct greedy.
    + intros [?| ->%list_elem_of_singleton]%elem_of_app; [by eapply Hmore|lia].
    + intros [->|?]%elem_of_cons; [lia|by eapply Hmore].
Qed.

Lemma run_advances (r : regex) : advances t (run t r).
Proof.
  induction r as [|p|r1 IH1 r2 IH2|r1 IH1 r2 IH2|r IH lo hi greedy|r IH|];
    intros s s'; simpl.
  - intros ->%list_elem_of_singleton. lia.
  - destruct (t !! s.1) as [c|] eqn:Hc; [|by intros ?%elem_of_nil].
    destruct (p c); [|by intros ?%elem_of_nil].
    intros ->%list_elem_of_singleton. apply lookup_lt_Some in Hc. simpl. lia.
  - intros (s1 & Hs' & Hs1)%list_elem_of_bind.
    apply IH1 in Hs1. apply IH2 in Hs'. lia.
  - intros [?|?]%elem_of_app; [by apply IH1|by apply IH2].
  - by apply rep_advances.
  - intros (s1 & -> & Hs1)%list_elem_of_fmap. apply IH in Hs1. simpl. lia.
  - destruct (word_boundary t s.1); [|by intros ?%elem_of_nil].
    intros ->%list_elem_of_singleton. lia.
Qed.

Lemma run_Chr_cases (p : N → bool) (s : mstate) :
  run t (Chr p) s = [] ∨ (s.1 < length t ∧ run t (Chr p) s = [(S s.1, s.2)]).
Proof.
  simpl. destruct (t !! s.1) as [c|] eqn:Hc; [|by left].
  destruct (p c); [|by left]. right. split; [|done]. by eapply lookup_lt_Some.
Qed.

(** The unbounded repetitions of the source all repeat a character class;
    for them a budget above the number of characters left changes nothing. *)
Lemma rep_class_budget (p : N → bool) (lo : nat) (greedy : bool) (b : nat)
    (s : mstate) :
  length t - s.1 ≤ b →
  rep (run t (Chr p)) lo greedy (S b) s = rep (run t (Chr p)) lo greedy b s.
Proof.
  revert lo s. induction b as [|b IH]; intros lo s Hb.
  - destruct (run_Chr_cases p s) as [Hnil|[? _]]; [|lia].
    cbn [rep]. rewrite Hnil. by destruct lo, greedy.
  - change (rep (run t (Chr p)) lo greedy (S (S b)) s)
      with (let more := run t (Chr p) s ≫= rep (run t (Chr p)) (pred lo) greedy (S b) in
            match lo with
            | 0 => if greedy then more ++ [s] else s :: more
            | S _ => more
            end).
    change (rep (run t (Chr p)) lo greedy (S b) s)
      with (let more := run t (Chr p) s ≫= rep (run t (Chr p)) (pred lo) greedy b in
            match lo with
            | 0 => if greedy then more ++ [s] else s :: more
            | S _ => more
            end).
    cbv zeta. destruct (run_Chr_cases p s) as [->|[? ->]]; [done| ].
    rewrite !bind_cons, (IH _ (S s.1, s.2)) by (simpl; lia). done.
Qed.

Lemma rep_class_budget_enough (p : N → bool) (lo : nat) (greedy : bool)
    (extra : nat) (s : mstate) :
  rep (run t (Chr p)) lo greedy (length t - s.1 + extra) s
  = run t (Rep (Chr p) lo None greedy) s.
Proof.
  induction extra as [|extra IH]; [by rewrite Nat.add_0_r| ].
  rewrite Nat.add_succ_r, rep_class_budget by lia. done.
Qed.

Variable r : regex.

Lemma match_at_Some (i : nat) (m : rmatch) :
  match_at t r i = Some m ↔
  ∃ s rest, run t r (i, None) = s :: rest ∧ m = RMatch i s.1 s.2.
Proof.
  unfold match_at. destruct (run t r (i, None)) as [|s rest]; simpl.
  - split; [done|by intros (? & ? & ? & _)].
  - split; [intros [= <-]; by exists s, rest|by intros (? & ? & [= <- <-] & ->)].
Qed.

Lemma match_at_None (i : nat) : match_at t r i = None ↔ run t r (i, None) = [].
Proof. unfold match_at. by destruct (run t r (i, None)). Qed.

Lemma match_at_start (i : nat) (m : rmatch) : match_at t r i = Some m → m_start m = i.
Proof. by intros (s & rest & _ & ->)%match_at_Some. Qed.

Lemma match_at_bounds (i : nat) (m : rmatch) :
  match_at t r i = Some m → i ≤ length t → i ≤ m_end m ≤ length t.
Proof.
  intros (s & rest & Hrun & ->)%match_at_Some Hi. simpl.
  assert (s ∈ run t r (i, None)) as Hs by (rewrite Hrun; left).
  apply run_advances in Hs. simpl in Hs. lia.
Qed.

(** [search] returns the match at the leftmost position that has one. *)
Lemma search_in_seq_Some (a n : nat) (m : rmatch) :
  search_in t r (seq a n) = Some m →
  a ≤ m_start m < a + n ∧ match_at t r (m_start m) = Some m ∧
  ∀ k, a ≤ k < m_start m → match_at t r k = None.
Proof.
  revert a. induction n as [|n IH]; intros a; simpl; [done| ].
  destruct (match_at t r a) as [m'|] eqn:Ha.
  - intros [= ->]. pose proof (match_at_start _ _ Ha) as ->.
    repeat split; [lia..|done|intros; lia].
  - intros (? & ? & Hk)%IH. repeat split; [lia..|done| ].
    intros k ?. destruct (decide (k = a)) as [->|]; [done|apply Hk; lia].
Qed.

Lemma search_in_seq_None (a n : nat) :
  search_in t r (seq a n) = None ↔ ∀ k, a ≤ k < a + n → match_at t r k = None.
Proof.
  revert a. induction n as [|n IH]; intros a; simpl.
  - split; [intros; lia|done].
  - destruct (match_at t r a) as [m'|] eqn:Ha.
    + split; [done| ]. intros Hk. rewrite Hk in Ha by lia. done.
    + rewrite IH. split.
      * intros Hk k ?. destruct (decide (k = a)) as [->|]; [done|apply Hk; lia].
      * intros Hk k ?. apply Hk. lia.
Qed.

Lemma search_Some (m : rmatch) :
  search r t = Some m →
  m_start m ≤ m_end m ≤ length t ∧ match_at t r (m_start m) = Some m ∧
  ∀ k, k < m_start m → match_at t r k = None.
Proof.
  intros (? & Hm & Hk)%search_in_seq_Some.
  pose proof (match_at_bounds _ _ Hm). repeat split; [lia..|done| ].
  intros k ?. apply Hk. lia.
Qed.

Lemma search_None :
  search r t = None ↔ ∀ k, k ≤ length t → match_at t r k = None.
Proof.
  unfold search, starts. rewrite search_in_seq_None.
  split; intros Hk k ?; apply Hk; lia.
Qed.

(** The matches of [finditer] are matches, in increasing order, and do not
    overlap. *)
Lemma finditer_in_seq (a n next : nat) :
  a + n ≤ S (length t) →
  Forall (λ m, a ≤ m_start m < a + n ∧ next ≤ m_start m ∧
               match_at t r (m_start m) = Some m)
         (finditer_in t r (seq a n) next) ∧
  StronglySorted follows (finditer_in t r (seq a n) next).
Proof.
  revert a next. induction n as [|n IH]; intros a next Hn; simpl.
  { split; constructor. }
  assert (∀ next', next ≤ next' →
    Forall (λ m, a ≤ m_start m < a + S n ∧ next ≤ m_start m ∧
                 match_at t r (m_start m) = Some m)
           (finditer_in t r (seq (S a) n) next')) as Htail.
  { intros next' ?. destruct (IH (S a) next') as [Hall _]; [lia| ].
    eapply Forall_impl; [exact Hall| ]. simpl. intros m ?. intuition lia. }
  destruct (Nat.ltb_spec a next).
  { split; [by apply Htail|apply IH; lia]. }
  destruct (match_at t r a) as [m|] eqn:Ha.
  2: { split; [by apply Htail|apply IH; lia]. }
  pose proof (match_at_start _ _ Ha) as Hstart.
  pose proof (match_at_bounds _ _ Ha) as Hend.
  split.
  - constructor; [rewrite Hstart; repeat split; [lia..|done]| ].
    apply Htail. destruct (Nat.eqb_spec (m_end m) a); lia.
  - constructor; [apply IH; lia| ].
    destruct (IH (S a) (if m_end m =? a then S a else m_end m)) as [Hall _]; [lia| ].
    eapply Forall_impl; [exact Hall| ]. simpl. intros m' (? & ? & _).
    unfold follows. destruct (Nat.eqb_spec (m_end m) a); lia.
Qed.

Lemma finditer_spec :
  Forall (λ m, m_start m ≤ m_end m ≤ length t ∧
               match_at t r (m_start m) = Some m) (finditer r t) ∧
  StronglySorted follows (finditer r t).
Proof.
  destruct (finditer_in_seq 0 (S (length t)) 0) as [Hall Hsorted]; [done| ].
  split; [|done]. eapply Forall_impl; [exact Hall| ]. simpl.
  intros m (? & _ & Hm). pose proof (match_at_bounds _ _ Hm). split; [lia|done].
Qed.

End matcher.

(** ** Contact information: the telephone number *)

Lemma first_search_at (patterns later : list regex) (t : text) (i : nat)
    (p : regex) (m : rmatch) :
  patterns !! i = Some p → search p t = Some m →
  (∀ j q, j < i → patterns !! j = Some q → search q t = None) →
  first_search (take (S i) patterns ++ later) t = Some m.
Proof.
  revert i. induction patterns as [|q patterns IH]; intros i Hi Hm Hbefore.
  - by rewrite lookup_nil in Hi.
  - destruct i as [|i]; simpl in *.
    + injection Hi as ->. by rewrite Hm.
    + rewrite (Hbefore 0 q) by (done || lia). apply IH; [done..| ].
      intros j q' ? Hj. apply (Hbefore (S j) q'); [lia|done].
Qed.

Lemma first_search_None (patterns : list regex) (t : text) :
  first_search patterns t = None ↔ ∀ p, p ∈ patterns → search p t = None.
Proof.
  induction patterns as [|q patterns IH]; simpl.
  - split; [by intros _ p ?%elem_of_nil|done].
  - destruct (search q t) eqn:Hq.
    + split; [done| ]. intros Hall. rewrite Hall in Hq by left. done.
    + rewrite IH. split.
      * by intros Hall p [->|?]%elem_of_cons; [|apply Hall].
      * intros Hall p ?. apply Hall. by right.
Qed.

(** C2. The three phone patterns are tried in their order, and the number
    is the first (leftmost) match of the first pattern that matches
    somewhere in the text; the patterns after it are not consulted: whatever
    they are and whatever they would match, the result is the same. *)
Theorem phone_first_matching_pattern_wins (t : text) (i : nat) (p : regex)
    (m : rmatch) (later : list regex) :
  phone_patterns !! i = Some p →
  search p t = Some m →
  (∀ j q, j < i → phone_patterns !! j = Some q → search q t = None) →
  phone (extract_contact_info t) = Some (group0 t m) ∧
  (∀ k, k < m_start m → match_at t p k = None) ∧
  first_search (take (S i) phone_patterns ++ later) t = Some m.
Proof.
  intros Hi Hm Hbefore. split; [|split].
  - change (phone (extract_contact_info t))
      with (group0 t <$> first_search phone_patterns t).
    rewrite <- (take_drop (S i) phone_patterns).
    by rewrite (first_search_at _ _ _ _ _ _ Hi Hm Hbefore).
  - apply (search_Some t p m Hm).
  - by apply (first_search_at _ _ _ _ p).
Qed.

(** An instance of C2: the first pattern matches the second number of the
    text, the second pattern would match the first one, which is not
    returned. *)
Lemma phone_priority_witness :
  let t := cps "call (555) 123-4567 or 1-555-123-4567" in
  ∃ p1 p2,
    phone_patterns !! 0 = Some p1 ∧ phone_patterns !! 1 = Some p2 ∧
    search p1 t = Some (RMatch 23 37 None) ∧
    search p2 t = Some (RMatch 5 19 None) ∧
    (∀ j q, j < 0 → phone_patterns !! j = Some q → search q t = None) ∧
    phone (extract_contact_info t) = Some (cps "1-555-123-4567").
Proof.
  intros t. eexists _, _.
  split; [reflexivity| ]. split; [reflexivity| ].
  split; [vm_compute; reflexivity| ]. split; [vm_compute; reflexivity| ].
  split; [intros; lia| ].
  refine (proj1 (phone_first_matching_pattern_wins t 0 _ (RMatch 23 37 None) []
                   eq_refl _ _)).
  - vm_compute; reflexivity.
  - intros; lia.
Defined.

(** ** Spans of the text *)

Section spans.

Variable t : text.

Lemma length_span (a b : nat) : b ≤ length t → length (span t a b) = b - a.
Proof. intros. unfold span. rewrite length_take, length_drop. lia. Qed.

Lemma span_app (a b c : nat) : a ≤ b ≤ c → span t a b ++ span t b c = span t a c.
Proof.
  intros ?. unfold span.
  replace (drop b t) with (drop (b - a) (drop a t)) by (rewrite drop_drop; f_equal; lia).
  rewrite take_take_drop. f_equal. lia.
Qed.

Lemma span_to_end (a : nat) : span t a (length t) = drop a t.
Proof. unfold span. apply take_ge. rewrite length_drop. lia. Qed.

Lemma span_from_start (b : nat) : span t 0 b = take b t.
Proof. unfold span. rewrite drop_0. f_equal. lia. Qed.

(** The slice [t[a:b]] for indices inside the text. *)
Lemma slice_span (a b : nat) :
  a ≤ b ≤ length t → slice t (Z.of_nat a) (Z.of_nat b) = span t a b.
Proof.
  intros ?. unfold slice, clip_index, span. cbv zeta.
  destruct (Z.ltb_spec (Z.of_nat a) 0); [lia| ].
  destruct (Z.ltb_spec (Z.of_nat b) 0); [lia| ].
  f_equal; [|f_equal]; lia.
Qed.

End spans.

Lemma weave_split_at (t : text) (from : nat) (ms : list rmatch) :
  StronglySorted follows ms →
  Forall (λ m, from ≤ m_start m ∧ m_start m ≤ m_end m ≤ length t) ms →
  weave (split_at t from ms) (group0 t <$> ms) = drop from t.
Proof.
  intros Hsorted. revert from.
  induction Hsorted as [|m ms Hsorted IH Hm]; intros from Hall; simpl.
  - done.
  - apply Forall_cons in Hall as [[? ?] Hall]. rewrite IH.
    + unfold group0. rewrite <- !span_to_end, !span_app by lia. done.
    + rewrite Forall_forall in Hm, Hall. apply Forall_forall. intros m' Hm'.
      destruct (Hm m' Hm'). destruct (Hall m' Hm'). lia.
Qed.

(** The sections of [extract_experience] are the stretches of the text
    between the section breaks, in the order of the text. *)
Lemma weave_split (r : regex) (t : text) :
  weave (split r t) (group0 t <$> finditer r t) = t.
Proof.
  destruct (finditer_spec t r) as [Hall Hsorted].
  unfold split. rewrite weave_split_at, ?drop_0; [done..| ].
  eapply Forall_impl; [exact Hall| ]. simpl. intros m [? _]. lia.
Qed.

(** ** Experience *)

Lemma section_entries_spec (patterns : list regex) (section : text) :
  section_entries patterns section =
  if existsb (λ pattern, bool_decide (is_Some (search pattern section))) patterns
  then [experience_of section] else [].
Proof.
  induction patterns as [|p patterns IH]; simpl; [done| ].
  destruct (search p section) as [m|]; simpl; [done|apply IH].
Qed.

Lemma bind_section_entries (sections : list text) :
  (section ← sections; section_entries job_title_patterns section)
  = experience_of <$> filter (λ s, qualifies s = true) sections.
Proof.
  induction sections as [|s sections IH]; [done| ].
  rewrite bind_cons, filter_cons, IH, section_entries_spec. fold (qualifies s).
  destruct (qualifies s); [by rewrite decide_True|by rewrite decide_False].
Qed.

(** Seven sections with a job title: the entries of the first five. *)
Example extract_experience_seven_sections :
  let nl := [newline; newline] in
  let sections := (λ d, cps "Engineer " ++ [d]) <$> cps "0123456" in
  extract_experience (mjoin ((λ s, s ++ nl) <$> sections))
  = (λ s, ExperienceEntry s true None) <$> take 5 sections.
Proof. vm_compute. reflexivity. Qed.

(** C3. The experience extractor returns at most 5 entries: those of the
    first 5 qualifying sections, in the order of the sections in the text,
    one entry for each, whichever and however many of the patterns match in
    the section; the sections are the stretches of the text between the
    section breaks, from left to right. *)
Theorem extract_experience_first_five_in_order (t : text) :
  extract_experience t
  = take 5 (experience_of <$> filter (λ s, qualifies s = true) (split section_break t)) ∧
  length (extract_experience t) ≤ 5 ∧
  (∀ section, length (section_entries job_title_patterns section) ≤ 1) ∧
  (∀ section, section_entries job_title_patterns section
              = if qualifies section then [experience_of section] else []) ∧
  weave (split section_break t) (group0 t <$> finditer section_break t) = t.
Proof.
  unfold extract_experience. cbv zeta. rewrite bind_section_entries.
  split; [done| ]. split; [rewrite length_take; lia| ].
  split; [|split; [|apply weave_split]];
    intros section; rewrite section_entries_spec; fold (qualifies section);
    [by destruct (qualifies section); simpl; lia|done].
Qed.

(** ** Education *)

Section education.

Variable t : text.

Lemma extract_education_tagged (i : nat) (patterns : list regex) :
  (pattern ← patterns; education_of t <$> finditer pattern t)
  = (λ x, education_of t x.2) <$> tagged_matches i patterns t.
Proof.
  revert i. induction patterns as [|p patterns IH]; intros i; [done| ].
  rewrite bind_cons. simpl. rewrite fmap_app, <- list_fmap_compose, <- IH. done.
Qed.

Lemma elem_of_tagged_matches (i j : nat) (patterns : list regex) (m : rmatch) :
  (j, m) ∈ tagged_matches i patterns t
  ↔ ∃ p, i ≤ j ∧ patterns !! (j - i) = Some p ∧ m ∈ finditer p t.
Proof.
  revert i. induction patterns as [|p patterns IH]; intros i; simpl.
  - split; [by intros ?%elem_of_nil|by intros (? & _ & ? & _)].
  - rewrite elem_of_app, list_elem_of_fmap, IH. split.
    + intros [(m' & [= -> ->] & ?)|(q & ? & Hq & ?)].
      * exists p. by rewrite Nat.sub_diag.
      * exists q. replace (j - i) with (S (j - S i)) by lia. split; [lia|done].
    + intros (q & ? & Hq & ?). destruct (decide (j = i)) as [->|].
      * left. rewrite Nat.sub_diag in Hq. injection Hq as ->. by exists m.
      * right. exists q. replace (j - i) with (S (j - S i)) in Hq by lia.
        split; [lia|done].
Qed.

Lemma length_tagged_matches (i : nat) (patterns : list regex) :
  length (tagged_matches i patterns t)
  = sum_list ((λ p, length (finditer p t)) <$> patterns).
Proof.
  revert i. induction patterns as [|p patterns IH]; intros i; simpl; [done| ].
  by rewrite length_app, length_fmap, IH.
Qed.

Lemma tagged_matches_sorted (i : nat) (patterns : list regex) :
  StronglySorted pattern_then_position (tagged_matches i patterns t).
Proof.
  revert i. induction patterns as [|p patterns IH]; intros i; simpl; [constructor| ].
  apply StronglySorted_app_2; [| |apply IH].
  - intros [j1 m1] [j2 m2] (m' & [= -> ->] & _)%list_elem_of_fmap
      (q & ? & _)%elem_of_tagged_matches.
    left. simpl. lia.
  - destruct (finditer_spec t p) as [_ Hsorted].
    induction Hsorted as [|m ms _ IHms Hm]; [constructor| ].
    rewrite fmap_cons. constructor; [done| ].
    apply Forall_fmap. eapply Forall_impl; [exact Hm| ].
    intros m' [? _]. right. done.
Qed.

End education.

(** C4, as the specification states it, fails: the entry of the match at
    position 16 (first pattern) comes before the entry of the match at
    position 0 (second pattern). *)
Lemma extract_education_not_by_position :
  degree <$> extract_education diploma_then_ms
    = [cps "MS in Math"; cps "Diploma in Art"] ∧
  education_matches diploma_then_ms
    = [(0, RMatch 16 26 (Some (16, 18))); (1, RMatch 0 14 (Some (0, 7)))] ∧
  ¬ Sorted position_then_pattern (education_matches diploma_then_ms).
Proof.
  assert (education_matches diploma_then_ms
          = [(0, RMatch 16 26 (Some (16, 18))); (1, RMatch 0 14 (Some (0, 7)))])
    as Hms by (vm_compute; reflexivity).
  split; [vm_compute; reflexivity| ]. split; [done| ].
  rewrite Hms. intros Hsorted. apply Sorted_inv in Hsorted as [_ Hhd].
  apply HdRel_inv in Hhd. unfold position_then_pattern in Hhd. simpl in Hhd. lia.
Qed.

(** C4, amended. The education extractor emits one entry for every match of
    each of the two degree patterns, without removing overlapping or repeated
    matches; the entries are ordered by pattern first (all the matches of the
    first pattern, then all those of the second) and by position of the match
    within a pattern. *)
Theorem extract_education_by_pattern_then_position (t : text) :
  extract_education t = (λ x, education_of t x.2) <$> education_matches t ∧
  (∀ i m, (i, m) ∈ education_matches t
          ↔ ∃ p, degree_patterns !! i = Some p ∧ m ∈ finditer p t) ∧
  length (extract_education t)
    = sum_list ((λ p, length (finditer p t)) <$> degree_patterns) ∧
  StronglySorted pattern_then_position (education_matches t).
Proof.
  assert (extract_education t = (λ x, education_of t x.2) <$> education_matches t)
    as Heq by apply extract_education_tagged.
  split; [done| ]. split; [|split].
  - intros i m. unfold education_matches. rewrite elem_of_tagged_matches, Nat.sub_0_r.
    split; [intros (p & _ & ?); by exists p|intros (p & ?); exists p; split; [lia|done]].
  - rewrite Heq, length_fmap. apply length_tagged_matches.
  - apply tagged_matches_sorted.
Qed.

Lemma education_context_span (t : text) (s e : nat) :
  s ≤ e ≤ length t →
  _extract_education_context t (Z.of_nat s) (Z.of_nat e)
  = strip (span t (s - min 200 s) s ++ span t s e
           ++ span t e (e + min 200 (length t - e))).
Proof.
  intros ?. unfold _extract_education_context. cbv zeta.
  replace (Z.max 0 (Z.of_nat s - 200)) with (Z.of_nat (s - min 200 s)) by lia.
  replace (Z.min (Z.of_nat (length t)) (Z.of_nat e + 200))
    with (Z.of_nat (e + min 200 (length t - e))) by lia.
  rewrite slice_span, !span_app by lia. done.
Qed.

(** C5. For a degree match with span [start, end), the context is the
    stretch of the text made of the [min(200, start)] characters before the
    match, the match, and the [min(200, len(text) - end)] characters after
    it, that is [text[max(0, start-200) : min(len(text), end+200)]], with the
    whitespace at both ends removed. *)
Theorem education_context_window (t : text) (i : nat) (m : rmatch) :
  (i, m) ∈ education_matches t →
  let start := m_start m in
  let end_ := m_end m in
  let before := span t (start - min 200 start) start in
  let after := span t end_ (end_ + min 200 (length t - end_)) in
  start ≤ end_ ≤ length t ∧
  length before = min 200 start ∧
  length after = min 200 (length t - end_) ∧
  before ++ group0 t m ++ after
    = slice t (Z.max 0 (Z.of_nat start - 200))
              (Z.min (Z.of_nat (length t)) (Z.of_nat end_ + 200)) ∧
  details (education_of t m) = strip (before ++ group0 t m ++ after).
Proof.
  intros (p & _ & _ & Hm)%elem_of_tagged_matches. cbv zeta.
  destruct (finditer_spec t p) as [Hall _].
  rewrite Forall_forall in Hall. destruct (Hall m Hm) as [Hbounds _].
  split; [done| ]. rewrite !length_span by lia.
  split; [lia| ]. split; [lia| ]. split.
  - replace (Z.max 0 (Z.of_nat (m_start m) - 200))
      with (Z.of_nat (m_start m - min 200 (m_start m))) by lia.
    replace (Z.min (Z.of_nat (length t)) (Z.of_nat (m_end m) + 200))
      with (Z.of_nat (m_end m + min 200 (length t - m_end m))) by lia.
    unfold group0. rewrite slice_span, !span_app by lia. done.
  - by apply education_context_span.
Qed.

(** An instance of C5: a match in the middle of a line. *)
Lemma education_context_witness :
  let t := cps "  2020: BS in Math, Springfield  " in
  (0, RMatch 8 18 (Some (8, 10))) ∈ education_matches t ∧
  details (education_of t (RMatch 8 18 (Some (8, 10))))
  = cps "2020: BS in Math, Springfield".
Proof.
  intros t.
  assert ((0, RMatch 8 18 (Some (8, 10))) ∈ education_matches t) as Hin.
  { apply list_elem_of_In. vm_compute. by left. }
  split; [exact Hin| ].
  destruct (education_context_window t 0 _ Hin) as (_ & _ & _ & _ & ->).
  vm_compute. reflexivity.
Defined.

(** ** The company of an experience entry *)

Section run_facts.

Variable t : text.

Lemma elem_of_run_Chr (p : N → bool) (s s' : mstate) :
  s' ∈ run t (Chr p) s ↔ char_at t p s.1 ∧ s' = (S s.1, s.2).
Proof.
  unfold char_at. simpl. destruct (t !! s.1) as [c|] eqn:Hc.
  - destruct (p c) eqn:Hp.
    + rewrite list_elem_of_singleton. split; [intros ->; eauto|by intros [_ ->]].
    + split; [by intros ?%elem_of_nil|intros [(c' & [= <-] & ?) _]; congruence].
  - split; [by intros ?%elem_of_nil|by intros [(c' & ? & ?) _]].
Qed.

Lemma elem_of_run_chr (c : N) (s s' : mstate) :
  s' ∈ run t (chr c) s ↔ t !! s.1 = Some c ∧ s' = (S s.1, s.2).
Proof.
  unfold chr. rewrite elem_of_run_Chr. unfold char_at. split.
  - intros [(c' & ? & ->%N.eqb_eq) ->]. done.
  - intros [? ->]. split; [|done]. exists c. by rewrite N.eqb_refl.
Qed.

Lemma elem_of_run_Seq (r1 r2 : regex) (s s' : mstate) :
  s' ∈ run t (Seq r1 r2) s ↔ ∃ s1, s1 ∈ run t r1 s ∧ s' ∈ run t r2 s1.
Proof.
  simpl. rewrite list_elem_of_bind. split; intros (s1 & ? & ?); by exists s1.
Qed.

Lemma elem_of_run_Alt (r1 r2 : regex) (s s' : mstate) :
  s' ∈ run t (Alt r1 r2) s ↔ s' ∈ run t r1 s ∨ s' ∈ run t r2 s.
Proof. simpl. apply elem_of_app. Qed.

Lemma elem_of_run_Group (r : regex) (s s' : mstate) :
  s' ∈ run t (Group r) s ↔ ∃ s1, s1 ∈ run t r s ∧ s' = (s1.1, Some (s.1, s1.1)).
Proof.
  simpl. rewrite list_elem_of_fmap. split; intros (s1 & ? & ?); by exists s1.
Qed.

(** A repeated character class takes a run of characters of the class. *)
Lemma elem_of_rep_class (p : N → bool) (lo : nat) (greedy : bool) (budget : nat)
    (s s' : mstate) :
  s' ∈ rep (run t (Chr p)) lo greedy budget s
  ↔ ∃ n, lo ≤ n ≤ budget ∧ s' = (s.1 + n, s.2) ∧ all_in t p s.1 (s.1 + n).
Proof.
  revert lo s. induction budget as [|b IH]; intros lo [i cap]; simpl.
  - destruct lo.
    + rewrite list_elem_of_singleton. split.
      * intros ->. exists 0. rewrite Nat.add_0_r. repeat split; [lia..| ].
        intros k ?. lia.
      * intros (n & ? & -> & _). f_equal. lia.
    + split; [by intros ?%elem_of_nil|intros (n & ? & _); lia].
  - assert (∀ lo', s' ∈ run t (Chr p) (i, cap) ≫= rep (run t (Chr p)) lo' greedy b
                   ↔ ∃ n, lo' ≤ n ≤ b ∧ s' = (i + S n, cap) ∧ all_in t p i (i + S n))
      as Hmore.
    { intros lo'. rewrite list_elem_of_bind. split.
      - intros (s1 & Hs' & [Hc ->]%elem_of_run_Chr).
        apply IH in Hs' as (n & ? & -> & Hall). simpl in *.
        exists n. split; [done| ]. split; [f_equal; lia| ].
        intros k ?. destruct (decide (k = i)) as [->|]; [done|apply Hall; lia].
      - intros (n & ? & -> & Hall). exists (S i, cap). split.
        + apply IH. exists n. simpl. split; [done| ]. split; [f_equal; lia| ].
          intros k ?. apply Hall. lia.
        + apply elem_of_run_Chr. split; [|done]. apply Hall. simpl. lia. }
    assert (s' = (i, cap) ↔ ∃ n, n = 0 ∧ s' = (i + n, cap) ∧ all_in t p i (i + n))
      as Hzero.
    { split.
      - intros ->. exists 0. rewrite Nat.add_0_r. repeat split. intros k ?. lia.
      - intros (n & -> & -> & _). f_equal. lia. }
    destruct lo as [|lo].
    + transitivity (s' = (i, cap) ∨
                    s' ∈ run t (Chr p) (i, cap) ≫= rep (run t (Chr p)) 0 greedy b).
      { destruct greedy; [rewrite elem_of_app, list_elem_of_singleton
                         |rewrite elem_of_cons]; tauto. }
      rewrite Hzero, (Hmore 0). split.
      * intros [(n & -> & ? & ?)|(n & ? & ? & ?)]; [exists 0|exists (S n)];
          (split; [lia|done]).
      * intros ([|n] & ? & ? & ?); [left; by exists 0|right; exists n].
        split; [lia|done].
    + rewrite (Hmore lo). split.
      * intros (n & ? & ? & ?). exists (S n). split; [lia|done].
      * intros ([|n] & ? & ? & ?); [lia| ]. exists n. split; [lia|done].
Qed.

Lemma all_in_length (p : N → bool) (a n : nat) :
  a ≤ length t → all_in t p a (a + n) → a + n ≤ length t.
Proof.
  intros Ha Hall. destruct n as [|n]; [lia| ].
  destruct (Hall (a + n)) as (c & Hc%lookup_lt_Some & _); lia.
Qed.

(** [p+], [p+?], [p*], [p{n,}] ... *)
Lemma elem_of_run_class_unbounded (p : N → bool) (lo : nat) (greedy : bool)
    (s s' : mstate) :
  s.1 ≤ length t →
  s' ∈ run t (Rep (Chr p) lo None greedy) s
  ↔ ∃ n, lo ≤ n ∧ s' = (s.1 + n, s.2) ∧ all_in t p s.1 (s.1 + n).
Proof.
  intros Hs. change (run t (Rep (Chr p) lo None greedy) s)
    with (rep (run t (Chr p)) lo greedy (length t - s.1) s).
  rewrite elem_of_rep_class. split.
  - intros (n & ? & ? & ?). exists n. split; [lia|done].
  - intros (n & ? & ? & Hall). exists n. pose proof (all_in_length _ _ _ Hs Hall).
    split; [lia|done].
Qed.

(** [p{n}] *)
Lemma elem_of_run_times (p : N → bool) (n : nat) (s s' : mstate) :
  s' ∈ run t (times n (Chr p)) s ↔ s' = (s.1 + n, s.2) ∧ all_in t p s.1 (s.1 + n).
Proof.
  change (run t (times n (Chr p)) s) with (rep (run t (Chr p)) n true n s).
  rewrite elem_of_rep_class. split.
  - intros (n' & ? & ? & ?). by replace n with n' by lia.
  - intros [? ?]. exists n. split; [lia|done].
Qed.

End run_facts.

(** The first outcome of a sequence: the first outcome of the right part
    after the first outcome of the left part that has one. *)
Lemma head_bind_Some {A B} (f : A → list B) (l : list A) (y : B) :
  head (l ≫= f) = Some y →
  ∃ pre x suf, l = pre ++ x :: suf ∧ Forall (λ x', f x' = []) pre ∧
               head (f x) = Some y.
Proof.
  induction l as [|x l IH]; [done| ]. rewrite bind_cons.
  destruct (f x) as [|y' ys] eqn:Hfx.
  - intros (pre & x' & suf & -> & ? & ?)%IH. exists (x :: pre), x', suf.
    split; [done| ]. split; [by constructor|done].
  - intros [= ->]. exists [], x, l. split; [done| ]. split; [constructor| ].
    by rewrite Hfx.
Qed.

Lemma sorted_before {A} (R : relation A) (pre suf : list A) (x z : A) :
  StronglySorted R (pre ++ x :: suf) → z ∈ pre ++ x :: suf → ¬ R x z → z ≠ x →
  z ∈ pre.
Proof.
  intros Hs [?|[->|Hz]%elem_of_cons]%elem_of_app Hn Hne; [done|done| ].
  apply StronglySorted_app_1_r, StronglySorted_cons in Hs as [Hall _].
  rewrite Forall_forall in Hall. destruct Hn. by apply Hall.
Qed.

Section company.
Variable t : text.

Lemma run_company_end (s s' : mstate) :
  s' ∈ run t company_end s → company_terminator t s.1 ∧ s'.2 = s.2.
Proof.
  unfold company_end, company_terminator.
  cbn [alts seqs lit fmap list_fmap cps List.map list_ascii_of_string].
  rewrite !elem_of_run_Alt, !elem_of_run_Seq.
  intros [H|[H|[H|(s1 & (s2 & H2 & H1)%elem_of_run_Seq & H)]]].
  - apply elem_of_run_chr in H as [? ->]. auto.
  - apply elem_of_run_chr in H as [? ->]. auto.
  - apply elem_of_run_chr in H as [? ->]. auto.
  - apply elem_of_run_chr in H2 as [? ->]. apply elem_of_run_chr in H1 as [? ->].
    apply elem_of_run_times in H as [-> Hd]. simpl in *.
    split; [|done]. right; right; right.
    replace (s.1 + 1) with (S s.1) by lia. repeat split; [done..| |].
    + replace (s.1 + 2) with (S (S s.1)) by lia. apply Hd. lia.
    + apply Hd. lia.
Qed.

Lemma company_end_run (k : nat) (cap : option (nat * nat)) :
  company_terminator t k → ∃ s', s' ∈ run t company_end (k, cap).
Proof.
  unfold company_end, company_terminator.
  cbn [alts seqs lit fmap list_fmap cps List.map list_ascii_of_string].
  intros [H|[H|[H|(H2 & H0 & Hd1 & Hd2)]]].
  - exists (S k, cap). rewrite elem_of_run_Alt, elem_of_run_chr. left. simpl. done.
  - exists (S k, cap). rewrite !elem_of_run_Alt, !elem_of_run_chr. right; left. simpl. done.
  - exists (S k, cap). rewrite !elem_of_run_Alt, !elem_of_run_chr. right; right; left. simpl. done.
  - exists (S (S k) + 2, cap). rewrite !elem_of_run_Alt. right; right; right.
    apply elem_of_run_Seq. exists (S (S k), cap). split.
    + apply elem_of_run_Seq. exists (S k, cap). rewrite !elem_of_run_chr. simpl.
      replace (k + 1) with (S k) in H0 by lia. done.
    + apply elem_of_run_times. split; [done| ]. simpl. intros j ?.
      destruct (decide (j = k + 2)) as [->|]; [done| ].
      by replace j with (k + 3) by lia.
Qed.

(** A letter that has no other form under [re.IGNORECASE] than its two
    cases, as 'a' and 't'. *)
Lemma chr_i_at (c : N) (s s' : mstate) :
  ignorecase_extra (lower_char c) = [] →
  s' ∈ run t (chr_i c) s
  ↔ char_at t (λ x, (lower_char x =? lower_char c)%N) s.1 ∧ s' = (S s.1, s.2).
Proof.
  intros Hc. unfold chr_i. rewrite elem_of_run_Chr.
  unfold char_at, matches_ignorecase. rewrite Hc.
  split; intros [(x & ? & Hx) ?]; (split; [|done]); exists x; (split; [done| ]).
  - apply orb_true_iff in Hx as [?|Hx]; [done| ].
    by apply bool_decide_eq_true, elem_of_nil in Hx.
  - by rewrite Hx.
Qed.

Lemma run_at (s s' : mstate) :
  s' ∈ run t (lit_i "at") s
  ↔ char_at t (λ c, (lower_char c =? N_of_ascii "a")%N) s.1 ∧
    char_at t (λ c, (lower_char c =? N_of_ascii "t")%N) (S s.1) ∧
    s' = (S (S s.1), s.2).
Proof.
  change (lit_i "at") with (Seq (chr_i (N_of_ascii "a")) (chr_i (N_of_ascii "t"))).
  rewrite elem_of_run_Seq. split.
  - intros (s1 & [? ->]%chr_i_at & [? ->]%chr_i_at); done.
  - intros (? & ? & ->). exists (S s.1, s.2). by rewrite !chr_i_at.
Qed.

(** The outcomes of the part of the pattern that follows the whitespace,
    and of the part that follows the phrase. *)
Lemma run_phrase (j : nat) (s' : mstate) :
  j ≤ length t →
  s' ∈ run t (Group (plus_lazy (Chr company_char))) (j, None)
  ↔ ∃ k, j < k ∧ all_in t company_char j k ∧ s' = (k, Some (j, k)).
Proof.
  intros Hj. rewrite elem_of_run_Group. unfold plus_lazy. split.
  - intros (s1 & (n & ? & -> & ?)%elem_of_run_class_unbounded & ->); [|done].
    exists (j + n). split; [lia|done].
  - intros (k & ? & ? & ->). exists (k, None). split; [|done].
    apply elem_of_run_class_unbounded; [done| ]. exists (k - j). cbn [fst snd].
    replace (j + (k - j)) with k by lia. split; [lia|done].
Qed.

Lemma run_spaces (i : nat) (s' : mstate) :
  i ≤ length t →
  s' ∈ run t (plus space) (i, None)
  ↔ ∃ j, i < j ∧ all_in t is_space i j ∧ s' = (j, None).
Proof.
  intros Hi. unfold plus, space. rewrite elem_of_run_class_unbounded by done. split.
  - intros (n & ? & -> & ?). exists (i + n). split; [lia|done].
  - intros (j & ? & ? & ->). exists (j - i). cbn [fst snd].
    replace (i + (j - i)) with j by lia. split; [lia|done].
Qed.

Lemma all_in_bound (p : N → bool) (a b : nat) :
  a ≤ length t → a ≤ b → all_in t p a b → b ≤ length t.
Proof.
  intros Ha Hab Hall. replace b with (a + (b - a)) in * by lia.
  by apply (all_in_length t p).
Qed.

Lemma run_company_pattern (i : nat) (s' : mstate) :
  s' ∈ run t company_pattern (i, None)
  ↔ ∃ j k, company_occurrence t i j k ∧ s' ∈ run t company_end (k, Some (j, k)).
Proof.
  change company_pattern
    with (Seq (lit_i "at")
            (Seq (plus space)
               (Seq (Group (plus_lazy (Chr company_char))) company_end))).
  unfold company_occurrence. replace (i + 1) with (S i) by lia.
  replace (i + 2) with (S (S i)) by lia.
  rewrite elem_of_run_Seq. split.
  - intros (s1 & (Ha & Ht & ->)%run_at
               & (s2 & Hs2 & (s3 & Hs3 & Hend)%elem_of_run_Seq)%elem_of_run_Seq).
    cbn [fst snd] in *.
    assert (S (S i) ≤ length t) as Hlen.
    { destruct Ht as (c & ?%lookup_lt_Some & _). lia. }
    apply run_spaces in Hs2 as (j & ? & Hsp & ->); [|done].
    assert (j ≤ length t) as Hj by (apply (all_in_bound is_space (S (S i))); [done|lia|done]).
    apply run_phrase in Hs3 as (k & ? & Hco & ->); [|done].
    pose proof (run_company_end _ _ Hend) as [Hterm _].
    exists j, k. repeat split; done.
  - intros (j & k & (Ha & Ht & ? & Hsp & ? & Hco & Hterm) & Hend).
    assert (S (S i) ≤ length t) as Hlen.
    { destruct Ht as (c & ?%lookup_lt_Some & _). lia. }
    assert (j ≤ length t) as Hj by (apply (all_in_bound is_space (S (S i))); [done|lia|done]).
    exists (S (S i), None). split; [by apply run_at| ].
    apply elem_of_run_Seq. exists (j, None). split; [apply run_spaces; eauto| ].
    apply elem_of_run_Seq. exists (k, Some (j, k)). split; [|done].
    apply run_phrase; eauto.
Qed.

Lemma run_company_pattern_complete (i j k : nat) :
  company_occurrence t i j k → ∃ s', s' ∈ run t company_pattern (i, None).
Proof.
  intros Hocc. pose proof Hocc as (_ & _ & _ & _ & _ & _ & Hterm).
  destruct (company_end_run k (Some (j, k)) Hterm) as [s' Hs'].
  exists s'. apply run_company_pattern. by exists j, k.
Qed.

Lemma run_Chr_elem (p : N → bool) (s s' : mstate) :
  s' ∈ run t (Chr p) s → run t (Chr p) s = [(S s.1, s.2)].
Proof. intros [(c & Hc & Hp) _]%elem_of_run_Chr. simpl. by rewrite Hc, Hp. Qed.

Lemma run_chr_i_elem (c : N) (s s' : mstate) :
  s' ∈ run t (chr_i c) s → run t (chr_i c) s = [(S s.1, s.2)].
Proof. apply run_Chr_elem. Qed.

(** The outcomes of a repeated character class come longest first when the
    repetition is greedy, and shortest first when it is lazy. *)
Lemma rep_class_sorted (p : N → bool) (lo : nat) (greedy : bool) (budget : nat)
    (s : mstate) :
  StronglySorted (λ a b : mstate, if greedy then b.1 < a.1 else a.1 < b.1)
                 (rep (run t (Chr p)) lo greedy budget s).
Proof.
  revert lo s. induction budget as [|b IH]; intros lo s.
  { simpl. destruct lo; repeat constructor. }
  assert (StronglySorted (λ a b : mstate, if greedy then b.1 < a.1 else a.1 < b.1)
            (run t (Chr p) s ≫= rep (run t (Chr p)) (pred lo) greedy b)
          ∧ ∀ x, x ∈ run t (Chr p) s ≫= rep (run t (Chr p)) (pred lo) greedy b
                 → s.1 < x.1) as [Hsorted Hlt].
  { cbn [run]. destruct (t !! s.1) as [c|];
      [|split; [constructor|by intros ? ?%elem_of_nil]].
    destruct (p c); [|split; [constructor|by intros ? ?%elem_of_nil]].
    rewrite bind_singleton. split; [apply IH| ].
    intros x (n & _ & -> & _)%elem_of_rep_class. cbn [fst]. lia. }
  change (rep (run t (Chr p)) lo greedy (S b) s)
    with (match lo with
          | 0 => if greedy
                 then (run t (Chr p) s ≫= rep (run t (Chr p)) (pred lo) greedy b) ++ [s]
                 else s :: (run t (Chr p) s ≫= rep (run t (Chr p)) (pred lo) greedy b)
          | S _ => run t (Chr p) s ≫= rep (run t (Chr p)) (pred lo) greedy b
          end).
  destruct lo; [|done]. destruct greedy.
  - apply StronglySorted_app_2; [|done|repeat constructor].
    intros x1 x2 Hx1 ->%list_elem_of_singleton. by apply Hlt.
  - constructor; [done| ]. apply Forall_forall. intros x Hx. by apply Hlt.
Qed.

(** The match at a position takes as much whitespace as an occurrence
    allows, and then the shortest phrase. *)
Lemma company_head (i : nat) (s : mstate) :
  head (run t company_pattern (i, None)) = Some s →
  ∃ j k, company_occurrence t i j k ∧ s.2 = Some (j, k) ∧
         (∀ j' k', company_occurrence t i j' k' → j' ≤ j) ∧
         (∀ k', company_occurrence t i j k' → k ≤ k').
Proof.
  intros Hhead.
  assert (s ∈ run t company_pattern (i, None)) as Hs by (by apply head_Some_elem_of).
  pose proof Hs as (j0 & k0 & (Ha & Ht & _) & _)%run_company_pattern.
  replace (i + 1) with (S i) in Ht by lia.
  assert (S (S i) ≤ length t) as Hlen.
  { destruct Ht as (c & ?%lookup_lt_Some & _). lia. }
  revert Hhead.
  change (run t company_pattern (i, None))
    with ((run t (chr_i (N_of_ascii "a")) (i, None) ≫= run t (chr_i (N_of_ascii "t")))
            ≫= (λ s1, run t (plus space) s1
                        ≫= (λ s2, run t (Group (plus_lazy (Chr company_char))) s2
                                    ≫= run t company_end))).
  rewrite (run_chr_i_elem _ (i, None) (S i, None)), bind_singleton
    by (by apply chr_i_at).
  rewrite (run_chr_i_elem _ (S i, None) (S (S i), None)), bind_singleton
    by (by apply chr_i_at).
  cbn [fst snd].
  intros (pre & x & suf & Hrun & Hpre & Hhead)%head_bind_Some.
  assert (x ∈ run t (plus space) (S (S i), None)) as Hx.
  { rewrite Hrun. apply elem_of_app. right. left. }
  apply run_spaces in Hx as (j & Hj & Hsp & ->); [|done].
  assert (j ≤ length t) as Hjlen
    by (apply (all_in_bound is_space (S (S i))); [done|lia|done]).
  apply head_bind_Some in Hhead as (pre' & y & suf' & Hrun' & Hpre' & Hhead').
  assert (y ∈ run t (Group (plus_lazy (Chr company_char))) (j, None)) as Hy.
  { rewrite Hrun'. apply elem_of_app. right. left. }
  apply run_phrase in Hy as (k & Hk & Hco & ->); [|done].
  apply head_Some_elem_of in Hhead'.
  pose proof (run_company_end _ _ Hhead') as [Hterm Hcap]. cbn [fst snd] in Hcap, Hterm.
  exists j, k. split.
  { unfold company_occurrence. replace (i + 1) with (S i) by lia.
    replace (i + 2) with (S (S i)) by lia. done. }
  split; [done| ]. split.
  - intros j' k' Hocc'. destruct (decide (j' ≤ j)) as [|Hgt]; [done| ]. exfalso.
    destruct Hocc' as (_ & _ & ? & Hsp' & ? & Hco' & Hterm').
    replace (i + 2) with (S (S i)) in * by lia.
    assert (j' ≤ length t) as Hjlen'
      by (apply (all_in_bound is_space (S (S i))); [done|lia|done]).
    assert ((j', None) ∈ pre) as Hin.
    { apply (sorted_before (λ a b : mstate, b.1 < a.1) pre suf (j, None)).
      - rewrite <- Hrun. apply (rep_class_sorted is_space 1 true).
      - rewrite <- Hrun. apply run_spaces; [done| ]. by exists j'.
      - cbn [fst]. lia.
      - intros [= ?]. lia. }
    rewrite Forall_forall in Hpre. specialize (Hpre _ Hin). cbv beta in Hpre.
    destruct (company_end_run k' (Some (j', k')) Hterm') as [s' Hs'].
    assert (s' ∈ run t (Group (plus_lazy (Chr company_char))) (j', None)
                 ≫= run t company_end) as Hcontra.
    { apply list_elem_of_bind. exists (k', Some (j', k')). split; [done| ].
      apply run_phrase; [done| ]. by exists k'. }
    rewrite Hpre in Hcontra. by apply elem_of_nil in Hcontra.
  - intros k' Hocc'. destruct (decide (k ≤ k')) as [|Hlt]; [done| ]. exfalso.
    destruct Hocc' as (_ & _ & _ & _ & ? & Hco' & Hterm').
    assert ((k', Some (j, k')) ∈ pre') as Hin.
    { apply (sorted_before (λ a b : mstate, a.1 < b.1) pre' suf' (k, Some (j, k))).
      - rewrite <- Hrun'.
        apply (StronglySorted_fmap _ (λ a b : mstate, a.1 < b.1)); [done| ].
        apply (rep_class_sorted company_char 1 false).
      - rewrite <- Hrun'. apply run_phrase; [done| ]. by exists k'.
      - cbn [fst]. lia.
      - intros [= ?]. lia. }
    rewrite Forall_forall in Hpre'. specialize (Hpre' _ Hin).
    destruct (company_end_run k' (Some (j, k')) Hterm') as [s' Hs'].
    rewrite Hpre' in Hs'. by apply elem_of_nil in Hs'.
Qed.

(** The company is the phrase of the occurrence that the backtracking
    matcher prefers: the leftmost "at", then the longest whitespace, then
    the shortest phrase that a terminator follows. *)
Lemma company_spec :
  let found := search company_pattern t ≫= group1 t in
  (∀ c, found = Some c →
        ∃ i j k, company_occurrence t i j k ∧ c = span t j k ∧
                 (∀ i' j' k', i' < i → ¬ company_occurrence t i' j' k') ∧
                 (∀ j' k', company_occurrence t i j' k' → j' ≤ j) ∧
                 (∀ k', company_occurrence t i j k' → k ≤ k')) ∧
  (found = None ↔ ¬ ∃ i j k, company_occurrence t i j k).
Proof.
  cbv zeta. destruct (search company_pattern t) as [m|] eqn:Hsearch.
  - apply search_Some in Hsearch as (_ & Hm & Hleft).
    apply match_at_Some in Hm as (s & rest & Hrun & Hm).
    assert (head (run t company_pattern (m_start m, None)) = Some s) as Hhead
      by (by rewrite Hrun).
    apply company_head in Hhead as (j & k & Hocc & Hcap & Hj & Hk).
    assert (group1 t m = Some (span t j k)) as Hfound.
    { rewrite Hm. unfold group1. simpl. by rewrite Hcap. }
    change (Some m ≫= group1 t) with (group1 t m).
    split.
    + intros c Hc. exists (m_start m), j, k. split; [done| ].
      split; [congruence| ]. split; [|done]. intros i' j' k' Hi' Hocc'.
      apply run_company_pattern_complete in Hocc' as [s' Hs'].
      rewrite (proj1 (match_at_None t company_pattern i') (Hleft i' Hi')) in Hs'.
      by apply elem_of_nil in Hs'.
    + rewrite Hfound. split; [done| ]. intros Hnone. destruct Hnone. eauto.
  - split; [done| ]. split; [|done]. intros _ (i & j & k & Hocc).
    pose proof Hocc as ((c & Hi%lookup_lt_Some & _) & _).
    apply run_company_pattern_complete in Hocc as [s' Hs'].
    rewrite (proj1 (match_at_None t company_pattern i)) in Hs'.
    + by apply elem_of_nil in Hs'.
    + apply (proj1 (search_None t company_pattern) Hsearch). lia.
Qed.

End company.

(** C6, as the specification states it, fails: neither section has the word
    "at" followed by a capitalized phrase, and the entries have a company all
    the same. *)
Lemma company_without_capitalized_phrase :
  (extract_experience lower_case_company
     = [ExperienceEntry lower_case_company true (Some (cps "acme corp "))] ∧
   search capitalized_company_pattern lower_case_company = None) ∧
  (extract_experience at_inside_word
     = [ExperienceEntry at_inside_word true (Some (cps "Acme"))] ∧
   search capitalized_company_pattern at_inside_word = None).
Proof. repeat split; vm_compute; reflexivity. Qed.

(** C6, amended. For a qualifying section the company is found by the
    pattern made of the letters "at" in either case (not necessarily a word
    of their own), at least one whitespace character, a non-empty phrase of
    word characters, whitespace, '&', ',' and '.' (capitals are not required),
    and a terminator: '|', a bullet, a line break, or "20" and two digits.
    Among the occurrences of this pattern the company is the phrase of the
    one with the leftmost "at", then the longest whitespace, then the
    shortest phrase: the phrase stops before the first terminator it can stop
    at.  When the section has no occurrence the company is null, and only
    then. *)
Theorem company_from_at_phrase (section : text) (entry : experience_entry) :
  entry ∈ section_entries job_title_patterns section →
  company entry = search company_pattern section ≫= group1 section ∧
  (∀ c, company entry = Some c →
        ∃ i j k, company_occurrence section i j k ∧ c = span section j k ∧
                 (∀ i' j' k', i' < i → ¬ company_occurrence section i' j' k') ∧
                 (∀ j' k', company_occurrence section i j' k' → j' ≤ j) ∧
                 (∀ k', company_occurrence section i j k' → k ≤ k')) ∧
  (company entry = None ↔ ¬ ∃ i j k, company_occurrence section i j k).
Proof.
  rewrite section_entries_spec. fold (qualifies section).
  destruct (qualifies section); [|by intros ?%elem_of_nil].
  intros ->%list_elem_of_singleton. split; [done| ]. apply company_spec.
Qed.

(** An instance of C6: a name with a letter outside ASCII, before a bar. *)
Lemma company_witness :
  let section := cps "Engineer at Caf" ++ [233%N] ++ cps " Noir | 2020" in
  experience_of section ∈ section_entries job_title_patterns section ∧
  company (experience_of section) = Some (cps "Caf" ++ [233%N] ++ cps " Noir ").
Proof.
  intros section.
  assert (experience_of section ∈ section_entries job_title_patterns section) as Hin.
  { apply list_elem_of_In. vm_compute. by left. }
  split; [exact Hin| ].
  rewrite (proj1 (company_from_at_phrase section _ Hin)).
  vm_compute. reflexivity.
Defined.

(** ** Instances of the orchestrator theorems *)

(** An instance of C7: "cv.pdf" cannot be opened, "cv.txt" cannot be read. *)
Lemma pdf_failure_witness :
  pdf_failure no_pdf (cps "cv.pdf") ∧
  endswith (cps "cv.pdf") (cps ".pdf") = true ∧
  endswith (cps "cv.txt") (cps ".pdf") = false ∧
  extract_text_from_pdf no_pdf (cps "cv.pdf") = [] ∧
  parse no_entities elements no_pdf no_file (cps "cv.pdf")
    = Ret (parsed_data no_entities elements []) ∧
  parse no_entities elements no_pdf no_file (cps "cv.txt")
    = Raise (Exception "FileNotFoundError").
Proof.
  assert (pdf_failure no_pdf (cps "cv.pdf")) as Hfail by (left; by eexists).
  split; [exact Hfail| ]. split; [reflexivity| ]. split; [reflexivity| ].
  destruct (pdf_failure_caught_other_failure_propagates
              no_entities elements no_pdf no_file (cps "cv.pdf")) as [Hpdf _].
  destruct (pdf_failure_caught_other_failure_propagates
              no_entities elements no_pdf no_file (cps "cv.txt")) as [_ Htxt].
  split; [apply (Hpdf Hfail)| ]. split; [apply (Hpdf Hfail); reflexivity| ].
  apply Htxt; reflexivity.
Defined.

(** An instance of C8: the record of a PDF that cannot be opened. *)
Lemma parse_flag_witness :
  parse no_entities elements no_pdf no_file (cps "cv.pdf")
    = Ret (parsed_data no_entities elements []) ∧
  parsed_successfully (parsed_data no_entities elements []) = true.
Proof.
  assert (parse no_entities elements no_pdf no_file (cps "cv.pdf")
          = Ret (parsed_data no_entities elements [])) as Hparse by reflexivity.
  split; [exact Hparse| ].
  apply (proj1 (parse_flag_always_true no_entities elements no_pdf no_file
                  (cps "cv.pdf")) _ Hparse).
Defined.

(** An instance of C9: the same text under two names, read by two processes
    that iterate over sets in opposite orders. *)
Lemma parse_deterministic_witness :
  let read := λ _ : text, Ret (cps "Python, SQL and AWS at Tech Corp") in
  (∀ s : gset text, elements s ≡ₚ elements s) ∧
  (∀ s : gset text, reverse (elements s) ≡ₚ elements s) ∧
  parse no_entities elements no_pdf read (cps "a.txt")
  = parse no_entities (λ s, reverse (elements s)) no_pdf read (cps "b.txt").
Proof.
  intros read.
  assert (∀ s : gset text, reverse (elements s) ≡ₚ elements s) as Hrev
    by (intros s; apply reverse_Permutation).
  split; [done| ]. split; [exact Hrev| ].
  apply parse_deterministic; [done|exact Hrev|reflexivity..].
Defined.

(** * Further properties *)

Section lang_sound.
Variable t : text.

Lemma span_nil (a : nat) : span t a a = [].
Proof. unfold span. by rewrite Nat.sub_diag. Qed.

Lemma span_one (a : nat) (c : N) : t !! a = Some c → span t a (S a) = [c].
Proof.
  intros Hc. unfold span. replace (S a - a) with 1 by lia.
  rewrite (drop_S _ _ _ Hc). simpl. by rewrite take_0.
Qed.

Lemma rep_sound (L : text → Prop) body lo greedy budget (s s' : mstate) :
  advances t body → sound t L body →
  s' ∈ rep body lo greedy budget s → s.1 ≤ length t →
  ∃ n, lo ≤ n ≤ budget ∧ rep_lang L n (span t s.1 s'.1).
Proof.
  intros Hadv Hsound. revert lo s. induction budget as [|b IH]; intros lo s; simpl.
  - destruct lo; [|by intros ?%elem_of_nil].
    intros ->%list_elem_of_singleton _. exists 0. split; [lia|apply span_nil].
  - assert (∀ lo', s' ∈ body s ≫= rep body lo' greedy b → s.1 ≤ length t →
              ∃ n, lo' ≤ n ≤ b ∧ rep_lang L (S n) (span t s.1 s'.1)) as Hmore.
    { intros lo' (s1 & Hs' & Hs1)%list_elem_of_bind Hs.
      pose proof (Hadv _ _ Hs1) as [? Hlen]. specialize (Hlen Hs).
      pose proof (rep_advances t body lo' greedy b Hadv _ _ Hs') as [? _].
      destruct (IH _ _ Hs' Hlen) as (n & ? & Hn).
      exists n. split; [done| ]. exists (span t s.1 s1.1), (span t s1.1 s'.1).
      split; [by rewrite span_app| ]. split; [by apply (Hsound s s1)|done]. }
    assert (s' = s → ∃ n, 0 ≤ n ≤ S b ∧ rep_lang L n (span t s.1 s'.1)) as Hzero.
    { intros ->. exists 0. split; [lia|apply span_nil]. }
    destruct lo as [|lo].
    + intros Hin Hs.
      assert (s' = s ∨ s' ∈ body s ≫= rep body 0 greedy b) as [?|Hin'].
      { destruct greedy; [apply elem_of_app in Hin as [?| ->%list_elem_of_singleton]
                         |apply elem_of_cons in Hin as [?|?]]; auto. }
      * auto.
      * destruct (Hmore 0 Hin' Hs) as (n & ? & ?). exists (S n). split; [lia|done].
    + intros Hin Hs. destruct (Hmore lo Hin Hs) as (n & ? & ?).
      exists (S n). split; [lia|done].
Qed.

Lemma run_sound (r : regex) : sound t (lang r) (run t r).
Proof.
  induction r as [|p|r1 IH1 r2 IH2|r1 IH1 r2 IH2|r IH lo hi greedy|r IH|];
    intros s s'.
  - intros ->%list_elem_of_singleton _. apply span_nil.
  - intros [(c & Hc & Hp) ->]%elem_of_run_Chr _. exists c. split; [|done].
    by apply span_one.
  - intros (s1 & Hs1 & Hs')%elem_of_run_Seq Hs.
    pose proof (run_advances t r1 _ _ Hs1) as [? Hlen]. specialize (Hlen Hs).
    pose proof (run_advances t r2 _ _ Hs') as [? _].
    exists (span t s.1 s1.1), (span t s1.1 s'.1).
    split; [by rewrite span_app| ]. split; [by apply (IH1 s s1)|by apply (IH2 s1 s')].
  - intros [?|?]%elem_of_run_Alt ?; [left; by apply (IH1 s s')|right; by apply (IH2 s s')].
  - intros Hin Hs. change (run t (Rep r lo hi greedy) s)
      with (rep (run t r) lo greedy (from_option id (length t - s.1) hi) s) in Hin.
    destruct (rep_sound (lang r) _ _ _ _ _ _ (run_advances t r) IH Hin Hs)
      as (n & [? Hn] & ?).
    exists n. split; [done| ]. split; [|done]. by intros h ->.
  - intros (s1 & Hs1 & ->)%elem_of_run_Group Hs. by apply (IH s s1).
  - simpl. destruct (word_boundary t s.1); [|by intros ?%elem_of_nil].
    intros ->%list_elem_of_singleton _. apply span_nil.
Qed.

(** What [search] and [finditer] return is in the language of the pattern. *)
Lemma match_at_lang (r : regex) (i : nat) (m : rmatch) :
  match_at t r i = Some m → i ≤ length t → lang r (group0 t m).
Proof.
  intros (s & rest & Hrun & ->)%match_at_Some Hi. unfold group0. simpl.
  apply (run_sound r (i, None)); [rewrite Hrun; left|done].
Qed.

Lemma search_lang (r : regex) (m : rmatch) :
  search r t = Some m → lang r (group0 t m).
Proof.
  intros (? & Hm & _)%search_Some. apply match_at_lang in Hm; [done|lia].
Qed.

Lemma finditer_lang (r : regex) (m : rmatch) :
  m ∈ finditer r t → lang r (group0 t m).
Proof.
  intros Hm. destruct (finditer_spec t r) as [Hall _].
  rewrite Forall_forall in Hall. destruct (Hall m Hm) as [? Hat].
  apply match_at_lang in Hat; [done|lia].
Qed.

(** A span inside the text is a part of the text. *)
Lemma span_substring (a b : nat) :
  a ≤ b ≤ length t → t = take a t ++ span t a b ++ drop b t.
Proof.
  intros ?. rewrite <- (span_from_start t a), <- (span_to_end t b).
  rewrite !span_app by lia. by rewrite span_to_end, drop_0.
Qed.

Lemma search_substring (r : regex) (m : rmatch) :
  search r t = Some m →
  t = take (m_start m) t ++ group0 t m ++ drop (m_end m) t.
Proof. intros (? & _)%search_Some. by apply span_substring. Qed.

End lang_sound.

Section analysis.

Variable q : N → bool.

Lemma count_app (a b : text) : count q (a ++ b) = count q a + count q b.
Proof. induction a as [|c a IH]; simpl; [done|rewrite IH; lia]. Qed.

Lemma count_le_length (w : text) : count q w ≤ length w.
Proof. induction w as [|c w IH]; simpl; [done|destruct (q c); lia]. Qed.

Lemma rep_lang_count (L : text → Prop) (n k : nat) (w : text) :
  (∀ a, L a → n ≤ count q a) → rep_lang L k w → k * n ≤ count q w.
Proof.
  intros HL. revert w. induction k as [|k IH]; intros w; simpl; [lia| ].
  intros (a & b & -> & Ha%HL & Hb%IH). rewrite count_app. lia.
Qed.

Lemma at_least_count (r : regex) (n : nat) (w : text) :
  at_least q r n → lang r w → n ≤ count q w.
Proof.
  intros Hr. revert w. induction Hr as [p Hp|r1 r2 n1 n2 _ IH1 _ IH2
    |r1 r2 n1 n2 _ IH1 _ IH2|r lo hi greedy n _ IH|r n _ IH|r]; intros w; simpl.
  - intros (c & -> & Hc%Hp). simpl. by rewrite Hc.
  - intros (a & b & -> & Ha%IH1 & Hb%IH2). rewrite count_app. lia.
  - intros [Ha%IH1|Hb%IH2]; lia.
  - intros (k & ? & _ & Hk). pose proof (rep_lang_count _ n k w IH Hk). nia.
  - apply IH.
  - lia.
Qed.

Lemma rep_lang_Forall (L : text → Prop) (k : nat) (w : text) :
  (∀ a, L a → Forall (λ c, q c = true) a) → rep_lang L k w →
  Forall (λ c, q c = true) w.
Proof.
  intros HL. revert w. induction k as [|k IH]; intros w; simpl.
  - by intros ->.
  - intros (a & b & -> & Ha%HL & Hb%IH). by apply Forall_app.
Qed.

Lemma within_Forall (r : regex) (w : text) :
  within q r → lang r w → Forall (λ c, q c = true) w.
Proof.
  intros Hr. revert w. induction Hr as [|p Hp|r1 r2 _ IH1 _ IH2|r1 r2 _ IH1 _ IH2
    |r lo hi greedy _ IH|r _ IH|]; intros w; simpl.
  - by intros ->.
  - intros (c & -> & Hc%Hp). by constructor.
  - intros (a & b & -> & Ha%IH1 & Hb%IH2). by apply Forall_app.
  - intros [?|?]; auto.
  - intros (k & _ & _ & Hk). by eapply rep_lang_Forall.
  - apply IH.
  - by intros ->.
Qed.

End analysis.

(** The strings of a repeated character class. *)
Lemma rep_lang_class (p : N → bool) (n : nat) (w : text) :
  rep_lang (lang (Chr p)) n w ↔ length w = n ∧ Forall (λ c, p c = true) w.
Proof.
  revert w. induction n as [|n IH]; intros w; simpl.
  - split; [by intros ->|by intros [->%length_zero_iff_nil _]].
  - split.
    + intros (a & b & -> & (c & -> & Hc) & [<- Hb]%IH). split; [done| ].
      by constructor.
    + intros [Hlen Hall]. destruct w as [|c w]; [done| ].
      apply Forall_cons in Hall as [Hc Hw]. exists [c], w.
      split; [done| ]. split; [by exists c| ]. apply IH. split; [|done].
      simpl in Hlen. lia.
Qed.

Lemma lang_class_rep (p : N → bool) (lo : nat) (hi : option nat) (greedy : bool)
    (w : text) :
  lang (Rep (Chr p) lo hi greedy) w
  ↔ lo ≤ length w ∧ (∀ h, hi = Some h → length w ≤ h) ∧ Forall (λ c, p c = true) w.
Proof.
  change (lang (Rep (Chr p) lo hi greedy) w)
    with (∃ n, lo ≤ n ∧ (∀ h, hi = Some h → n ≤ h) ∧ rep_lang (lang (Chr p)) n w).
  split.
  - intros (n & ? & ? & [<- ?]%rep_lang_class). done.
  - intros (? & ? & ?). exists (length w). by rewrite rep_lang_class.
Qed.

Lemma lang_chr (c : N) (w : text) : lang (chr c) w ↔ w = [c].
Proof.
  unfold chr. simpl. split.
  - by intros (c' & -> & ->%N.eqb_eq).
  - intros ->. exists c. by rewrite N.eqb_refl.
Qed.

(** A literal string, and a literal string under [re.IGNORECASE]. *)
Lemma lang_seqs_chr (f : N → regex) (good : N → N → Prop) (cs : list N) (w : text) :
  (∀ c w', lang (f c) w' ↔ ∃ x, w' = [x] ∧ good c x) →
  lang (seqs (f <$> cs)) w ↔ Forall2 good cs w.
Proof.
  intros Hf. revert w. induction cs as [|c cs IH]; intros w.
  - simpl. split; [intros ->; constructor|by intros ->%Forall2_nil_inv_l].
  - destruct cs as [|c' cs].
    + change (seqs (f <$> [c])) with (f c). rewrite Hf. split.
      * intros (x & -> & ?). by repeat constructor.
      * intros (x & w' & ? & ->%Forall2_nil_inv_l & ->)%Forall2_cons_inv_l. by exists x.
    + change (seqs (f <$> c :: c' :: cs)) with (Seq (f c) (seqs (f <$> c' :: cs))).
      simpl lang. split.
      * intros (a & b & -> & (x & -> & ?)%Hf & Hb%IH). by constructor.
      * intros (x & w' & ? & Hw' & ->)%Forall2_cons_inv_l. exists [x], w'.
        split; [done| ]. split; [apply Hf; by exists x|by apply IH].
Qed.

Lemma lang_lit (s : string) (w : text) : lang (lit s) w ↔ w = cps s.
Proof.
  unfold lit. rewrite (lang_seqs_chr chr eq).
  - generalize (cps s). intros cs. revert w.
    induction cs as [|c cs IH]; intros [|x w];
      [split; [done|constructor]
      |split; [by intros ?%Forall2_length|done]
      |split; [by intros ?%Forall2_length|done]| ].
    rewrite Forall2_cons, IH. split; [by intros [-> ->]|by intros [= -> ->]].
  - intros c w'. rewrite lang_chr. split; [intros ->; by exists c|by intros (x & -> & ->)].
Qed.

Lemma lower_char_not_upper (c : N) : is_upper (lower_char c) = false.
Proof.
  unfold lower_char, is_upper, in_range.
  destruct (N.leb_spec 65 c), (N.leb_spec c 90); cbn [andb];
    apply andb_false_iff; rewrite !N.leb_gt; lia.
Qed.

(** The characters that a literal character matches under [re.IGNORECASE]. *)
Lemma matches_ignorecase_spec (c x : N) :
  matches_ignorecase c x = true ↔ letter_variant (lower_char c) x.
Proof.
  unfold matches_ignorecase, letter_variant.
  rewrite orb_true_iff, N.eqb_eq, bool_decide_eq_true,
    (lower_char_variant x _ (lower_char_not_upper c)).
  unfold ignorecase_extra, capital_i_dot, dotless_i, kelvin_sign, long_s.
  generalize (lower_char c). intros c'.
  destruct (N.eqb_spec c' 105) as [->|?]; [|destruct (N.eqb_spec c' 107) as [->|?];
    [|destruct (N.eqb_spec c' 115) as [->|?]]];
    rewrite ?elem_of_cons, ?elem_of_nil; change (N_of_ascii "i") with 105%N;
    change (N_of_ascii "k") with 107%N; change (N_of_ascii "s") with 115%N;
    intuition (try discriminate; try lia).
Qed.

Lemma lang_lit_i (s : string) (w : text) :
  lang (lit_i s) w ↔ Forall2 letter_variant (lower_char <$> cps s) w.
Proof.
  unfold lit_i.
  rewrite (lang_seqs_chr chr_i (λ c x, letter_variant (lower_char c) x)).
  - by rewrite Forall2_fmap_l.
  - intros c w'. unfold chr_i. simpl. split.
    + intros (x & -> & ?%matches_ignorecase_spec). by exists x.
    + intros (x & -> & ?). exists x. by rewrite matches_ignorecase_spec.
Qed.

Section combinators.

Variable q : N → bool.

Lemma at_least_seqs (rs : list regex) (ns : list nat) :
  Forall2 (at_least q) rs ns → at_least q (seqs rs) (sum_list ns).
Proof.
  induction 1 as [|r n rs ns Hr Hrs IH]; [apply at_least_zero| ].
  destruct Hrs as [|r' n' rs ns Hr' Hrs].
  - simpl. rewrite Nat.add_0_r. done.
  - change (seqs (r :: r' :: rs)) with (Seq r (seqs (r' :: rs))).
    change (sum_list (n :: n' :: ns)) with (n + sum_list (n' :: ns)).
    by constructor.
Qed.

Lemma within_seqs (rs : list regex) : Forall (within q) rs → within q (seqs rs).
Proof.
  induction 1 as [|r rs Hr Hrs IH]; [constructor| ].
  destruct Hrs as [|r' rs Hr' Hrs]; [done| ].
  change (seqs (r :: r' :: rs)) with (Seq r (seqs (r' :: rs))). by constructor.
Qed.

Lemma within_lit (s : string) : Forall (λ c, q c = true) (cps s) → within q (lit s).
Proof.
  intros Hall. unfold lit. apply within_seqs, Forall_fmap.
  eapply Forall_impl; [exact Hall| ]. intros c Hc. constructor.
  by intros c' ->%N.eqb_eq.
Qed.

End combinators.

Lemma first_search_Some (patterns : list regex) (t : text) (m : rmatch) :
  first_search patterns t = Some m → ∃ p, p ∈ patterns ∧ search p t = Some m.
Proof.
  induction patterns as [|p patterns IH]; simpl; [done| ].
  destruct (search p t) as [m'|] eqn:Hp.
  - intros [= ->]. exists p. split; [left|done].
  - intros (p' & ? & ?)%IH. exists p'. split; [by right|done].
Qed.

Lemma phone_patterns_digits (p : regex) :
  p ∈ phone_patterns → ∃ n, 10 ≤ n ∧ at_least is_digit p n.
Proof.
  unfold phone_patterns. rewrite !elem_of_cons, elem_of_nil.
  intros [->|[->|[->|[]]]]; eexists; (split; cycle 1);
    try (apply at_least_seqs;
         repeat (first [apply Forall2_nil_2 | apply Forall2_cons_2]);
         first [ unfold times, digit; apply at_least_rep, at_least_chr;
                 intros ? H; exact H
               | apply at_least_zero ]);
    simpl; lia.
Qed.

Lemma any_of_sub (s s' : string) (c : N) :
  cps s ⊆ cps s' → any_of s c = true → any_of s' c = true.
Proof.
  unfold any_of. rewrite !bool_decide_eq_true. auto.
Qed.

Lemma phone_patterns_chars (p : regex) : p ∈ phone_patterns → within phone_char p.
Proof.
  assert (∀ c, is_digit c = true → phone_char c = true) as Hdigit.
  { intros c Hc. unfold phone_char. by rewrite Hc. }
  assert (∀ c, is_space c = true → phone_char c = true) as Hspace.
  { intros c Hc. unfold phone_char. rewrite Hc. by rewrite orb_true_r. }
  assert (∀ c, any_of "-." c || is_space c = true → phone_char c = true) as Hsep.
  { intros c [Hc|Hc]%orb_true_iff; [|by apply Hspace].
    unfold phone_char. rewrite (any_of_sub "-." "+()-." c); [by rewrite orb_true_r| |done].
    intros x Hx. apply list_elem_of_In in Hx. apply list_elem_of_In.
    vm_compute in Hx. vm_compute. tauto. }
  assert (∀ s, Forall (λ c, any_of "+()-." c = true) (cps s) → within phone_char (lit s))
    as Hlit.
  { intros s Hs. apply within_lit. eapply Forall_impl; [exact Hs| ].
    intros c Hc. unfold phone_char. rewrite Hc. by rewrite orb_true_r. }
  unfold phone_patterns. rewrite !elem_of_cons, elem_of_nil.
  intros [->|[->|[->|[]]]]; apply within_seqs;
    repeat (first [apply Forall_nil_2 | apply Forall_cons_2]);
    unfold opt, times, star, digit, space, phone_sep;
    repeat (apply within_rep);
    first [ by apply within_chr
          | apply Hlit; vm_compute; by repeat constructor ].
Qed.

Lemma search_occurs (r : regex) (t : text) (m : rmatch) :
  search r t = Some m → occurs_in (group0 t m) t.
Proof. intros Hm%search_substring. by eexists _, _. Qed.

Lemma fmap_group0_Some (t v : text) (o : option rmatch) :
  group0 t <$> o = Some v → ∃ m, o = Some m ∧ v = group0 t m.
Proof. destruct o as [m|]; [|done]. intros [= <-]. by exists m. Qed.

(** X1. Every contact field that is not null occurs in the text, character
    for character. *)
Theorem contact_fields_occur_in_text (t v : text) :
  email (extract_contact_info t) = Some v ∨
  phone (extract_contact_info t) = Some v ∨
  linkedin (extract_contact_info t) = Some v ∨
  github (extract_contact_info t) = Some v →
  occurs_in v t.
Proof.
  intros [H|[H|[H|H]]]; apply fmap_group0_Some in H as (m & Hm & ->).
  - by eapply search_occurs.
  - apply first_search_Some in Hm as (p & _ & Hm). by eapply search_occurs.
  - by eapply search_occurs.
  - by eapply search_occurs.
Qed.

(** X2. A telephone number that is returned has at least ten digits, and
    nothing but digits, '+', parentheses, '-', '.' and whitespace. *)
Theorem phone_has_ten_digits (t v : text) :
  phone (extract_contact_info t) = Some v →
  10 ≤ count is_digit v ∧ Forall (λ c, phone_char c = true) v.
Proof.
  intros (m & Hm & ->)%fmap_group0_Some.
  apply first_search_Some in Hm as (p & Hp & Hm%search_lang).
  split.
  - destruct (phone_patterns_digits p Hp) as (n & ? & Hn).
    pose proof (at_least_count _ _ _ _ Hn Hm). lia.
  - by eapply within_Forall; [apply phone_patterns_chars| ].
Qed.

(** X3. An e-mail address that is returned is a non-empty local part, '@',
    a non-empty domain, '.', and at least two characters among the letters
    and '|' (which the class [[A-Z|a-z]] contains). *)
Theorem email_shape (t v : text) :
  email (extract_contact_info t) = Some v →
  ∃ local domain tld,
    v = local ++ cps "@" ++ domain ++ cps "." ++ tld ∧
    local ≠ [] ∧ Forall (λ c, email_local c = true) local ∧
    domain ≠ [] ∧ Forall (λ c, email_domain c = true) domain ∧
    2 ≤ length tld ∧ Forall (λ c, email_tld c = true) tld.
Proof.
  intros (m & Hm%search_lang & ->)%fmap_group0_Some.
  unfold email_pattern, plus in Hm. cbn [seqs] in Hm.
  destruct Hm as (w0 & w & -> & -> & local & w1 & -> & Hlocal%lang_class_rep
                  & at_ & w2 & -> & ->%lang_lit & domain & w3 & ->
                  & Hdomain%lang_class_rep & dot & w4 & -> & ->%lang_lit
                  & tld & w5 & -> & Htld%lang_class_rep & ->).
  destruct Hlocal as (? & _ & ?), Hdomain as (? & _ & ?), Htld as (? & _ & ?).
  exists local, domain, tld. rewrite app_nil_r. simpl.
  repeat split; try done; intros ->; simpl in *; lia.
Qed.

Lemma handle_shape (prefix : string) (v : text) :
  lang (seqs [lit_i prefix; plus (Chr handle_char)]) v →
  ∃ site handle,
    v = site ++ handle ∧ Forall2 letter_variant (lower_char <$> cps prefix) site ∧
    handle ≠ [] ∧ Forall (λ c, handle_char c = true) handle.
Proof.
  unfold plus. cbn [seqs].
  intros (site & handle & -> & ?%lang_lit_i & (? & _ & ?)%lang_class_rep).
  exists site, handle. repeat split; try done. intros ->. simpl in *. lia.
Qed.

(** X4. A LinkedIn or GitHub field that is returned is the site prefix,
    each of its letters in either case or in another form that
    [re.IGNORECASE] accepts, kept as written, followed by a non-empty handle
    of word characters and '-'. *)
Theorem profile_handles_shape (t v : text) :
  (linkedin (extract_contact_info t) = Some v →
   ∃ site handle, v = site ++ handle ∧
                  Forall2 letter_variant (cps "linkedin.com/in/") site ∧
                  handle ≠ [] ∧ Forall (λ c, handle_char c = true) handle) ∧
  (github (extract_contact_info t) = Some v →
   ∃ site handle, v = site ++ handle ∧
                  Forall2 letter_variant (cps "github.com/") site ∧
                  handle ≠ [] ∧ Forall (λ c, handle_char c = true) handle).
Proof.
  split; intros (m & Hm%search_lang & ->)%fmap_group0_Some;
    by apply handle_shape in Hm.
Qed.

Section strip_facts.

Lemma rev_reverse (t : text) : rev t = reverse t.
Proof. apply rev_alt. Qed.

Lemma lstrip_drop (t : text) : ∃ n, n ≤ length t ∧ lstrip t = drop n t.
Proof.
  induction t as [|c t (n & ? & IH)]; [by exists 0| ]. simpl.
  destruct (is_space c); [exists (S n); split; [lia|done]|exists 0; split; [lia|done]].
Qed.

Lemma rstrip_take (t : text) : ∃ n, n ≤ length t ∧ rstrip t = take n t.
Proof.
  unfold rstrip. rewrite !rev_reverse.
  destruct (lstrip_drop (reverse t)) as (n & Hn & ->).
  rewrite length_reverse in Hn. exists (length t - n). split; [lia| ].
  rewrite drop_reverse, reverse_involutive. done.
Qed.

(** [strip] keeps a stretch of its argument. *)
Lemma strip_span (t : text) : ∃ a b, a ≤ b ≤ length t ∧ strip t = span t a b.
Proof.
  unfold strip. destruct (lstrip_drop t) as (a & Ha & ->).
  destruct (rstrip_take (drop a t)) as (n & Hn & ->).
  rewrite length_drop in Hn. exists a, (a + n). split; [lia| ].
  unfold span. f_equal. lia.
Qed.

Lemma lstrip_head (t : text) (c : N) : head (lstrip t) = Some c → is_space c = false.
Proof.
  induction t as [|x t IH]; simpl; [done| ].
  destruct (is_space x) eqn:Hx; [done|by intros [= <-]].
Qed.

Lemma lstrip_last (t : text) (c : N) :
  last t = Some c → is_space c = false → last (lstrip t) = Some c.
Proof.
  intros Hlast Hc. induction t as [|x t IH]; simpl; [done| ].
  destruct (is_space x) eqn:Hx; [|done].
  destruct t as [|y t]; [simpl in Hlast; congruence| ]. by apply IH.
Qed.

(** The result of [strip] neither begins nor ends with whitespace. *)
Lemma strip_ends (t : text) (c : N) :
  head (strip t) = Some c ∨ last (strip t) = Some c → is_space c = false.
Proof.
  unfold strip, rstrip.
  assert (∀ u, last (rev (lstrip (rev u))) = Some c → is_space c = false) as Hlast.
  { intros u. rewrite !rev_reverse, last_reverse. apply lstrip_head. }
  intros [Hhead|?]; [|by eapply Hlast].
  destruct (lstrip t) as [|x u] eqn:Hu; [by rewrite !rev_reverse in Hhead| ].
  assert (is_space x = false) as Hx by (apply (lstrip_head t); by rewrite Hu).
  assert (last (lstrip (reverse (x :: u))) = Some x) as Hl.
  { apply lstrip_last; [|done]. by rewrite last_reverse. }
  rewrite !rev_reverse, head_reverse, Hl in Hhead. by injection Hhead as <-.
Qed.

End strip_facts.

Lemma elem_of_extract_education (t : text) (e : education_entry) :
  e ∈ extract_education t
  ↔ ∃ p m, p ∈ degree_patterns ∧ m ∈ finditer p t ∧ e = education_of t m.
Proof.
  unfold extract_education. rewrite list_elem_of_bind. split.
  - intros (p & (m & -> & ?)%list_elem_of_fmap & ?). by exists p, m.
  - intros (p & m & ? & ? & ->). exists p. split; [|done].
    apply list_elem_of_fmap. by exists m.
Qed.

Lemma lang_alts_lit_i (ws : list string) (w : text) :
  lang (alts (lit_i <$> ws)) w
  ↔ ∃ s, s ∈ ws ∧ Forall2 letter_variant (lower_char <$> cps s) w.
Proof.
  induction ws as [|s ws IH].
  - simpl. split; [by intros (c & _ & ?)|by intros (s & ?%elem_of_nil & _)].
  - destruct ws as [|s' ws].
    + change (alts (lit_i <$> [s])) with (lit_i s). rewrite lang_lit_i. split.
      * intros ?. exists s. split; [left|done].
      * by intros (s0 & ->%list_elem_of_singleton & ?).
    + change (alts (lit_i <$> s :: s' :: ws))
        with (Alt (lit_i s) (alts (lit_i <$> s' :: ws))).
      simpl lang. rewrite lang_lit_i, IH. split.
      * intros [?|(s0 & ? & ?)]; [exists s; split; [left|done]|exists s0; split; [by right|done]].
      * intros (s0 & [->|?]%elem_of_cons & ?); [by left|right; by exists s0].
Qed.

Lemma degree_pattern_shape (p : regex) (w : text) :
  p ∈ degree_patterns → lang p w →
  ∃ word sp rest, w = word ++ sp ++ rest ∧
                  (∃ d, d ∈ degree_words ∧ Forall2 letter_variant d word) ∧
                  sp ≠ [] ∧ Forall (λ c, is_space c = true) sp.
Proof.
  unfold degree_patterns. rewrite !elem_of_cons, elem_of_nil.
  intros [->|[->|[]]]; unfold plus; cbn [seqs];
    intros (word & w1 & -> & (s & Hs & Hword)%lang_alts_lit_i
            & sp & rest & -> & (? & _ & ?)%lang_class_rep & _);
    exists word, sp, rest; (split; [done| ]);
    (split; [|split; [intros ->; simpl in *; lia|done]]);
    exists (lower_char <$> cps s); (split; [|done]); clear Hword;
    repeat (apply elem_of_cons in Hs as [->|Hs];
            [apply list_elem_of_In; vm_compute; tauto| ]);
    by apply elem_of_nil in Hs.
Qed.

(** X5. The degree of every education entry occurs in the text and is one
    of the ten degree words, each of its letters in either case or in
    another form that [re.IGNORECASE] accepts, followed by whitespace and the
    rest of the match. *)
Theorem education_degree_shape (t : text) (e : education_entry) :
  e ∈ extract_education t →
  occurs_in (degree e) t ∧
  ∃ word sp rest, degree e = word ++ sp ++ rest ∧
                  (∃ d, d ∈ degree_words ∧ Forall2 letter_variant d word) ∧
                  sp ≠ [] ∧ Forall (λ c, is_space c = true) sp.
Proof.
  intros (p & m & Hp & Hm & ->)%elem_of_extract_education. simpl. split.
  - destruct (finditer_spec t p) as [Hall _]. rewrite Forall_forall in Hall.
    destruct (Hall m Hm) as [? _]. exists (take (m_start m) t), (drop (m_end m) t).
    by apply span_substring.
  - apply (degree_pattern_shape p); [done|by apply finditer_lang].
Qed.

Lemma span_span (t : text) (a b a' b' : nat) :
  a ≤ b ≤ length t → a' ≤ b' ≤ b - a →
  span (span t a b) a' b' = span t (a + a') (a + b').
Proof.
  intros ? ?. unfold span.
  replace (b - a) with (a' + (b - a - a')) by lia.
  rewrite <- take_drop_commute, drop_drop, take_take. f_equal. lia.
Qed.

(** X6. The details of an education entry are at most 400 characters longer
    than its degree, occur in the text, and neither begin nor end with
    whitespace. *)
Theorem education_details_bounded (t : text) (e : education_entry) :
  e ∈ extract_education t →
  length (details e) ≤ length (degree e) + 400 ∧
  occurs_in (details e) t ∧
  (∀ c, head (details e) = Some c ∨ last (details e) = Some c → is_space c = false).
Proof.
  intros (p & m & Hp & Hm & ->)%elem_of_extract_education. simpl.
  destruct (finditer_spec t p) as [Hall _]. rewrite Forall_forall in Hall.
  destruct (Hall m Hm) as [? _].
  split; [|split]; [| |intros c; apply strip_ends];
    rewrite education_context_span, !span_app by lia;
    set (a := m_start m - min 200 (m_start m));
    set (b := m_end m + min 200 (length t - m_end m));
    destruct (strip_span (span t a b)) as (a' & b' & Hab & ->);
    rewrite length_span in Hab by lia;
    rewrite span_span by lia.
  - unfold group0. rewrite !length_span by lia. lia.
  - exists (take (a + a') t), (drop (a + b') t). apply span_substring. lia.
Qed.

Lemma StronglySorted_pairwise {A} (R : relation A) (l : list A) (x y : A) :
  StronglySorted R l → x ∈ l → y ∈ l → x = y ∨ R x y ∨ R y x.
Proof.
  induction 1 as [|z l Hl IH Hz]; [by intros ?%elem_of_nil| ].
  rewrite Forall_forall in Hz.
  intros [->|Hx]%elem_of_cons [->|Hy]%elem_of_cons; auto.
Qed.

(** X7. Two matches of the same degree pattern never overlap: entries can
    only overlap when they come from different patterns. *)
Theorem same_pattern_matches_disjoint (t : text) (i : nat) (m1 m2 : rmatch) :
  (i, m1) ∈ education_matches t → (i, m2) ∈ education_matches t →
  m1 = m2 ∨ m_end m1 ≤ m_start m2 ∨ m_end m2 ≤ m_start m1.
Proof.
  unfold education_matches. rewrite !elem_of_tagged_matches.
  intros (p & _ & Hp & Hm1) (p' & _ & Hp' & Hm2).
  assert (p' = p) as -> by congruence.
  destruct (finditer_spec t p) as [_ Hsorted].
  destruct (StronglySorted_pairwise _ _ _ _ Hsorted Hm1 Hm2) as [?|[[_ ?]|[_ ?]]]; auto.
Qed.

Section split_facts.

Variable t : text.
Variable r : regex.
(** The pattern does not match the empty string. *)
Hypothesis nonempty : ∀ i m, match_at t r i = Some m → i < m_end m.

Lemma split_at_finditer_quiet (n a from : nat) :
  a + n = S (length t) → from ≤ length t → quiet t r from a →
  Forall (λ piece, ∃ lo hi, lo ≤ hi ≤ length t ∧ piece = span t lo hi ∧
                            quiet t r lo hi)
         (split_at t from (finditer_in t r (seq a n) from)).
Proof.
  revert a from. induction n as [|n IH]; intros a from Han Hfrom Hquiet; simpl.
  - constructor; [|constructor]. exists from, (length t).
    split; [lia| ]. split; [by rewrite span_to_end| ].
    intros k ?. apply Hquiet. lia.
  - destruct (Nat.ltb_spec a from).
    { apply IH; [lia|done| ]. intros k ?. apply Hquiet. lia. }
    destruct (match_at t r a) as [m|] eqn:Ha.
    + pose proof (match_at_start _ _ _ _ Ha) as Hstart.
      pose proof (match_at_bounds _ _ _ _ Ha) as Hend.
      pose proof (nonempty _ _ Ha).
      destruct (Nat.eqb_spec (m_end m) a); [lia| ].
      simpl. constructor.
      * exists from, a. rewrite Hstart. split; [lia| ]. split; [done| ].
        intros k ?. apply Hquiet. lia.
      * apply IH; [lia..| ]. intros k ?. lia.
    + apply IH; [lia|done| ]. intros k ?.
      destruct (decide (k = a)) as [->|]; [done|apply Hquiet; lia].
Qed.

Lemma split_quiet :
  Forall (λ piece, ∃ lo hi, lo ≤ hi ≤ length t ∧ piece = span t lo hi ∧
                            quiet t r lo hi)
         (split r t).
Proof.
  apply (split_at_finditer_quiet (S (length t)) 0 0); [done|lia| ].
  intros k ?. lia.
Qed.

End split_facts.

Lemma run_section_break (t : text) (i : nat) (s' : mstate) :
  s' ∈ run t section_break (i, None) ↔ ∃ j, break_at t i j ∧ s' = (S j, None).
Proof.
  unfold section_break, star, space, break_at. cbn [seqs].
  rewrite elem_of_run_Seq. split.
  - intros (s1 & [Hi ->]%elem_of_run_chr & (s2 & Hs2 & [Hj ->]%elem_of_run_chr)%elem_of_run_Seq).
    cbn [fst snd] in *.
    apply elem_of_run_class_unbounded in Hs2 as (n & _ & -> & Hall);
      [|apply lookup_lt_Some in Hi; simpl; lia].
    cbn [fst snd] in *. exists (S i + n). repeat split; [done|lia|done|done].
  - intros (j & (Hi & ? & Hall & Hj) & ->). exists (S i, None).
    split; [by apply elem_of_run_chr| ]. apply elem_of_run_Seq. exists (j, None).
    split; [|by apply elem_of_run_chr].
    apply elem_of_run_class_unbounded; [apply lookup_lt_Some in Hi; simpl; lia| ].
    exists (j - S i). cbn [fst snd]. replace (S i + (j - S i)) with j by lia.
    split; [lia|done].
Qed.

Lemma match_at_section_break (t : text) (i : nat) :
  is_Some (match_at t section_break i) ↔ ∃ j, break_at t i j.
Proof.
  split.
  - intros [m (s & rest & Hrun & _)%match_at_Some].
    assert (s ∈ run t section_break (i, None)) as (j & ? & _)%run_section_break
      by (rewrite Hrun; left).
    by exists j.
  - intros (j & Hj). destruct (match_at t section_break i) eqn:Hm; [done| ].
    apply match_at_None in Hm.
    assert ((S j, None) ∈ run t section_break (i, None)) as Hin
      by (apply run_section_break; by exists j).
    rewrite Hm in Hin. by apply elem_of_nil in Hin.
Qed.

Lemma section_break_nonempty (t : text) (i : nat) (m : rmatch) :
  match_at t section_break i = Some m → i < m_end m.
Proof.
  intros (s & rest & Hrun & ->)%match_at_Some.
  assert (s ∈ run t section_break (i, None)) as (j & (_ & ? & _) & ->)%run_section_break
    by (rewrite Hrun; left).
  simpl. lia.
Qed.

Lemma lookup_span (t : text) (lo hi k : nat) :
  hi ≤ length t → k < hi - lo → span t lo hi !! k = t !! (lo + k).
Proof. intros ? ?. unfold span. by rewrite lookup_take_lt, lookup_drop. Qed.

Lemma break_at_span (t : text) (lo hi i j : nat) :
  lo ≤ hi ≤ length t → break_at (span t lo hi) i j → break_at t (lo + i) (lo + j) ∧ lo + j < hi.
Proof.
  intros ? (Hi & ? & Hall & Hj).
  assert (j < hi - lo).
  { apply lookup_lt_Some in Hj. rewrite length_span in Hj; lia. }
  rewrite lookup_span in Hi, Hj by lia. repeat split; [done|lia| |done|lia].
  intros k ?. destruct (Hall (k - lo)) as (c & Hc & ?); [lia| ].
  rewrite lookup_span in Hc by lia. exists c.
  replace (lo + (k - lo)) with k in Hc by lia. done.
Qed.

Lemma finditer_in_None (t : text) (r : regex) (cands : list nat) (next : nat) :
  Forall (λ k, match_at t r k = None) cands → finditer_in t r cands next = [].
Proof.
  induction 1 as [|k cands Hk _ IH]; simpl; [done| ].
  rewrite Hk. by destruct (k <? next).
Qed.

Lemma search_None_finditer (t : text) (r : regex) :
  search r t = None → finditer r t = [].
Proof.
  intros Hnone. apply finditer_in_None, Forall_forall. intros k Hk.
  apply (proj1 (search_None t r) Hnone). unfold starts in Hk.
  apply elem_of_seq in Hk. lia.
Qed.

(** X8. A section of the experience extractor contains no section break (a
    line break, whitespace, a line break): splitting it again gives the
    section itself. *)
Theorem sections_have_no_break (t section : text) :
  section ∈ split section_break t →
  search section_break section = None ∧
  split section_break section = [section] ∧
  ¬ ∃ i j, break_at section i j.
Proof.
  intros Hin.
  pose proof (split_quiet t section_break (section_break_nonempty t)) as Hall.
  rewrite Forall_forall in Hall. destruct (Hall _ Hin) as (lo & hi & ? & -> & Hquiet).
  assert (¬ ∃ i j, break_at (span t lo hi) i j) as Hno.
  { intros (i & j & Hb). apply break_at_span in Hb as [Hb ?]; [|done].
    assert (is_Some (match_at t section_break (lo + i))) as [m Hm]
      by (apply match_at_section_break; by exists (lo + j)).
    rewrite Hquiet in Hm; [done| ]. destruct Hb as (_ & ? & _). lia. }
  assert (search section_break (span t lo hi) = None) as Hsearch.
  { apply search_None. intros k _.
    destruct (match_at (span t lo hi) section_break k) eqn:Hm; [|done].
    destruct Hno. exists k. apply match_at_section_break. by rewrite Hm. }
  split; [done| ]. split; [|done].
  unfold split. by rewrite (search_None_finditer _ _ Hsearch).
Qed.

Lemma elem_of_take_elem {A} (n : nat) (l : list A) (x : A) : x ∈ take n l → x ∈ l.
Proof.
  intros Hx. rewrite <- (take_drop n l). apply elem_of_app. by left.
Qed.

(** X9. Every experience entry has the job title flag set and an excerpt of
    at most 200 characters; it is the entry of a qualifying section of the
    text, and its company, when not null, is a non-empty part of that
    section. *)
Theorem experience_entries_invariant (t : text) (e : experience_entry) :
  e ∈ extract_experience t →
  has_job_title e = true ∧ length (section_text e) ≤ 200 ∧
  ∃ section,
    section ∈ split section_break t ∧ occurs_in section t ∧
    qualifies section = true ∧ e = experience_of section ∧
    ∀ c, company e = Some c → c ≠ [] ∧ occurs_in c section.
Proof.
  unfold extract_experience. cbv zeta. rewrite bind_section_entries.
  intros (section & -> & [Hq Hin]%list_elem_of_filter)%elem_of_take_elem%list_elem_of_fmap.
  split; [done| ]. split; [simpl; rewrite length_take; lia| ].
  exists section. split; [done| ]. split.
  { pose proof (split_quiet t section_break (section_break_nonempty t)) as Hall.
    rewrite Forall_forall in Hall. destruct (Hall _ Hin) as (lo & hi & ? & -> & _).
    exists (take lo t), (drop hi t). by apply span_substring. }
  split; [done| ]. split; [done| ].
  intros c Hc. destruct (company_spec section) as [Hsome _].
  destruct (Hsome c Hc) as (i & j & k & Hocc & -> & _).
  destruct Hocc as (_ & _ & _ & _ & ? & _ & Hterm).
  assert (k < length section).
  { destruct Hterm as [Hk|[Hk|[Hk|[Hk _]]]]; by apply lookup_lt_Some in Hk. }
  split.
  - intros Hnil%(f_equal length). rewrite length_span in Hnil; simpl in Hnil; lia.
  - exists (take j section), (drop k section). apply span_substring. lia.
Qed.

Lemma contains_trans (a b c : text) :
  contains a b = true → contains b c = true → contains a c = true.
Proof.
  rewrite !contains_spec. intros (p1 & q1 & ->) (p2 & q2 & ->).
  exists (p2 ++ p1), (q1 ++ q2). by rewrite <- !app_assoc.
Qed.

Section skills_more.

Variable nlp : text → list entity.
Variable set_order : gset text → list text.
Hypothesis set_order_perm : ∀ s, set_order s ≡ₚ elements s.

(** X10. When a lexicon keyword contains another one ("javascript" and
    "java", "mysql" and "sql"), a text in which the longer one is found gets
    both skills. *)
Theorem keyword_inside_keyword (t category1 category2 : text)
    (keywords1 keywords2 : list text) (short long : text) :
  (category1, keywords1) ∈ skills_keywords → short ∈ keywords1 →
  (category2, keywords2) ∈ skills_keywords → long ∈ keywords2 →
  contains short long = true →
  contains long (lower t) = true →
  title short ∈ extract_skills nlp set_order t ∧
  title long ∈ extract_skills nlp set_order t.
Proof.
  intros Hc1 Hk1 Hc2 Hk2 Hsub Hlong.
  split; apply (elem_of_extract_skills nlp set_order set_order_perm); left.
  - exists category1, keywords1, short. repeat split; try done.
    by eapply contains_trans.
  - by exists category2, keywords2, long.
Qed.

(** X11. Text added before or after a text never removes a lexicon skill. *)
Theorem keyword_skills_monotone (t pre post x : text) :
  keyword_hit (lower t) x →
  x ∈ extract_skills nlp set_order (pre ++ t ++ post).
Proof.
  intros (category & keywords & keyword & u & a & b & ? & ? & -> & ? & ->)%keyword_found_hit.
  apply (elem_of_extract_skills nlp set_order set_order_perm). left.
  apply keyword_found_hit.
  exists category, keywords, keyword, u, (pre ++ a), (b ++ post).
  by rewrite <- !app_assoc.
Qed.

End skills_more.

Section text_sources.

Variable pdf_pages : text → io (list (io text)).

Lemma pages_cases (pages : list (io text)) :
  (∃ texts, pages = Ret <$> texts) ∨ ∃ e, Raise e ∈ pages.
Proof.
  induction pages as [|page pages [[texts ->]|[e ?]]].
  - left. by exists [].
  - destruct page as [s|e]; [left; by exists (s :: texts)|right; exists e; left].
  - right. exists e. by right.
Qed.

(** X12. The text of a PDF is the texts of its pages, in order and with no
    separator, when the document opens and every page is extracted, and the
    empty string in every other case. *)
Theorem extract_text_from_pdf_cases (pdf_path : text) :
  (∀ texts, pdf_pages pdf_path = Ret (Ret <$> texts) →
            extract_text_from_pdf pdf_pages pdf_path = concat texts) ∧
  (pdf_failure pdf_pages pdf_path → extract_text_from_pdf pdf_pages pdf_path = []) ∧
  ((∃ texts, pdf_pages pdf_path = Ret (Ret <$> texts)) ∨ pdf_failure pdf_pages pdf_path).
Proof.
  split; [apply extract_text_from_pdf_pages| ].
  split; [apply extract_text_from_pdf_failure| ].
  destruct (pdf_pages pdf_path) as [pages|e] eqn:Hp.
  - destruct (pages_cases pages) as [[texts ->]|[e ?]].
    + left. by exists texts.
    + right. right. by exists pages, e.
  - right. left. by exists e.
Qed.

End text_sources.

Section word_count_facts.

Lemma count_tokens_app (in_token : bool) (a b : text) (c : N) :
  is_space c = true →
  count_tokens in_token (a ++ c :: b)
  = count_tokens in_token a + count_tokens false b.
Proof.
  intros Hc. revert in_token. induction a as [|x a IH]; intros in_token; simpl.
  - by rewrite Hc.
  - destruct (is_space x); rewrite IH; lia.
Qed.

Lemma count_tokens_le (in_token : bool) (t : text) :
  count_tokens in_token t ≤ length t.
Proof.
  revert in_token. induction t as [|c t IH]; intros in_token; simpl; [done| ].
  destruct (is_space c), in_token; simpl; pose proof (IH true); pose proof (IH false); lia.
Qed.

Lemma word_count_zero (a : text) :
  Chars.word_count a = 0 ↔ Forall (λ x, is_space x = true) a.
Proof.
  unfold Chars.word_count. induction a as [|x a IH]; simpl.
  - split; [constructor|done].
  - destruct (is_space x) eqn:Hx.
    + rewrite IH. split; [by constructor|by intros [_ ?]%Forall_cons].
    + split; [done| ]. intros [? _]%Forall_cons. congruence.
Qed.

(** X14. The word count is 0 exactly for the texts made of whitespace only,
    never exceeds the length of the text, and adds up over two texts joined
    by a whitespace character. *)
Theorem word_count_blank_additive (a b : text) (c : N) :
  (Chars.word_count a = 0 ↔ Forall (λ x, is_space x = true) a) ∧
  Chars.word_count a ≤ length a ∧
  (is_space c = true →
   Chars.word_count (a ++ c :: b) = Chars.word_count a + Chars.word_count b).
Proof.
  split; [apply word_count_zero| ].
  split; [apply count_tokens_le|apply count_tokens_app].
Qed.

End word_count_facts.

Section blank_facts.

(** A property checked on every whitespace character. *)
Lemma whitespace_forall (P : N → bool) :
  forallb P whitespace = true → ∀ c, is_space c = true → P c = true.
Proof.
  intros Hall c Hc. rewrite forallb_forall in Hall. apply Hall.
  revert Hc. unfold is_space, in_range, whitespace.
  rewrite !orb_true_iff, !andb_true_iff, !N.leb_le, !N.eqb_eq.
  cbn [In]. lia.
Qed.

Lemma count_blank (t : text) : blank t → count is_mark t = 0.
Proof.
  induction 1 as [|c t Hc _ IH]; simpl; [done| ]. rewrite IH.
  unfold is_mark. by rewrite Hc.
Qed.

Lemma count_occurs (q : N → bool) (v t : text) :
  occurs_in v t → count q v ≤ count q t.
Proof. intros (pre & post & ->). rewrite !count_app. lia. Qed.

Lemma blank_occurs (v t : text) : occurs_in v t → blank t → blank v.
Proof.
  intros (pre & post & ->) Hall. unfold blank in *.
  by apply Forall_app in Hall as [_ [? _]%Forall_app].
Qed.

(** Whitespace has no case. *)
Lemma lower_at_space (before after : text) (c : N) :
  is_space c = true → lower_at before after c = [c].
Proof.
  intros Hc.
  pose proof (whitespace_forall
    (λ c, negb (c =? capital_sigma)%N && negb (c =? capital_i_dot)%N
          && (lower_lookup lower_runs c =? c)%N)
    ltac:(vm_compute; reflexivity) c Hc) as Hall.
  apply andb_true_iff in Hall as [[Hs%negb_true_iff Hi%negb_true_iff]%andb_true_iff
                                    Hl%N.eqb_eq].
  unfold lower_at, lower_full. by rewrite Hs, Hi, Hl.
Qed.

Lemma blank_lower (t : text) : blank t → lower t = t.
Proof.
  intros Ht. unfold lower. generalize (@nil N) as before.
  induction Ht as [|c t Hc _ IH]; intros before; [done| ].
  cbn [lower_from]. by rewrite lower_at_space, IH.
Qed.

(** A pattern that needs a character other than whitespace finds nothing in
    a blank text. *)
Lemma search_blank (r : regex) (t : text) :
  at_least is_mark r 1 → blank t → search r t = None.
Proof.
  intros Hr Ht. destruct (search r t) as [m|] eqn:Hm; [|done].
  pose proof (at_least_count _ _ _ _ Hr (search_lang _ _ _ Hm)).
  pose proof (count_occurs is_mark _ _ (search_occurs _ _ _ Hm)).
  rewrite (count_blank t Ht) in *. lia.
Qed.

Lemma digit_mark (c : N) : is_digit c = true → is_mark c = true.
Proof.
  intros Hc. unfold is_mark. destruct (is_space c) eqn:Hs; [|done].
  pose proof (whitespace_forall (λ c, negb (is_digit c))
                ltac:(vm_compute; reflexivity) c Hs) as Hn.
  cbv beta in Hn. by rewrite Hc in Hn.
Qed.

Lemma count_digits_marks (t : text) : count is_digit t ≤ count is_mark t.
Proof.
  induction t as [|c t IH]; simpl; [done| ].
  destruct (is_digit c) eqn:Hc; [rewrite (digit_mark c Hc)|]; simpl; lia.
Qed.

Lemma chr_i_mark (c x : N) :
  is_alpha c = true → matches_ignorecase c x = true → is_mark x = true.
Proof.
  intros Hc Hx%matches_ignorecase_spec. unfold is_mark. apply negb_true_iff.
  assert ((97 ≤ lower_char c ≤ 122)%N) as Hl.
  { revert Hc. unfold lower_char, is_alpha, is_upper, is_lower, in_range.
    destruct (N.leb_spec 65 c), (N.leb_spec c 90), (N.leb_spec 97 c),
      (N.leb_spec c 122); cbn [andb orb]; intros ?; try done; lia. }
  assert ((65 ≤ x ≤ 122)%N ∨ x = 304%N ∨ x = 305%N ∨ x = 8490%N ∨ x = 383%N) as Hcases.
  { revert Hx. unfold letter_variant, upper_char, is_lower, in_range,
      capital_i_dot, dotless_i, kelvin_sign, long_s.
    destruct (N.leb_spec 97 (lower_char c)), (N.leb_spec (lower_char c) 122);
      cbn [andb]; lia. }
  apply not_true_is_false. clear Hx Hl Hc. unfold is_space, in_range.
  rewrite !orb_true_iff, !andb_true_iff, !N.leb_le, !N.eqb_eq. lia.
Qed.

Lemma at_least_lit_i (s : string) (c : N) (rest : text) :
  cps s = c :: rest → is_alpha c = true → at_least is_mark (lit_i s) 1.
Proof.
  intros Hs Hc. unfold lit_i. rewrite Hs.
  assert (at_least is_mark (chr_i c) 1) as Hfirst.
  { constructor. intros x. by apply chr_i_mark. }
  destruct rest as [|c' rest]; [done| ].
  change (at_least is_mark (Seq (chr_i c) (seqs (chr_i <$> c' :: rest))) (1 + 0)).
  constructor; [done|apply at_least_zero].
Qed.

Lemma at_least_alts (rs : list regex) :
  rs ≠ [] → Forall (λ r, at_least is_mark r 1) rs → at_least is_mark (alts rs) 1.
Proof.
  intros Hne Hall. induction Hall as [|r rs Hr Hrs IH]; [done| ].
  destruct rs as [|r' rs]; [done| ].
  change (at_least is_mark (Alt r (alts (r' :: rs))) (min 1 1)).
  constructor; [done|by apply IH].
Qed.

Lemma at_least_seq_first (r : regex) (rs : list regex) :
  at_least is_mark r 1 → at_least is_mark (seqs (r :: rs)) 1.
Proof.
  intros Hr. destruct rs as [|r' rs]; [done| ].
  change (at_least is_mark (Seq r (seqs (r' :: rs))) (1 + 0)).
  constructor; [done|apply at_least_zero].
Qed.

Lemma at_least_words (ws : list string) :
  ws ≠ [] →
  Forall (λ s, ∃ c rest, cps s = c :: rest ∧ is_alpha c = true) ws →
  at_least is_mark (Group (alts (lit_i <$> ws))) 1.
Proof.
  intros Hne Hall. constructor. apply at_least_alts; [by destruct ws| ].
  apply Forall_fmap. eapply Forall_impl; [exact Hall| ].
  intros s (c & rest & ? & ?). by eapply at_least_lit_i.
Qed.

End blank_facts.

Ltac first_letters :=
  repeat (first [apply Forall_nil_2 | apply Forall_cons_2]);
  eexists _, _; split; reflexivity.

Lemma degree_patterns_mark (p : regex) : p ∈ degree_patterns → at_least is_mark p 1.
Proof.
  unfold degree_patterns. rewrite !elem_of_cons, elem_of_nil.
  intros [->|[->|[]]]; apply at_least_seq_first, at_least_words; try done;
    first_letters.
Qed.

Lemma job_title_patterns_mark (p : regex) :
  p ∈ job_title_patterns → at_least is_mark p 1.
Proof.
  unfold job_title_patterns. rewrite !elem_of_cons, elem_of_nil.
  intros [->|[->|[]]]; [|apply at_least_seq_first]; apply at_least_words; try done;
    first_letters.
Qed.

Lemma first_search_blank (t : text) : blank t → first_search phone_patterns t = None.
Proof.
  intros Ht. apply first_search_None. intros p Hp.
  destruct (search p t) as [m|] eqn:Hm; [|done].
  destruct (phone_patterns_digits p Hp) as (n & ? & Hn).
  pose proof (at_least_count _ _ _ _ Hn (search_lang _ _ _ Hm)).
  pose proof (count_occurs is_mark _ _ (search_occurs _ _ _ Hm)).
  pose proof (count_digits_marks (group0 t m)).
  rewrite (count_blank t Ht) in *. lia.
Qed.

Lemma email_pattern_mark : at_least is_mark email_pattern 1.
Proof.
  change (at_least is_mark
    (Seq WordB (Seq (plus (Chr email_local)) (Seq (chr 64)
       (seqs [plus (Chr email_domain); lit "."; Rep (Chr email_tld) 2 None true; WordB]))))
    (0 + (0 + (1 + 0)))).
  repeat (constructor; [apply at_least_zero| ]).
  constructor; [|apply at_least_zero]. constructor.
  by intros c <-%N.eqb_eq.
Qed.

Lemma handle_patterns_mark :
  at_least is_mark linkedin_pattern 1 ∧ at_least is_mark github_pattern 1.
Proof.
  split; apply at_least_seq_first; by eapply at_least_lit_i.
Qed.

Lemma keywords_have_letters (category keyword : text) (keywords : list text) :
  (category, keywords) ∈ skills_keywords → keyword ∈ keywords →
  1 ≤ count is_mark keyword.
Proof.
  intros Hc Hk.
  assert (forallb (λ k, 1 <=? count is_mark k) (skills_keywords ≫= snd) = true)
    as Hall by (vm_compute; reflexivity).
  rewrite forallb_forall in Hall. apply Nat.leb_le, Hall, list_elem_of_In.
  apply list_elem_of_bind. by exists (category, keywords).
Qed.

Lemma no_elements_nil {A} (l : list A) : (∀ x, x ∉ l) → l = [].
Proof. destruct l as [|x l]; [done| ]. intros Hl. destruct (Hl x). left. Qed.

Lemma filter_none {A} (P : A → Prop) `{∀ x, Decision (P x)} (l : list A) :
  Forall (λ x, ¬ P x) l → filter P l = [].
Proof.
  induction 1 as [|x l Hx _ IH]; [done| ].
  by rewrite filter_cons, decide_False, IH.
Qed.

Section blank_text.

Variable nlp : text → list entity.
Variable set_order : gset text → list text.
Hypothesis set_order_perm : ∀ s, set_order s ≡ₚ elements s.

Lemma qualifies_blank (section : text) : blank section → qualifies section = false.
Proof.
  intros Hs. unfold qualifies. apply not_true_is_false.
  intros (p & Hp & Hm)%existsb_exists. apply list_elem_of_In in Hp.
  rewrite (search_blank p section) in Hm; [done| |done].
  by apply job_title_patterns_mark.
Qed.

(** X15. A text made of whitespace only (the empty text too) gives four
    null contact fields, no education, no experience, a word count of 0 and
    no lexicon skill; the skills are empty when the recogniser finds no
    entity. *)
Theorem blank_text_empty_record (t : text) :
  blank t →
  extract_contact_info t = ContactInfo None None None None ∧
  extract_education t = [] ∧
  extract_experience t = [] ∧
  Chars.word_count t = 0 ∧
  (∀ x, ¬ keyword_hit (lower t) x) ∧
  (nlp t = [] → extract_skills nlp set_order t = []).
Proof.
  intros Ht.
  assert (∀ x, ¬ keyword_hit (lower t) x) as Hkey.
  { intros x (category & keywords & keyword & Hc & Hk & Hin & _).
    pose proof (keywords_have_letters _ _ _ Hc Hk).
    rewrite (blank_lower t Ht) in Hin. apply contains_spec in Hin as (pre & post & ->).
    unfold blank in Ht. apply Forall_app in Ht as [_ [Hkw _]%Forall_app].
    rewrite (count_blank keyword Hkw) in *. lia. }
  split; [|split; [|split; [|split; [|split; [done| ]]]]].
  - unfold extract_contact_info.
    destruct handle_patterns_mark as [Hl Hg].
    by rewrite (search_blank _ t email_pattern_mark Ht), (first_search_blank t Ht),
      (search_blank _ t Hl Ht), (search_blank _ t Hg Ht).
  - apply no_elements_nil. intros e (p & m & Hp & Hm & _)%elem_of_extract_education.
    rewrite (search_None_finditer t p) in Hm; [by apply elem_of_nil in Hm| ].
    apply search_blank; [by apply degree_patterns_mark|done].
  - unfold extract_experience. cbv zeta. rewrite bind_section_entries.
    rewrite filter_none; [done| ]. apply Forall_forall. intros section Hin.
    pose proof (split_quiet t section_break (section_break_nonempty t)) as Hall.
    rewrite Forall_forall in Hall. destruct (Hall _ Hin) as (lo & hi & ? & -> & _).
    rewrite qualifies_blank; [done| ].
    apply (blank_occurs _ t); [|done].
    exists (take lo t), (drop hi t). by apply span_substring.
  - by apply word_count_zero.
  - intros Hnlp. apply no_elements_nil. intros x.
    rewrite (elem_of_extract_skills nlp set_order set_order_perm).
    intros [?%Hkey|(ent & Hent & _)]; [done| ]. rewrite Hnlp in Hent.
    by apply elem_of_nil in Hent.
Qed.

End blank_text.

Section covers.

Variable t : text.
Variable r : regex.
Hypothesis nonempty : ∀ i m, i ≤ length t → match_at t r i = Some m → i < m_end m.

Lemma finditer_in_covers (n a next k : nat) :
  a + n = S (length t) → a ≤ k ≤ length t → next ≤ k →
  is_Some (match_at t r k) →
  ∃ m, m ∈ finditer_in t r (seq a n) next ∧ m_start m ≤ k < m_end m.
Proof.
  revert a next. induction n as [|n IH]; intros a next Han Hk Hnext Hmatch; [lia| ].
  simpl. destruct (Nat.ltb_spec a next).
  { apply IH; [lia..|done]. }
  destruct (match_at t r a) as [m|] eqn:Ha.
  - pose proof (match_at_start _ _ _ _ Ha) as Hstart.
    assert (a ≤ length t) as Hle by lia. pose proof (nonempty a m Hle Ha).
    destruct (Nat.eqb_spec (m_end m) a); [lia| ].
    destruct (decide (k < m_end m)).
    + exists m. split; [left|lia].
    + destruct (IH (S a) (m_end m)) as (m' & ? & ?); [lia..|done| ].
      exists m'. split; [by right|done].
  - destruct (decide (k = a)) as [->|]; [rewrite Ha in Hmatch; by destruct Hmatch| ].
    apply IH; [lia..|done].
Qed.

Lemma finditer_covers (k : nat) :
  k ≤ length t → is_Some (match_at t r k) →
  ∃ m, m ∈ finditer r t ∧ m_start m ≤ k < m_end m.
Proof. intros ? ?. apply finditer_in_covers; [done|lia|lia|done]. Qed.

End covers.

Lemma mark_nonempty (t : text) (r : regex) (i : nat) (m : rmatch) :
  at_least is_mark r 1 → i ≤ length t → match_at t r i = Some m → i < m_end m.
Proof.
  intros Hr Hi Hm. pose proof (match_at_bounds _ _ _ _ Hm Hi).
  pose proof (match_at_start _ _ _ _ Hm) as Hstart.
  pose proof (at_least_count _ _ _ _ Hr (match_at_lang _ _ _ _ Hm Hi)) as Hc.
  pose proof (count_le_length is_mark (group0 t m)) as Hl.
  unfold group0 in *. rewrite length_span in Hl by lia. lia.
Qed.

(** X16. Every position at which a degree pattern matches lies inside a
    match that has an education entry: a degree mention is only left out
    when an earlier match of the same pattern already covers it. *)
Theorem degree_matches_cover (t : text) (p : regex) (k : nat) :
  p ∈ degree_patterns → k ≤ length t → is_Some (match_at t p k) →
  ∃ m, m ∈ finditer p t ∧ m_start m ≤ k < m_end m ∧
       education_of t m ∈ extract_education t.
Proof.
  intros Hp Hk Hm.
  destruct (finditer_covers t p) with (k := k) as (m & Hin & ?); [|done..| ].
  { intros i m' ? ?. eapply mark_nonempty; [by apply degree_patterns_mark|done..]. }
  exists m. split; [done| ]. split; [done| ].
  apply elem_of_extract_education. by exists p, m.
Qed.

(** X17. In a text of at most 200 characters the details of every
    education entry are the whole text, stripped. *)
Theorem short_text_details (t : text) (e : education_entry) :
  length t ≤ 200 → e ∈ extract_education t → details e = strip t.
Proof.
  intros Hlen (p & m & Hp & Hm & ->)%elem_of_extract_education. simpl.
  destruct (finditer_spec t p) as [Hall _]. rewrite Forall_forall in Hall.
  destruct (Hall m Hm) as [? _].
  rewrite education_context_span, !span_app by lia.
  replace (m_start m - min 200 (m_start m)) with 0 by lia.
  replace (m_end m + min 200 (length t - m_end m)) with (length t) by lia.
  by rewrite span_to_end, drop_0.
Qed.

Section skills_size.

Variable nlp : text → list entity.
Variable set_order : gset text → list text.
Hypothesis set_order_perm : ∀ s, set_order s ≡ₚ elements s.

(** X18. The skills list has at most 38 entries (the size of the lexicon)
    plus one for each recognised entity. *)
Theorem extract_skills_size (t : text) :
  length (extract_skills nlp set_order t) ≤ 38 + length (nlp t).
Proof.
  set (candidates := (title <$> (skills_keywords ≫= snd))
                     ++ ((λ ent, strip (ent_text ent)) <$> nlp t)).
  assert (length candidates = 38 + length (nlp t)) as <-.
  { unfold candidates. rewrite length_app, !length_fmap. done. }
  apply submseteq_length, NoDup_submseteq.
  - by apply NoDup_extract_skills.
  - intros x [Hkey|Hent]%(elem_of_extract_skills nlp set_order set_order_perm);
      apply elem_of_app.
    + left. destruct Hkey as (category & keywords & keyword & ? & ? & _ & ->).
      apply list_elem_of_fmap. exists keyword. split; [done| ].
      apply list_elem_of_bind. by exists (category, keywords).
    + right. destruct Hent as (ent & ? & _ & -> & _).
      apply list_elem_of_fmap. by exists ent.
Qed.

End skills_size.

(** ** Instances of the further properties *)

(** An instance of X1. *)
Lemma contact_occurs_witness :
  let t := cps "Contact: jane.smith@corp.com" in
  email (extract_contact_info t) = Some (cps "jane.smith@corp.com") ∧
  occurs_in (cps "jane.smith@corp.com") t.
Proof.
  intros t.
  assert (email (extract_contact_info t) = Some (cps "jane.smith@corp.com")) as He
    by (vm_compute; reflexivity).
  split; [exact He| ].
  apply (contact_fields_occur_in_text t). left. exact He.
Defined.

(** An instance of X2: a number written with full-width digits (U+FF10 to
    U+FF19), which [\d] accepts. *)
Lemma phone_digits_witness :
  let v := [65301; 65301; 65301; 45; 65297; 65298; 65299; 45;
            65300; 65301; 65302; 65303]%N in
  let t := cps "tel " ++ v in
  phone (extract_contact_info t) = Some v ∧ 10 ≤ count is_digit v.
Proof.
  intros v t.
  assert (phone (extract_contact_info t) = Some v) as Hp by (vm_compute; reflexivity).
  split; [exact Hp| ]. apply (phone_has_ten_digits t _ Hp).
Defined.

(** An instance of X3. *)
Lemma email_shape_witness :
  let t := cps "Contact: jane.smith@corp.com" in
  email (extract_contact_info t) = Some (cps "jane.smith@corp.com") ∧
  ∃ local domain tld,
    cps "jane.smith@corp.com" = local ++ cps "@" ++ domain ++ cps "." ++ tld ∧
    local ≠ [] ∧ Forall (λ c, email_local c = true) local ∧
    domain ≠ [] ∧ Forall (λ c, email_domain c = true) domain ∧
    2 ≤ length tld ∧ Forall (λ c, email_tld c = true) tld.
Proof.
  intros t.
  assert (email (extract_contact_info t) = Some (cps "jane.smith@corp.com")) as He
    by (vm_compute; reflexivity).
  split; [exact He| ]. apply (email_shape t _ He).
Defined.

(** An instance of X4: a handle with a letter outside ASCII. *)
Lemma profile_handle_witness :
  let t := cps "see GitHub.com/jos" ++ [233%N] ++ cps "-dev!" in
  let v := cps "GitHub.com/jos" ++ [233%N] ++ cps "-dev" in
  github (extract_contact_info t) = Some v ∧
  ∃ site handle,
    v = site ++ handle ∧
    Forall2 letter_variant (cps "github.com/") site ∧
    handle ≠ [] ∧ Forall (λ c, handle_char c = true) handle.
Proof.
  intros t v.
  assert (github (extract_contact_info t) = Some v) as Hg by (vm_compute; reflexivity).
  split; [exact Hg| ]. apply (proj2 (profile_handles_shape t _) Hg).
Defined.

(** The text and the match of the instances of X6 and X17. *)
Lemma bs_in_math_entry :
  education_of (cps "  2020: BS in Math, Springfield  ") (RMatch 8 18 (Some (8, 10)))
  ∈ extract_education (cps "  2020: BS in Math, Springfield  ").
Proof. apply list_elem_of_In. vm_compute. by left. Defined.

(** An instance of X5: "Master" written with a long s (U+017F). *)
Lemma education_degree_witness :
  let t := [77; 97; 383; 116; 101; 114]%N ++ cps " of Arts" in
  let e := education_of t (RMatch 0 14 (Some (0, 6))) in
  e ∈ extract_education t ∧ occurs_in (degree e) t.
Proof.
  intros t e.
  assert (e ∈ extract_education t) as Hin
    by (apply list_elem_of_In; vm_compute; by left).
  split; [exact Hin| ]. apply (education_degree_shape t e Hin).
Defined.

(** An instance of X6. *)
Lemma education_details_witness :
  let t := cps "  2020: BS in Math, Springfield  " in
  let e := education_of t (RMatch 8 18 (Some (8, 10))) in
  e ∈ extract_education t ∧ length (details e) ≤ length (degree e) + 400.
Proof.
  intros t e. split; [apply bs_in_math_entry| ].
  apply (education_details_bounded t e bs_in_math_entry).
Defined.

(** An instance of X7: the two matches of the first pattern. *)
Lemma disjoint_matches_witness :
  let t := cps "BS in Math. MS in Art" in
  (0, RMatch 0 10 (Some (0, 2))) ∈ education_matches t ∧
  (0, RMatch 12 21 (Some (12, 14))) ∈ education_matches t ∧
  (RMatch 0 10 (Some (0, 2)) = RMatch 12 21 (Some (12, 14)) ∨ 10 ≤ 12 ∨ 21 ≤ 0).
Proof.
  intros t.
  assert ((0, RMatch 0 10 (Some (0, 2))) ∈ education_matches t) as H1
    by (apply list_elem_of_In; vm_compute; tauto).
  assert ((0, RMatch 12 21 (Some (12, 14))) ∈ education_matches t) as H2
    by (apply list_elem_of_In; vm_compute; tauto).
  split; [exact H1| ]. split; [exact H2| ].
  apply (same_pattern_matches_disjoint t 0 _ _ H1 H2).
Defined.

(** An instance of X8. *)
Lemma section_break_witness :
  let t := [97; 10; 32; 10; 98]%N in
  [97%N] ∈ split section_break t ∧ split section_break [97%N] = [[97%N]].
Proof.
  intros t.
  assert ([97%N] ∈ split section_break t) as Hin
    by (apply list_elem_of_In; vm_compute; tauto).
  split; [exact Hin| ]. apply (sections_have_no_break t _ Hin).
Defined.

(** An instance of X9. *)
Lemma experience_entry_witness :
  let t := cps "Senior Data Analyst at Tech Corp | 2020" in
  experience_of t ∈ extract_experience t ∧
  has_job_title (experience_of t) = true ∧
  length (section_text (experience_of t)) ≤ 200.
Proof.
  intros t.
  assert (experience_of t ∈ extract_experience t) as Hin
    by (apply list_elem_of_In; vm_compute; tauto).
  split; [exact Hin| ].
  destruct (experience_entries_invariant t _ Hin) as (Hflag & Hlen & _).
  split; [exact Hflag|exact Hlen].
Defined.

(** An instance of X10: "JavaScript" gives "Java" too. *)
Lemma keyword_inside_keyword_witness :
  (∀ s : gset text, elements s ≡ₚ elements s) ∧
  contains (cps "java") (cps "javascript") = true ∧
  contains (cps "javascript") (lower (cps "I write JavaScript")) = true ∧
  cps "Java" ∈ extract_skills no_entities elements (cps "I write JavaScript").
Proof.
  split; [done| ]. split; [reflexivity| ]. split; [reflexivity| ].
  refine (proj1 (keyword_inside_keyword no_entities elements (λ _, reflexivity _)
                   (cps "I write JavaScript") (cps "programming") (cps "programming")
                   _ _ (cps "java") (cps "javascript") _ _ _ _ _ _)).
  - unfold skills_keywords. left.
  - apply list_elem_of_In. vm_compute. tauto.
  - unfold skills_keywords. left.
  - apply list_elem_of_In. vm_compute. tauto.
  - reflexivity.
  - reflexivity.
Defined.

(** An instance of X11. *)
Lemma keyword_monotone_witness :
  (∀ s : gset text, elements s ≡ₚ elements s) ∧
  keyword_hit (lower (cps "SQL")) (cps "Sql") ∧
  cps "Sql" ∈ extract_skills no_entities elements (cps "My " ++ cps "SQL" ++ cps " work").
Proof.
  assert (keyword_hit (lower (cps "SQL")) (cps "Sql")) as Hhit.
  { exists (cps "programming"),
      (cps <$> ["python"; "java"; "javascript"; "c++"; "r"; "sql"; "c#"]%string),
      (cps "sql").
    split; [unfold skills_keywords; left| ].
    split; [apply list_elem_of_In; vm_compute; tauto| ].
    split; reflexivity. }
  split; [done| ]. split; [exact Hhit| ].
  apply (keyword_skills_monotone no_entities elements (λ _, reflexivity _) _ _ _ _ Hhit).
Defined.

(** An instance of X12: a document of two pages. *)
Lemma pdf_pages_witness :
  two_pages (cps "cv.pdf")
    = Ret (Ret <$> [cps "Senior Engineer"; cps " at Tech Corp|"]) ∧
  extract_text_from_pdf two_pages (cps "cv.pdf") = cps "Senior Engineer at Tech Corp|".
Proof.
  assert (two_pages (cps "cv.pdf")
          = Ret (Ret <$> [cps "Senior Engineer"; cps " at Tech Corp|"])) as Hp
    by reflexivity.
  split; [exact Hp| ].
  apply (proj1 (extract_text_from_pdf_cases two_pages (cps "cv.pdf")) _ Hp).
Defined.

(** An instance of X14. *)
Lemma word_count_witness :
  is_space 32 = true ∧
  Chars.word_count (cps "two words" ++ 32%N :: cps "and three more")
  = Chars.word_count (cps "two words") + Chars.word_count (cps "and three more").
Proof.
  split; [reflexivity| ].
  apply (word_count_blank_additive (cps "two words") (cps "and three more") 32%N).
  reflexivity.
Defined.

(** An instance of X15: two spaces and a line break. *)
Lemma blank_text_witness :
  (∀ s : gset text, elements s ≡ₚ elements s) ∧
  blank [32; 32; 10]%N ∧
  extract_contact_info [32; 32; 10]%N = ContactInfo None None None None ∧
  extract_skills no_entities elements [32; 32; 10]%N = [].
Proof.
  assert (blank [32; 32; 10]%N) as Hb by (repeat constructor).
  split; [done| ]. split; [exact Hb| ].
  destruct (blank_text_empty_record no_entities elements (λ _, reflexivity _) _ Hb)
    as (Hc & _ & _ & _ & _ & Hs).
  split; [exact Hc|apply Hs; reflexivity].
Defined.

(** An instance of X16: the second pattern matches at "Diploma". *)
Lemma degree_cover_witness :
  let t := cps "a Diploma in Art" in
  let p := seqs [Group (alts (lit_i <$> ["Associate"; "Diploma"]%string));
                 plus space; opt_of; plus (Chr word_or_space)] in
  p ∈ degree_patterns ∧ 2 ≤ length t ∧ is_Some (match_at t p 2) ∧
  ∃ m, m ∈ finditer p t ∧ m_start m ≤ 2 < m_end m.
Proof.
  intros t p.
  assert (p ∈ degree_patterns) as Hp by (unfold degree_patterns; right; left).
  assert (2 ≤ length t) as Hlen by (vm_compute; lia).
  assert (is_Some (match_at t p 2)) as Hm by (vm_compute; eexists; reflexivity).
  split; [exact Hp| ]. split; [exact Hlen| ]. split; [exact Hm| ].
  destruct (degree_matches_cover t p 2 Hp Hlen Hm) as (m & Hin & Hk & _).
  exists m. split; [exact Hin|exact Hk].
Defined.

(** An instance of X17. *)
Lemma short_text_witness :
  let t := cps "  2020: BS in Math, Springfield  " in
  let e := education_of t (RMatch 8 18 (Some (8, 10))) in
  length t ≤ 200 ∧ e ∈ extract_education t ∧ details e = strip t.
Proof.
  intros t e. assert (length t ≤ 200) as Hlen by (vm_compute; lia).
  split; [exact Hlen| ]. split; [apply bs_in_math_entry| ].
  apply (short_text_details t e Hlen bs_in_math_entry).
Defined.

(** An instance of X18: one entity, and the keywords "python" and "sql". *)
Lemma skills_size_witness :
  (∀ s : gset text, elements s ≡ₚ elements s) ∧
  length (extract_skills one_entity elements (cps "Python and SQL"))
  ≤ 38 + length (one_entity (cps "Python and SQL")).
Proof.
  split; [done| ].
  apply (extract_skills_size one_entity elements (λ _, reflexivity _)).
Defined.
